(** * hearthstone-parser: the log pipeline and the match state, embedded

    A shallow embedding of the TypeScript sources

    - [src/game-state.ts]            (GameState, Player, Card, putCards),
    - [src/entity.ts]                (CardEntity, identifySpecialTags),
    - [src/match-log.ts]             (MatchLogEntry, as data),
    - [src/line-parsers-v2/factory.ts] (makeFullRegex, lineParserFactory,
                                      blockParserFactory),
    - [src/line-parsers-v2/index.ts] (the handlers and the parser list),
    - [src/utils/read-log-file.ts]   (readLogFile),
    - [src/log-watcher.ts]           (update, parseLines),

    followed by the properties of the specification that can be stated
    over it.

    Conventions.  A JavaScript number that comes out of [parseInt] is a
    [number]: an integer or NaN (the sources never produce fractions).
    The arithmetic of doubles is exact on the safe integers, those below
    2^53 in magnitude ([safe_integer]); [parseInt] and [num_sub] are the
    exact functions, and a property that reads a parsed value or a
    difference assumes that range.  A property that may be [undefined] is
    an [option].  A JavaScript string is a [string]: a list of code units
    below 256; a file is the string of its bytes, which decoding leaves
    as they are when the file is ASCII ([all_ascii]).  Objects found with [Array.prototype.find] and then mutated
    are addressed by their index in the array, so that aliases of one
    player are one slot of [players].  [Date.now()] reads an explicit
    [Clock]; the debug logger only prints and is left out. *)

From Stdlib Require Import ZArith Ascii String List Bool Lia.
From stdpp Require Import base option list gmap strings.

Local Open Scope Z_scope.
Local Open Scope string_scope.

(** ** JavaScript primitives *)

Inductive number : Type :=
  | NaN : number
  | Int (z : Z) : number.

#[global] Instance number_eq_dec : EqDecision number.
Proof. solve_decision. Defined.

Definition number_to_option (n : number) : option Z :=
  match n with NaN => None | Int z => Some z end.

Definition number_of_option (o : option Z) : number :=
  match o with None => NaN | Some z => Int z end.

#[global] Instance number_countable : Countable number.
Proof.
  apply (inj_countable' number_to_option number_of_option).
  intros []; reflexivity.
Defined.

(** [a === b] on numbers: NaN is not equal to itself. *)
Definition strict_eq (a b : number) : bool :=
  match a, b with
  | Int x, Int y => Z.eqb x y
  | _, _ => false
  end.

(** [Number.MAX_SAFE_INTEGER] and [Number.isSafeInteger]: up to 2^53 - 1
    in magnitude every integer is a double, and a sum or a difference of
    two such integers that is itself in the range is computed without
    rounding. *)
Definition MAX_SAFE_INTEGER : Z := 9007199254740991.

Definition safe_integer (z : Z) : Prop :=
  - MAX_SAFE_INTEGER <= z <= MAX_SAFE_INTEGER.

(** [a - b] on numbers: the exact difference, which is what the
    subtraction of doubles gives when [a], [b] and [a - b] are safe
    integers (beyond that range the double is rounded). *)
Definition num_sub (a b : number) : number :=
  match a, b with
  | Int x, Int y => Int (x - y)
  | _, _ => NaN
  end.

(** [ToNumber] of a possibly undefined number: [undefined] is NaN. *)
Definition to_number (o : option Z) : number := number_of_option o.

(** Truthiness of a string and of a possibly undefined string. *)
Definition truthy_string (s : string) : bool :=
  match s with EmptyString => false | _ => true end.

Definition truthy_ostring (o : option string) : bool :=
  match o with None => false | Some s => truthy_string s end.

(** Truthiness of a possibly undefined integer ([0] is falsy). *)
Definition truthy_oint (o : option Z) : bool :=
  match o with None => false | Some z => negb (Z.eqb z 0) end.

(** The code units that [\s] and the whitespace trimming of [parseInt]
    accept, among those below 256: TAB, LF, VT, FF, CR, SP, NBSP. *)
Definition is_space (c : ascii) : bool :=
  let n := nat_of_ascii c in
  (Nat.leb 9 n && Nat.leb n 13) || Nat.eqb n 32 || Nat.eqb n 160.

Definition is_digit (c : ascii) : bool :=
  let n := nat_of_ascii c in Nat.leb 48 n && Nat.leb n 57.

(** [.] without the [s] flag: anything but a line terminator. *)
Definition is_dot (c : ascii) : bool :=
  let n := nat_of_ascii c in negb (Nat.eqb n 10 || Nat.eqb n 13).

(** The value of a digit in a radix up to 36. *)
Definition digit_value (c : ascii) : option Z :=
  let n := nat_of_ascii c in
  if Nat.leb 48 n && Nat.leb n 57 then Some (Z.of_nat n - 48)
  else if Nat.leb 97 n && Nat.leb n 122 then Some (Z.of_nat n - 87)
  else if Nat.leb 65 n && Nat.leb n 90 then Some (Z.of_nat n - 55)
  else None.

Fixpoint skip_spaces (s : string) : string :=
  match s with
  | String c s' => if is_space c then skip_spaces s' else s
  | EmptyString => s
  end.

(** The longest prefix of radix-[r] digits, folded into its value;
    [None] when the prefix is empty. *)
Fixpoint parse_digits (r : Z) (acc : option Z) (s : string) : option Z :=
  match s with
  | String c s' =>
      match digit_value c with
      | Some d =>
          if Z.ltb d r then parse_digits r (Some (default 0 acc * r + d)) s'
          else acc
      | None => acc
      end
  | EmptyString => acc
  end.

(** [parseInt(string, radix)]; [radix = None] is the one-argument call.
    The result is the exact value of the digits, which is what
    JavaScript returns when that value is a safe integer (a longer run
    of digits is rounded to a double there, and to [Infinity] from
    about 309 digits on). *)
Definition parseInt (str : string) (radix : option Z) : number :=
  let s := skip_spaces str in
  let '(sign, s) :=
    match s with
    | String "-" s' => (-1, s')
    | String "+" s' => (1, s')
    | _ => (1, s)
    end in
  let r := default 0 radix in
  if negb (Z.eqb r 0) && (Z.ltb r 2 || Z.ltb 36 r) then NaN
  else
    let strip := Z.eqb r 0 || Z.eqb r 16 in
    let r := if Z.eqb r 0 then 10 else r in
    let '(r, s) :=
      match s with
      | String "0" (String x s') =>
          if strip && (Ascii.eqb x "x" || Ascii.eqb x "X") then (16, s')
          else (r, s)
      | _ => (r, s)
      end in
    match parse_digits r None s with
    | Some v => Int (sign * v)
    | None => NaN
    end.

(** ** Regular expressions

    The fragment of the RegExp syntax that the parsers use, with the
    backtracking, leftmost, greedy semantics of [RegExp.prototype.exec]. *)

Inductive regex : Type :=
  | Lit (s : string)            (* literal characters *)
  | Dot                         (* .  *)
  | Digit                       (* \d *)
  | Space                       (* \s *)
  | Seq (r1 r2 : regex)
  | Alt (r1 r2 : regex)         (* r1|r2 *)
  | Star (r : regex)            (* r* *)
  | Plus (r : regex)            (* r+ *)
  | Opt (r : regex)             (* r? *)
  | Group (name : string) (r : regex)   (* (?<name>r) *)
  | Eol.                        (* $ *)

Definition Groups : Type := gmap string string.

Fixpoint strip_prefix (p s : string) : option string :=
  match p, s with
  | EmptyString, _ => Some s
  | String a p', String b s' => if Ascii.eqb a b then strip_prefix p' s' else None
  | String _ _, EmptyString => None
  end.

Fixpoint take_string (n : nat) (s : string) : string :=
  match n, s with
  | S n', String c s' => String c (take_string n' s')
  | _, _ => EmptyString
  end.

Definition one_char (p : ascii -> bool) (s : string) : option string :=
  match s with
  | String c s' => if p c then Some s' else None
  | EmptyString => None
  end.

(** [rmatch r s caps k]: match [r] at the head of [s], then continue
    with [k] on the rest; a failing continuation makes the matcher
    backtrack.  An iteration of a quantifier that consumes nothing is
    rejected, as in the RepeatMatcher of the language definition. *)
Fixpoint rmatch {R : Type} (r : regex) (s : string) (caps : Groups)
    (k : string -> Groups -> option R) {struct r} : option R :=
  match r with
  | Lit p => match strip_prefix p s with Some s' => k s' caps | None => None end
  | Dot => match one_char is_dot s with Some s' => k s' caps | None => None end
  | Digit => match one_char is_digit s with Some s' => k s' caps | None => None end
  | Space => match one_char is_space s with Some s' => k s' caps | None => None end
  | Seq r1 r2 => rmatch r1 s caps (fun s' caps' => rmatch r2 s' caps' k)
  | Alt r1 r2 =>
      match rmatch r1 s caps k with
      | Some x => Some x
      | None => rmatch r2 s caps k
      end
  | Star r' =>
      (fix star (fuel : nat) (s : string) (caps : Groups) : option R :=
         match fuel with
         | O => k s caps
         | S fuel' =>
             match rmatch r' s caps (fun s' caps' =>
                     if Nat.ltb (String.length s') (String.length s)
                     then star fuel' s' caps' else None) with
             | Some x => Some x
             | None => k s caps
             end
         end) (String.length s) s caps
  | Plus r' =>
      rmatch r' s caps (fun s caps =>
        (fix star (fuel : nat) (s : string) (caps : Groups) : option R :=
           match fuel with
           | O => k s caps
           | S fuel' =>
               match rmatch r' s caps (fun s' caps' =>
                       if Nat.ltb (String.length s') (String.length s)
                       then star fuel' s' caps' else None) with
               | Some x => Some x
               | None => k s caps
               end
           end) (String.length s) s caps)
  | Opt r' =>
      match rmatch r' s caps (fun s' caps' =>
              if Nat.ltb (String.length s') (String.length s)
              then k s' caps' else None) with
      | Some x => Some x
      | None => k s caps
      end
  | Group name r' =>
      rmatch r' s caps (fun s' caps' =>
        k s' (<[name := take_string (String.length s - String.length s') s]> caps'))
  | Eol => match s with EmptyString => k s caps | _ => None end
  end.

(** [regex.exec(line)] without flags: the first position at which the
    pattern matches; the result is the named groups of the match. *)
Fixpoint exec (r : regex) (line : string) : option Groups :=
  match rmatch r line ∅ (fun _ caps => Some caps) with
  | Some g => Some g
  | None =>
      match line with
      | String _ rest => exec r rest
      | EmptyString => None
      end
  end.

(** ** src/line-parsers-v2/consts.ts *)

Definition unknownPlayerName : string := "UNKNOWN HUMAN PLAYER".

Inductive Team : Type := Team_Friendly | Team_Opposing.

(** The three zones the parsers single out; any other zone text (and an
    unbound zone group) behaves alike in every comparison and is
    [Zone_Other]. *)
Inductive Zone : Type := Zone_Deck | Zone_Hand | Zone_Secret | Zone_Other.

#[global] Instance Team_eq_dec : EqDecision Team.
Proof. solve_decision. Defined.
#[global] Instance Zone_eq_dec : EqDecision Zone.
Proof. solve_decision. Defined.

(** ** src/entity.ts *)

Inductive Position : Type := top | bottom.

#[global] Instance Position_eq_dec : EqDecision Position.
Proof. solve_decision. Defined.

Inductive EntityTags : Type := can_corrupt | corrupt.

(** [CardEntity]; its constant [type: "card"] is not represented. *)
Record CardEntity : Type := mkCardEntity {
  ce_cardId : option Z;
  ce_cardName : string;
  ce_entityId : number;
  ce_player : Position;
  ce_tags : gmap string string;
}.

(** [Pick<CardEntity, "entityId"> & Partial<CardEntity>]: the argument of
    [resolveEntity]. *)
Record PartialCardEntity : Type := mkPartialCardEntity {
  pe_entityId : number;
  pe_cardId : option Z;
  pe_cardName : option string;
  pe_player : option Position;
  pe_tags : option (gmap string string);
}.

Record EntityProps : Type := mkEntityProps {
  ep_entityId : number;
  ep_cardId : option Z;
  ep_cardName : string;
  ep_player : Position;
  ep_damage : option Z;
  ep_healing : option Z;
  ep_dead : option bool;
  ep_tags : option (list EntityTags);
}.

Definition identifySpecialTags (entity : option CardEntity) : option (list EntityTags) :=
  match entity with
  | None => None
  | Some e =>
      if decide (ce_tags e !! "CORRUPTEDCARD" = Some "1") then Some [corrupt]
      else if decide (ce_tags e !! "CORRUPT" = Some "1") then Some [can_corrupt]
      else None
  end.

(** ** src/match-log.ts (the record; its entries reach the state through
    [addMatchLogEntry]) *)

Inductive MatchLogType : Type := attack | play | trigger.

Record MatchLogEntry : Type := mkMatchLogEntry {
  ml_type : MatchLogType;
  ml_manaSpent : Z;
  ml_source : EntityProps;
  ml_targets : list EntityProps;
}.

(** ** src/game-state.ts *)

Definition UNKNOWN_CARDNAME : string := "UNKNOWN ENTITY [cardType=INVALID]".

Definition isEmpty (cardName : option string) : bool :=
  match cardName with
  | None => true
  | Some n => negb (truthy_string n) || String.eqb n UNKNOWN_CARDNAME
  end.

(** [Class] comes from data/meta, which is not among the sources; its
    values are kept as their text. *)
Definition Class : Type := string.

Record Secret : Type := mkSecret {
  sec_entityId : number;
  sec_cardId : string;
  sec_cardClass : Class;
  sec_cardName : string;
  sec_timestamp : Z;
}.

Record Quest : Type := mkQuest {
  q_entityId : number;
  q_cardName : string;
  q_class : Class;
  q_progress : number;
  q_requirement : Z;
  q_sidequest : bool;
  q_timestamp : Z;
}.

Inductive CardState : Type := DECK | HAND | OTHERS.

Record Card : Type := mkCard {
  c_entityId : number;
  c_cardId : option Z;
  c_cardName : option string;
  c_state : CardState;
  c_isSpawnedCard : bool;
  c_tags : list EntityTags;
}.

Record Discovery : Type := mkDiscovery {
  d_enabled : bool;
  d_id : option string;
  d_source : option EntityProps;
  d_chosen : option EntityProps;
  d_options : list EntityProps;
}.

Inductive Status : Type := LOST | WON | TIED | NoStatus.

Record Turn : Type := mkTurn {
  t_startTime : Z;
  t_duration : option Z;
}.

Record Player : Type := mkPlayer {
  p_id : number;
  p_name : string;
  p_status : Status;
  p_turn : bool;
  p_turnHistory : list Turn;
  p_quests : list Quest;
  p_timeout : number;
  p_cardCount : Z;
  p_cards : list Card;
  p_position : Position;
  p_secrets : list Secret;
  p_discovery : Discovery;
  p_discoverHistory : list Discovery;
  p_cardsReplacedInMulligan : number;
  p_availableMana : number;
  p_manaSpent : Z;
}.

(** A [Date] object: [new Date()] reads the clock; [!==] compares the
    objects themselves, so each carries the tick that allocated it. *)
Record Date : Type := mkDate {
  date_ref : nat;
  date_ms : Z;
}.

(** [startTime], [matchDuration], [playerCount] and [turnStartTime] have
    no initialiser and are [undefined] until assigned.  [mulliganActive]
    has none either; the sources only test its truthiness, so [undefined]
    is [false]. *)
Record GameState : Type := mkGameState {
  startTime : option Z;
  matchDuration : option number;
  playerCount : option Z;
  gameOverCount : Z;
  players : list Player;
  beginPhaseActive : bool;
  mulliganActive : bool;
  turnStartTime : option Date;
  matchLog : list MatchLogEntry;
  entities : gmap number CardEntity;
  missingEntityIds : gset number;
}.

(** [Date.now()] and [new Date()] read an explicit clock: the [n]-th read
    returns [readings n]. *)
Record Clock : Type := mkClock {
  readings : nat -> Z;
  tick : nat;
}.

Definition Date_now (clk : Clock) : Z * Clock :=
  (readings clk (tick clk), mkClock (readings clk) (S (tick clk))).

Definition new_Date (clk : Clock) : Date * Clock :=
  (mkDate (tick clk) (readings clk (tick clk)), mkClock (readings clk) (S (tick clk))).

(** Field updates, one per assigned field. *)
Definition set_p_name (v : string) (p : Player) : Player :=
  mkPlayer (p_id p) v (p_status p) (p_turn p) (p_turnHistory p) (p_quests p)
    (p_timeout p) (p_cardCount p) (p_cards p) (p_position p) (p_secrets p)
    (p_discovery p) (p_discoverHistory p) (p_cardsReplacedInMulligan p)
    (p_availableMana p) (p_manaSpent p).
Definition set_p_status (v : Status) (p : Player) : Player :=
  mkPlayer (p_id p) (p_name p) v (p_turn p) (p_turnHistory p) (p_quests p)
    (p_timeout p) (p_cardCount p) (p_cards p) (p_position p) (p_secrets p)
    (p_discovery p) (p_discoverHistory p) (p_cardsReplacedInMulligan p)
    (p_availableMana p) (p_manaSpent p).
Definition set_p_turn (v : bool) (p : Player) : Player :=
  mkPlayer (p_id p) (p_name p) (p_status p) v (p_turnHistory p) (p_quests p)
    (p_timeout p) (p_cardCount p) (p_cards p) (p_position p) (p_secrets p)
    (p_discovery p) (p_discoverHistory p) (p_cardsReplacedInMulligan p)
    (p_availableMana p) (p_manaSpent p).
Definition set_p_turnHistory (v : list Turn) (p : Player) : Player :=
  mkPlayer (p_id p) (p_name p) (p_status p) (p_turn p) v (p_quests p)
    (p_timeout p) (p_cardCount p) (p_cards p) (p_position p) (p_secrets p)
    (p_discovery p) (p_discoverHistory p) (p_cardsReplacedInMulligan p)
    (p_availableMana p) (p_manaSpent p).
Definition set_p_quests (v : list Quest) (p : Player) : Player :=
  mkPlayer (p_id p) (p_name p) (p_status p) (p_turn p) (p_turnHistory p) v
    (p_timeout p) (p_cardCount p) (p_cards p) (p_position p) (p_secrets p)
    (p_discovery p) (p_discoverHistory p) (p_cardsReplacedInMulligan p)
    (p_availableMana p) (p_manaSpent p).
Definition set_p_timeout (v : number) (p : Player) : Player :=
  mkPlayer (p_id p) (p_name p) (p_status p) (p_turn p) (p_turnHistory p) (p_quests p)
    v (p_cardCount p) (p_cards p) (p_position p) (p_secrets p)
    (p_discovery p) (p_discoverHistory p) (p_cardsReplacedInMulligan p)
    (p_availableMana p) (p_manaSpent p).
Definition set_p_cardCount (v : Z) (p : Player) : Player :=
  mkPlayer (p_id p) (p_name p) (p_status p) (p_turn p) (p_turnHistory p) (p_quests p)
    (p_timeout p) v (p_cards p) (p_position p) (p_secrets p)
    (p_discovery p) (p_discoverHistory p) (p_cardsReplacedInMulligan p)
    (p_availableMana p) (p_manaSpent p).
Definition set_p_cards (v : list Card) (p : Player) : Player :=
  mkPlayer (p_id p) (p_name p) (p_status p) (p_turn p) (p_turnHistory p) (p_quests p)
    (p_timeout p) (p_cardCount p) v (p_position p) (p_secrets p)
    (p_discovery p) (p_discoverHistory p) (p_cardsReplacedInMulligan p)
    (p_availableMana p) (p_manaSpent p).
Definition set_p_position (v : Position) (p : Player) : Player :=
  mkPlayer (p_id p) (p_name p) (p_status p) (p_turn p) (p_turnHistory p) (p_quests p)
    (p_timeout p) (p_cardCount p) (p_cards p) v (p_secrets p)
    (p_discovery p) (p_discoverHistory p) (p_cardsReplacedInMulligan p)
    (p_availableMana p) (p_manaSpent p).
Definition set_p_secrets (v : list Secret) (p : Player) : Player :=
  mkPlayer (p_id p) (p_name p) (p_status p) (p_turn p) (p_turnHistory p) (p_quests p)
    (p_timeout p) (p_cardCount p) (p_cards p) (p_position p) v
    (p_discovery p) (p_discoverHistory p) (p_cardsReplacedInMulligan p)
    (p_availableMana p) (p_manaSpent p).
Definition set_p_cardsReplacedInMulligan (v : number) (p : Player) : Player :=
  mkPlayer (p_id p) (p_name p) (p_status p) (p_turn p) (p_turnHistory p) (p_quests p)
    (p_timeout p) (p_cardCount p) (p_cards p) (p_position p) (p_secrets p)
    (p_discovery p) (p_discoverHistory p) v
    (p_availableMana p) (p_manaSpent p).
Definition set_p_availableMana (v : number) (p : Player) : Player :=
  mkPlayer (p_id p) (p_name p) (p_status p) (p_turn p) (p_turnHistory p) (p_quests p)
    (p_timeout p) (p_cardCount p) (p_cards p) (p_position p) (p_secrets p)
    (p_discovery p) (p_discoverHistory p) (p_cardsReplacedInMulligan p)
    v (p_manaSpent p).

Definition set_startTime (v : option Z) (s : GameState) : GameState :=
  mkGameState v (matchDuration s) (playerCount s) (gameOverCount s) (players s)
    (beginPhaseActive s) (mulliganActive s) (turnStartTime s) (matchLog s)
    (entities s) (missingEntityIds s).
Definition set_matchDuration (v : option number) (s : GameState) : GameState :=
  mkGameState (startTime s) v (playerCount s) (gameOverCount s) (players s)
    (beginPhaseActive s) (mulliganActive s) (turnStartTime s) (matchLog s)
    (entities s) (missingEntityIds s).
Definition set_gameOverCount (v : Z) (s : GameState) : GameState :=
  mkGameState (startTime s) (matchDuration s) (playerCount s) v (players s)
    (beginPhaseActive s) (mulliganActive s) (turnStartTime s) (matchLog s)
    (entities s) (missingEntityIds s).
Definition set_players (v : list Player) (s : GameState) : GameState :=
  mkGameState (startTime s) (matchDuration s) (playerCount s) (gameOverCount s) v
    (beginPhaseActive s) (mulliganActive s) (turnStartTime s) (matchLog s)
    (entities s) (missingEntityIds s).
Definition set_beginPhaseActive (v : bool) (s : GameState) : GameState :=
  mkGameState (startTime s) (matchDuration s) (playerCount s) (gameOverCount s) (players s)
    v (mulliganActive s) (turnStartTime s) (matchLog s)
    (entities s) (missingEntityIds s).
Definition set_mulliganActive (v : bool) (s : GameState) : GameState :=
  mkGameState (startTime s) (matchDuration s) (playerCount s) (gameOverCount s) (players s)
    (beginPhaseActive s) v (turnStartTime s) (matchLog s)
    (entities s) (missingEntityIds s).
Definition set_turnStartTime (v : option Date) (s : GameState) : GameState :=
  mkGameState (startTime s) (matchDuration s) (playerCount s) (gameOverCount s) (players s)
    (beginPhaseActive s) (mulliganActive s) v (matchLog s)
    (entities s) (missingEntityIds s).
Definition set_matchLog (v : list MatchLogEntry) (s : GameState) : GameState :=
  mkGameState (startTime s) (matchDuration s) (playerCount s) (gameOverCount s) (players s)
    (beginPhaseActive s) (mulliganActive s) (turnStartTime s) v
    (entities s) (missingEntityIds s).
Definition set_entities (v : gmap number CardEntity) (s : GameState) : GameState :=
  mkGameState (startTime s) (matchDuration s) (playerCount s) (gameOverCount s) (players s)
    (beginPhaseActive s) (mulliganActive s) (turnStartTime s) (matchLog s)
    v (missingEntityIds s).
Definition set_missingEntityIds (v : gset number) (s : GameState) : GameState :=
  mkGameState (startTime s) (matchDuration s) (playerCount s) (gameOverCount s) (players s)
    (beginPhaseActive s) (mulliganActive s) (turnStartTime s) (matchLog s)
    (entities s) v.

(** [players[i]] mutated in place. *)
Definition update_player (i : nat) (f : Player -> Player) (s : GameState) : GameState :=
  set_players (alter f i (players s)) s.

Definition set_c_cardId (v : option Z) (c : Card) : Card :=
  mkCard (c_entityId c) v (c_cardName c) (c_state c) (c_isSpawnedCard c) (c_tags c).
Definition set_c_cardName (v : option string) (c : Card) : Card :=
  mkCard (c_entityId c) (c_cardId c) v (c_state c) (c_isSpawnedCard c) (c_tags c).
Definition set_c_state (v : CardState) (c : Card) : Card :=
  mkCard (c_entityId c) (c_cardId c) (c_cardName c) v (c_isSpawnedCard c) (c_tags c).
Definition set_c_tags (v : list EntityTags) (c : Card) : Card :=
  mkCard (c_entityId c) (c_cardId c) (c_cardName c) (c_state c) (c_isSpawnedCard c) v.

(** [array.find(f)], as the index of the element found. *)
Fixpoint find_idx {A : Type} (f : A -> bool) (l : list A) : option nat :=
  match l with
  | [] => None
  | x :: l' => if f x then Some O else S <$> find_idx f l'
  end.

(** [new GameState()]: every field without initialiser is undefined, then
    [reset()]. *)
Definition new_GameState : GameState :=
  mkGameState None None None 0 [] true false None [] ∅ ∅.

Definition numPlayers (s : GameState) : nat := length (players s).

Definition complete (s : GameState) : bool := Z.eqb (gameOverCount s) 2.

Definition active (s : GameState) : bool :=
  truthy_oint (startTime s) && negb (complete s).

Definition reset (s : GameState) : GameState :=
  mkGameState (startTime s) (matchDuration s) (playerCount s) 0 []
    true (mulliganActive s) (turnStartTime s) [] ∅ ∅.

Definition start (s : GameState) (clk : Clock) : GameState * Clock :=
  let s := reset s in
  let '(now, clk) := Date_now clk in
  (set_startTime (Some now) s, clk).

Definition getPlayerById (s : GameState) (index : number) : option nat :=
  find_idx (fun player => strict_eq (p_id player) index) (players s).

Definition getPlayerByPosition (s : GameState) (position : Position) : option nat :=
  find_idx (fun player => bool_decide (p_position player = position)) (players s).

Definition getPlayerByName (s : GameState) (name : string) : option nat :=
  find_idx (fun player => String.eqb (p_name player) name) (players s).

Definition getAllPlayers (s : GameState) : list Player := players s.

Definition getOpponentPlayer (s : GameState) (player : Player) : option nat :=
  find_idx (fun p => negb (strict_eq (p_id p) (p_id player))) (players s).

Definition getPlayerByTeam (s : GameState) (team : option Team) : option nat :=
  match team with
  | Some Team_Friendly => getPlayerByPosition s bottom
  | Some Team_Opposing => getPlayerByPosition s top
  | None => None
  end.

(** The ids that [addMatchLogEntry] flags for one entry. *)
Definition missing_of_entry (entry : MatchLogEntry) : gset number :=
  (if isEmpty (Some (ep_cardName (ml_source entry)))
   then {[ ep_entityId (ml_source entry) ]} else ∅)
  ∪ list_to_set (ep_entityId <$>
       filter (fun target => isEmpty (Some (ep_cardName target)) = true) (ml_targets entry)).

Definition addMatchLogEntry (entries : list MatchLogEntry) (s : GameState) : GameState :=
  let missing :=
    foldl (fun acc entry => acc ∪ missing_of_entry entry) (missingEntityIds s) entries in
  set_matchLog (matchLog s ++ entries) (set_missingEntityIds missing s).

(** [merge({type: "card", tags: {}, player: "bottom", cardName: ""},
    existing, entity)] of lodash, field by field: a source field that is
    [undefined] is skipped, any other value (the empty string included) is
    assigned; the [tags] objects are merged key by key, later sources
    winning. *)
Definition merge (existing : option CardEntity) (entity : PartialCardEntity) : CardEntity :=
  let cardId0 := existing ≫= ce_cardId in
  let cardName0 := from_option ce_cardName "" existing in
  let player0 := from_option ce_player bottom existing in
  let tags0 := from_option ce_tags ∅ existing in
  {| ce_cardId := match pe_cardId entity with Some c => Some c | None => cardId0 end;
     ce_cardName := default cardName0 (pe_cardName entity);
     ce_entityId := pe_entityId entity;
     ce_player := default player0 (pe_player entity);
     ce_tags := match pe_tags entity with Some t => t ∪ tags0 | None => tags0 end |}.

(** [{ ...props, ...newProps }] with [newProps = { entityId, cardName, cardId }]. *)
Definition spread_newProps (props : EntityProps) (e : CardEntity) : EntityProps :=
  mkEntityProps (ce_entityId e) (ce_cardId e) (ce_cardName e) (ep_player props)
    (ep_damage props) (ep_healing props) (ep_dead props) (ep_tags props).

Definition patch_props (e : CardEntity) (props : EntityProps) : EntityProps :=
  if isEmpty (Some (ep_cardName props)) && strict_eq (ep_entityId props) (ce_entityId e)
  then spread_newProps props e else props.

Definition patch_entry (e : CardEntity) (entry : MatchLogEntry) : MatchLogEntry :=
  mkMatchLogEntry (ml_type entry) (ml_manaSpent entry)
    (patch_props e (ml_source entry)) (patch_props e <$> ml_targets entry).

Definition refresh_card (ents : gmap number CardEntity) (entityId : number) (card : Card) : Card :=
  if strict_eq (c_entityId card) entityId then
    match identifySpecialTags (ents !! c_entityId card) with
    | Some tags => set_c_tags tags card
    | None => card
    end
  else card.

Definition resolveEntity (entity : PartialCardEntity) (s : GameState) : GameState :=
  let existing := entities s !! pe_entityId entity in
  let newEntity := merge existing entity in
  let s := set_entities (<[pe_entityId entity := newEntity]> (entities s)) s in
  let s := set_players
    ((fun player =>
        set_p_cards (refresh_card (entities s) (pe_entityId entity) <$> p_cards player) player)
     <$> players s) s in
  if isEmpty (Some (ce_cardName newEntity))
     || negb (bool_decide (ce_entityId newEntity ∈ missingEntityIds s))
  then s
  else set_matchLog (patch_entry newEntity <$> matchLog s) s.

Definition getEntity (s : GameState) (id : number) : option CardEntity :=
  entities s !! id.

Definition newPlayer (id : number) (name : string) : Player :=
  {| p_id := id; p_name := name; p_status := NoStatus; p_turn := false;
     p_turnHistory := []; p_quests := []; p_timeout := Int 45; p_cardCount := 0;
     p_cards := []; p_position := bottom; p_secrets := [];
     p_discovery := mkDiscovery false None None None [];
     p_discoverHistory := []; p_cardsReplacedInMulligan := Int 0;
     p_availableMana := Int 0; p_manaSpent := 0 |}.

(** The three conditional assignments of [putCards] to the card found. *)
Definition update_card (cardId : option Z) (cardName : option string)
    (state : option CardState) (card : Card) : Card :=
  let card := if truthy_oint cardId then set_c_cardId cardId card else card in
  let card := if truthy_ostring cardName then set_c_cardName cardName card else card in
  match state with
  | Some st => set_c_state st card
  | None => card
  end.

(** [putCards]: update the card of that entity in place, or push one when
    there is none and both [state] and [isSpawnedCard] are given. *)
Definition putCards (cardList : list Card) (entityId : number) (cardId : option Z)
    (cardName : option string) (isSpawnedCard : option bool)
    (state : option CardState) : list Card :=
  match find_idx (fun c => strict_eq (c_entityId c) entityId) cardList with
  | Some i => alter (update_card cardId cardName state) i cardList
  | None =>
      match state, isSpawnedCard with
      | Some st, Some spawned =>
          cardList ++ [mkCard entityId cardId cardName st spawned []]
      | _, _ => cardList
      end
  end.

(** ** The static tables

    [data/cards] ([cards.json] keyed by card id), [data/quests],
    [data/secrets] and [DECK_CARD_COUNT] of [data/meta] are not among the
    sources; the parsers are stated over any such tables. *)

Record CardType : Type := mkCardType {
  dbfId : Z;
  ct_id : string;
  ct_name : string;
}.

(** What a [questMap] value contributes to a [Quest]. *)
Record QuestData : Type := mkQuestData {
  qd_class : Class;
  qd_requirement : Z;
  qd_sidequest : bool;
}.

Record StaticData : Type := mkStaticData {
  cardData : string -> option CardType;
  questMap : string -> option QuestData;
  secretToClass : string -> option Class;
  DECK_CARD_COUNT : Z;
}.

(** ** src/line-parsers-v2/index.ts: the handlers

    Each [matchesHandler] first reads its locals off [groups] and then
    works on them; the second part is a function of its own here, so that
    a property can speak of the fact a line carries. *)

(** [groups.key] under the handlers' type [Record<string, string>]. *)
Definition grp (groups : Groups) (key : string) : string :=
  default "" (groups !! key).

(** [groups.key as Team]. *)
Definition as_Team (o : option string) : option Team :=
  match o with
  | Some s =>
      if String.eqb s "FRIENDLY" then Some Team_Friendly
      else if String.eqb s "OPPOSING" then Some Team_Opposing
      else None
  | None => None
  end.

(** [groups.key as Zone]. *)
Definition as_Zone (o : option string) : Zone :=
  match o with
  | Some s =>
      if String.eqb s "DECK" then Zone_Deck
      else if String.eqb s "HAND" then Zone_Hand
      else if String.eqb s "SECRET" then Zone_Secret
      else Zone_Other
  | None => Zone_Other
  end.

Definition as_Status (s : string) : option Status :=
  if String.eqb s "WON" then Some WON
  else if String.eqb s "LOST" then Some LOST
  else if String.eqb s "TIED" then Some TIED
  else None.

Definition Handler : Type := Groups -> GameState -> Clock -> bool * GameState * Clock.

(** [lastTurn.duration = Date.now() - lastTurn.startTime] on the last
    element of a turn history, when there is one. *)
Definition close_last_turn (history : list Turn) (clk : Clock) : list Turn * Clock :=
  match last history with
  | Some lastTurn =>
      let '(now, clk) := Date_now clk in
      (alter (fun t => mkTurn (t_startTime t) (Some (now - t_startTime lastTurn)))
         (pred (length history)) history, clk)
  | None => (history, clk)
  end.

Definition close_last_turn_of (i : nat) (s : GameState) (clk : Clock) : GameState * Clock :=
  match players s !! i with
  | Some p =>
      let '(history, clk) := close_last_turn (p_turnHistory p) clk in
      (update_player i (set_p_turnHistory history) s, clk)
  | None => (s, clk)
  end.

Definition game_start : Handler := fun _ gs clk =>
  let '(gs, clk) := start gs clk in
  (true, gs, clk).

Definition playerJoined (id : number) (name : string) (gs : GameState) : bool * GameState :=
  match getPlayerById gs id with
  | Some i =>
      match players gs !! i with
      | Some existingPlayer =>
          if String.eqb (p_name existingPlayer) unknownPlayerName
          then (true, update_player i (set_p_name name) gs)
          else (false, gs)
      | None => (false, gs)
      end
  | None =>
      if Nat.eqb (length (players gs)) 2 then (false, gs)
      else (true, set_players (players gs ++ [newPlayer id name]) gs)
  end.

Definition player_joined : Handler := fun groups gs clk =>
  let '(r, gs) := playerJoined (parseInt (grp groups "id") None) (grp groups "name") gs in
  (r, gs, clk).

Definition mulligan_start : Handler := fun _ gs clk =>
  (true, set_mulliganActive true gs, clk).

Section Handlers.

Variable data : StaticData.

Definition mulliganResult (name : string) (cardsLeft : number) (gs : GameState)
    : bool * GameState :=
  if negb (mulliganActive gs) then (false, gs)
  else
    match getPlayerByName gs name with
    | None => (false, gs)
    | Some i =>
        (true,
         update_player i (fun player =>
           set_p_cardsReplacedInMulligan
             (num_sub (Int (DECK_CARD_COUNT data - p_cardCount player)) cardsLeft) player) gs)
    end.

Definition mulligan_result : Handler := fun groups gs clk =>
  let '(r, gs) :=
    mulliganResult (grp groups "name") (parseInt (grp groups "cardsLeft") (Some 10)) gs in
  (r, gs, clk).

Definition player_turn (i : nat) (gs : GameState) : bool :=
  from_option p_turn false (players gs !! i).

Definition turnChange (playerName turn : string) (gs : GameState) (clk : Clock)
    : bool * GameState * Clock :=
  match getPlayerByName gs playerName with
  | None => (false, gs, clk)
  | Some i =>
      let gs := update_player i (set_p_turn (String.eqb turn "1")) gs in
      let gs :=
        match players gs !! i ≫= getOpponentPlayer gs with
        | Some j => update_player j (set_p_turn (negb (player_turn i gs))) gs
        | None => gs
        end in
      if player_turn i gs then
        let '(now, clk) := Date_now clk in
        (true,
         update_player i (fun player =>
           set_p_turnHistory (p_turnHistory player ++ [mkTurn now None]) player) gs,
         clk)
      else
        let '(gs, clk) := close_last_turn_of i gs clk in
        (true, gs, clk)
  end.

Definition turn_change : Handler := fun groups gs clk =>
  turnChange (grp groups "playerName") (grp groups "turn") gs clk.

Definition gameOver (playerName status : string) (gs : GameState) (clk : Clock)
    : bool * GameState * Clock :=
  let gs :=
    match getPlayerByName gs playerName, as_Status status with
    | Some i, Some st => update_player i (set_p_status st) gs
    | _, _ => gs
    end in
  let gs := set_gameOverCount (gameOverCount gs + 1) gs in
  if Z.leb 2 (gameOverCount gs) then
    let '(gs, clk) :=
      match find_idx p_turn (players gs) with
      | Some c => close_last_turn_of c gs clk
      | None => (gs, clk)
      end in
    let '(now, clk) := Date_now clk in
    (true, set_matchDuration (Some (num_sub (Int now) (to_number (startTime gs)))) gs, clk)
  else (true, gs, clk).

Definition game_over : Handler := fun groups gs clk =>
  gameOver (grp groups "playerName") (grp groups "status") gs clk.

Record TeamZone : Type := mkTeamZone {
  team : option Team;
  zone : Zone;
}.

Definition is_deck_or_hand (z : Zone) : bool :=
  match z with Zone_Deck | Zone_Hand => true | _ => false end.

Definition zone_state (z : Zone) : CardState :=
  match z with Zone_Deck => DECK | Zone_Hand => HAND | _ => OTHERS end.

(** The [fromPlayer] part of zone-change. *)
Definition leave_zone (cardId cardName : string) (cardDbfId : Z) (entityId : number)
    (from : TeamZone) (gs : GameState) : GameState :=
  match getPlayerByTeam gs (team from) with
  | Some f =>
      let gs :=
        if is_deck_or_hand (zone from) then
          update_player f (fun fromPlayer =>
            set_p_cards (putCards (p_cards fromPlayer) entityId (Some cardDbfId)
                           (Some cardName) None (Some OTHERS)) fromPlayer) gs
        else gs in
      let gs :=
        if decide (zone from = Zone_Deck) then
          update_player f (fun fromPlayer =>
            set_p_cardCount (p_cardCount fromPlayer - 1) fromPlayer) gs
        else gs in
      if decide (zone from = Zone_Secret) then
        let gs :=
          match questMap data cardId with
          | Some _ =>
              update_player f (fun fromPlayer =>
                set_p_quests
                  (filter (fun quest => strict_eq (q_entityId quest) entityId = false)
                     (p_quests fromPlayer)) fromPlayer) gs
          | None => gs
          end in
        match secretToClass data cardId with
        | Some _ =>
            update_player f (fun fromPlayer =>
              set_p_secrets
                (filter (fun secret => strict_eq (sec_entityId secret) entityId = false)
                   (p_secrets fromPlayer)) fromPlayer) gs
        | None => gs
        end
      else gs
  | None => gs
  end.

(** The [toPlayer] part of zone-change. *)
Definition enter_zone (cardId cardName : string) (cardDbfId : Z) (entityId : number)
    (to : TeamZone) (gs : GameState) (clk : Clock) : GameState * Clock :=
  match getPlayerByTeam gs (team to) with
  | Some t =>
      let gs :=
        if is_deck_or_hand (zone to) then
          update_player t (fun toPlayer =>
            set_p_cards (putCards (p_cards toPlayer) entityId (Some cardDbfId)
                           (Some cardName) (Some (negb (mulliganActive gs)))
                           (Some (zone_state (zone to)))) toPlayer) gs
        else gs in
      let gs :=
        if decide (zone to = Zone_Deck) then
          update_player t (fun toPlayer =>
            set_p_cardCount (p_cardCount toPlayer + 1) toPlayer) gs
        else gs in
      if decide (zone to = Zone_Secret) then
        let '(gs, clk) :=
          match questMap data cardId with
          | Some quest =>
              let '(now, clk) := Date_now clk in
              (update_player t (fun toPlayer =>
                 set_p_quests
                   (p_quests toPlayer ++
                      [mkQuest entityId cardName (qd_class quest) (Int 0)
                         (qd_requirement quest) (qd_sidequest quest) now]) toPlayer) gs,
               clk)
          | None => (gs, clk)
          end in
        match secretToClass data cardId with
        | Some secretClass =>
            let '(now, clk) := Date_now clk in
            (update_player t (fun toPlayer =>
               set_p_secrets
                 (p_secrets toPlayer ++
                    [mkSecret entityId cardId secretClass cardName now]) toPlayer) gs,
             clk)
        | None => (gs, clk)
        end
      else (gs, clk)
  | None => (gs, clk)
  end.

(** The positions derived during the mulligan. *)
Definition assign_positions (player opponentPlayer : nat) (to : TeamZone) (gs : GameState)
    : GameState :=
  if mulliganActive gs && is_deck_or_hand (zone to) then
    let gs :=
      if decide (team to = Some Team_Friendly) then
        update_player opponentPlayer (set_p_position top)
          (update_player player (set_p_position bottom) gs)
      else gs in
    if decide (team to = Some Team_Opposing) then
      update_player opponentPlayer (set_p_position bottom)
        (update_player player (set_p_position top) gs)
    else gs
  else gs.

Definition zoneChange (cardId cardName : string) (playerId entityId : number)
    (from to : TeamZone) (gs : GameState) (clk : Clock) : bool * GameState * Clock :=
  match cardData data cardId with
  | None => (false, gs, clk)
  | Some cardRawData =>
      let cardDbfId := dbfId cardRawData in
      match getPlayerById gs playerId with
      | None => (false, gs, clk)
      | Some player =>
          match players gs !! player ≫= getOpponentPlayer gs with
          | None => (false, gs, clk)
          | Some opponentPlayer =>
              let gs := assign_positions player opponentPlayer to gs in
              let gs := leave_zone cardId cardName cardDbfId entityId from gs in
              let '(gs, clk) := enter_zone cardId cardName cardDbfId entityId to gs clk in
              (true, gs, clk)
          end
      end
  end.

Definition zone_change : Handler := fun groups gs clk =>
  zoneChange (grp groups "cardId") (grp groups "entityName")
    (parseInt (grp groups "playerId") None) (parseInt (grp groups "entityId") None)
    (mkTeamZone (as_Team (groups !! "fromTeam")) (as_Zone (groups !! "fromZone")))
    (mkTeamZone (as_Team (groups !! "toTeam")) (as_Zone (groups !! "toZone")))
    gs clk.

Definition set_q_progress (v : number) (q : Quest) : Quest :=
  mkQuest (q_entityId q) (q_cardName q) (q_class q) v (q_requirement q)
    (q_sidequest q) (q_timestamp q).

Definition tagChange (tag value : string) (playerId entityId : number) (gs : GameState)
    : bool * GameState :=
  if String.eqb tag "QUEST_PROGRESS" then
    match getPlayerById gs playerId with
    | Some i =>
        match players gs !! i with
        | Some player =>
            match find_idx (fun q => strict_eq (q_entityId q) entityId) (p_quests player) with
            | Some k =>
                (true,
                 update_player i (fun player =>
                   set_p_quests
                     (alter (set_q_progress (parseInt value None)) k (p_quests player))
                     player) gs)
            | None => (false, gs)
            end
        | None => (false, gs)
        end
    | None => (false, gs)
    end
  else (false, gs).

Definition tag_change : Handler := fun groups gs clk =>
  let '(r, gs) :=
    tagChange (grp groups "tag") (grp groups "value")
      (parseInt (grp groups "playerId") None) (parseInt (grp groups "entityId") None) gs in
  (r, gs, clk).

Definition gameTagChange (entity tag value : string) (gs : GameState) (clk : Clock)
    : bool * GameState * Clock :=
  let '(gs, clk) :=
    if String.eqb entity "GameEntity" then
      let gs :=
        if String.eqb tag "NEXT_STEP" && String.eqb value "MAIN_READY"
        then set_mulliganActive true gs else gs in
      if String.eqb tag "STEP" && String.eqb value "MAIN_READY" then
        let '(d, clk) := new_Date clk in
        let gs := set_turnStartTime (Some d) gs in
        if forallb (fun player => negb (p_turn player)) (players gs) then
          match getPlayerByPosition gs bottom with
          | Some b => (update_player b (set_p_turn true) gs, clk)
          | None => (gs, clk)
          end
        else (gs, clk)
      else (gs, clk)
    else (gs, clk) in
  let gs :=
    if String.eqb tag "TIMEOUT" then
      match getPlayerByName gs entity with
      | Some i => update_player i (set_p_timeout (parseInt value None)) gs
      | None => gs
      end
    else gs in
  let gs :=
    if String.eqb tag "MULLIGAN_STATE" && String.eqb value "INPUT"
    then set_mulliganActive true gs else gs in
  let gs :=
    if String.eqb tag "RESOURCES" then
      match getPlayerByName gs entity with
      | Some i => update_player i (set_p_availableMana (parseInt value (Some 10))) gs
      | None => gs
      end
    else gs in
  (true, gs, clk).

Definition game_tag_change : Handler := fun groups gs clk =>
  gameTagChange (grp groups "entity") (grp groups "tag") (grp groups "value") gs clk.

Definition past_begin_phase : Handler := fun _ gs clk =>
  (true, set_beginPhaseActive false gs, clk).

End Handlers.

(** The block state of card-init. *)
Record CardInitState : Type := mkCardInitState {
  ci_entityId : string;
  ci_cardId : string;
}.

Definition card_init_initializeBlockState (groups : Groups) (gs : GameState)
    : option CardInitState :=
  if negb (active gs) || negb (beginPhaseActive gs) then None
  else Some (mkCardInitState (grp groups "entityId") (grp groups "cardId")).

(** ** src/line-parsers-v2/factory.ts *)

Definition label_Power_GameState_DebugPrintPower : regex :=
  Lit "[Power] GameState.DebugPrintPower()".
Definition label_Power_GameState_DebugPrintEntitiesChosen : regex :=
  Lit "[Power] GameState.DebugPrintEntitiesChosen()".
Definition label_Power_PowerTaskList_DebugPrintPower : regex :=
  Lit "[Power] PowerTaskList.DebugPrintPower()".
Definition label_Zone_ZoneChangeList_ProcessChanges : regex :=
  Lit "[Zone] ZoneChangeList.ProcessChanges()".
(** The dot between MulliganManager and HandleGameStart is not escaped. *)
Definition label_LoadingScreen_MulliganManager_HandleGameStart : regex :=
  Seq (Lit "[LoadingScreen] MulliganManager") (Seq Dot (Lit "HandleGameStart()")).

(** [new RegExp(`${label} -(?<indent>\\s+)${content}`)].  A RegExp put in
    a template literal is converted with [RegExp.prototype.toString],
    which gives the source between two slashes; the pattern built is
    therefore [/label/ -(?<indent>\s+)/content/], slashes included, and in
    a pattern given as a string a slash stands for itself. *)
Definition makeFullRegex (label content : regex) : regex :=
  Seq (Lit "/") (Seq label (Seq (Lit "/ -")
    (Seq (Group "indent" (Plus Space)) (Seq (Lit "/") (Seq content (Lit "/")))))).

Definition lineParserFactory (label regex_ : regex) (matchesHandler : Handler)
    (line : string) (gameState : GameState) (clk : Clock) : bool * GameState * Clock :=
  match exec (makeFullRegex label regex_) line with
  | None => (false, gameState, clk)
  | Some groups => matchesHandler groups gameState clk
  end.

(** The variables [blockState] and [indent] that the closure returned by
    [blockParserFactory] keeps between its calls. *)
Record BlockClosure (S : Type) : Type := mkBlockClosure {
  blockState : option S;
  indent : Z;
}.
Arguments mkBlockClosure {S} _ _.
Arguments blockState {S} _.
Arguments indent {S} _.

Section BlockParser.

Context {S : Type}.
Variable label startRegex : regex.
(** [initializeBlockState(groups, gameState, logger)]. *)
Variable initializeBlockState : Groups -> GameState -> option S.
(** [blockLineParser(line, gameState, blockState, logger)]: returns
    nothing and may mutate the game state and the block state. *)
Variable blockLineParser : string -> GameState -> S -> Clock -> GameState * S * Clock.

Definition blockParserFactory (line : string) (gameState : GameState) (clk : Clock)
    (self : BlockClosure S) : bool * GameState * Clock * BlockClosure S :=
  match exec (makeFullRegex label startRegex) line with
  | Some groups =>
      let indent := Z.of_nat (String.length (grp groups "indent")) in
      let blockState :=
        match initializeBlockState groups gameState with
        | Some initialState => Some initialState
        | None => blockState self
        end in
      (false, gameState, clk, mkBlockClosure blockState indent)
  | None =>
      match blockState self with
      | None => (false, gameState, clk, self)
      | Some bs =>
          match exec (makeFullRegex label (Star Dot)) line with
          | Some groups =>
              if strict_eq (parseInt (grp groups "indent") None) (Int (indent self)) then
                let '(gameState, bs, clk) := blockLineParser line gameState bs clk in
                (false, gameState, clk, mkBlockClosure (Some bs) (indent self))
              else (false, gameState, clk, self)
          | None => (false, gameState, clk, self)
          end
      end
  end.

End BlockParser.

(** ** src/line-parsers-v2/index.ts: the patterns and the parser list *)

Fixpoint seqs (l : list regex) : regex :=
  match l with
  | [] => Lit ""
  | [r] => r
  | r :: l' => Seq r (seqs l')
  end.

Definition regex_game_start : regex := Lit "CREATE_GAME".

Definition regex_player_joined : regex :=
  seqs [Lit "PlayerID="; Group "id" (Plus Digit); Lit ", PlayerName=";
        Group "name" (Plus Dot); Eol].

Definition regex_mulligan_start : regex := Lit "tag=MULLIGAN_STATE value=INPUT".

Definition regex_mulligan_result : regex :=
  seqs [Lit "id="; Plus Digit; Lit " Player="; Group "name" (Plus Dot);
        Lit " EntitiesCount="; Group "cardsLeft" (Plus Digit)].

Definition regex_turn_change : regex :=
  seqs [Lit "TAG_CHANGE Entity="; Group "playerName" (Star Dot);
        Lit " tag=CURRENT_PLAYER value="; Group "turn" (Plus Digit)].

Definition regex_game_over : regex :=
  seqs [Lit "TAG_CHANGE Entity="; Group "playerName" (Plus Dot);
        Lit " tag=PLAYSTATE value=";
        Group "status" (Alt (Lit "LOST") (Alt (Lit "WON") (Lit "TIED")))].

Definition regex_team : regex := Alt (Lit "FRIENDLY") (Lit "OPPOSING").

Definition regex_zone_change : regex :=
  seqs [Lit "id="; Star Digit; Lit " local="; Star Dot; Lit " [entityName=";
        Group "entityName" (Star Dot); Lit " id="; Group "entityId" (Star Digit);
        Lit " zone="; Star Dot; Lit " zonePos="; Star Digit; Lit " cardId=";
        Group "cardId" (Star Dot); Lit " player="; Group "playerId" Digit;
        Lit "] zone from"; Opt (Lit " "); Opt (Group "fromTeam" regex_team);
        Opt (Lit " "); Opt (Group "fromZone" (Star Dot)); Lit " ->";
        Opt (Lit " "); Opt (Group "toTeam" regex_team);
        Opt (Lit " "); Opt (Group "toZone" (Star Dot))].

Definition regex_tag_change : regex :=
  seqs [Lit "TAG_CHANGE Entity=[entityName="; Group "cardName" (Star Dot);
        Lit " id="; Group "entityId" (Star Digit); Lit " zone="; Star Dot;
        Lit " zonePos="; Star Digit; Lit " cardId="; Group "cardId" (Star Dot);
        Lit " player="; Group "playerId" Digit; Lit "] tag="; Group "tag" (Star Dot);
        Lit " value="; Group "value" (Star Digit)].

Definition regex_game_tag_change : regex :=
  seqs [Lit "TAG_CHANGE Entity="; Group "entity" (Star Dot); Lit " tag=";
        Group "tag" (Star Dot); Lit " value="; Group "value" (Star Dot)].

Definition regex_past_begin_phase : regex := Lit "IsPastBeginPhase()=False".

Definition regex_card_init_start : regex :=
  seqs [Lit "FULL_ENTITY - Creating ID="; Group "entityId" (Plus Digit);
        Lit " CardID="; Group "cardId" (Plus Dot)].

(** What the parsers act on: the game state, the clock, and the closure
    variables of the one block parser. *)
Record World : Type := mkWorld {
  w_gameState : GameState;
  w_clock : Clock;
  w_cardInit : BlockClosure CardInitState;
}.

(** [LineParser]: [(line, gameState) => boolean]. *)
Definition LineParser : Type := string -> World -> bool * World.

Definition line_parser (p : string -> GameState -> Clock -> bool * GameState * Clock)
    : LineParser := fun line w =>
  let '(r, gs, clk) := p line (w_gameState w) (w_clock w) in
  (r, mkWorld gs clk (w_cardInit w)).

(** The handler listed under [blockLineParsers] of card-init only prints
    its arguments.  (The options object has no [blockLineParser]; the
    call in the factory is never reached, see [blockParser_never_forwards].) *)
Definition card_init_blockLineParser (line : string) (gs : GameState)
    (bs : CardInitState) (clk : Clock) : GameState * CardInitState * Clock :=
  (gs, bs, clk).

Definition card_init : LineParser := fun line w =>
  let '(r, gs, clk, self) :=
    blockParserFactory label_Power_GameState_DebugPrintPower regex_card_init_start
      card_init_initializeBlockState card_init_blockLineParser
      line (w_gameState w) (w_clock w) (w_cardInit w) in
  (r, mkWorld gs clk self).

Definition lineParsers (data : StaticData) : list LineParser :=
  [ line_parser (lineParserFactory label_Power_GameState_DebugPrintPower
                   regex_game_start game_start);
    line_parser (lineParserFactory label_Power_GameState_DebugPrintPower
                   regex_player_joined player_joined);
    line_parser (lineParserFactory label_Power_GameState_DebugPrintPower
                   regex_mulligan_start mulligan_start);
    line_parser (lineParserFactory label_Power_GameState_DebugPrintEntitiesChosen
                   regex_mulligan_result (mulligan_result data));
    line_parser (lineParserFactory label_Power_GameState_DebugPrintPower
                   regex_turn_change turn_change);
    line_parser (lineParserFactory label_Power_PowerTaskList_DebugPrintPower
                   regex_game_over game_over);
    line_parser (lineParserFactory label_Zone_ZoneChangeList_ProcessChanges
                   regex_zone_change (zone_change data));
    line_parser (lineParserFactory label_Power_PowerTaskList_DebugPrintPower
                   regex_tag_change tag_change);
    line_parser (lineParserFactory label_Power_PowerTaskList_DebugPrintPower
                   regex_game_tag_change game_tag_change);
    line_parser (lineParserFactory label_LoadingScreen_MulliganManager_HandleGameStart
                   regex_past_begin_phase past_begin_phase);
    card_init ].

(** ** src/utils/read-log-file.ts

    The file is the string of its bytes; decoding the buffer
    ([buffer.toString()], UTF-8) is the identity on them.  That is exact
    for a file in ASCII ([all_ascii]): a byte of 128 or more would be
    decoded with its neighbours into another code unit. *)

Fixpoint all_ascii (s : string) : bool :=
  match s with
  | EmptyString => true
  | String c s' => Nat.ltb (nat_of_ascii c) 128 && all_ascii s'
  end.

Definition char_LF : ascii := ascii_of_nat 10.
Definition char_CR : ascii := ascii_of_nat 13.
Definition char_NUL : ascii := ascii_of_nat 0.

(** [splitLines(text)] of the split-lines package: [text.split(/\r?\n/)]. *)
Fixpoint splitLines (text : string) : list string :=
  match text with
  | EmptyString => [""]
  | String c rest =>
      match splitLines rest with
      | l :: ls =>
          if Ascii.eqb c char_LF then "" :: l :: ls
          else if Ascii.eqb c char_CR &&
                  match rest with String d _ => Ascii.eqb d char_LF | _ => false end
          then l :: ls
          else String c l :: ls
      | [] => [String c ""]
      end
  end.

Fixpoint drop_string (n : nat) (s : string) : string :=
  match n, s with
  | S n', String _ s' => drop_string n' s'
  | _, _ => s
  end.

Fixpoint zeros (n : nat) : string :=
  match n with
  | O => ""
  | S n' => String char_NUL (zeros n')
  end.

(** [Buffer.alloc(size)]: [size] zero bytes. *)
Definition Buffer_alloc (size : Z) : string := zeros (Z.to_nat size).

(** [fs.promises.read(file, buffer, 0, length, position)]: the bytes of
    the file from [position] on, at most [length] of them, written over
    the head of the buffer. *)
Definition fs_read (file buffer : string) (length position : Z) : string :=
  let bytes := take_string (Z.to_nat length) (drop_string (Z.to_nat position) file) in
  bytes ++ drop_string (String.length bytes) buffer.

Definition readLogFile (file : string) (startByte endByte : Z) : list string :=
  let readSize := endByte - startByte in
  let readSize := if Z.ltb readSize 0 then endByte else readSize in
  let buffer := Buffer_alloc readSize in
  let buffer := fs_read file buffer readSize startByte in
  splitLines buffer.

(** ** src/log-watcher.ts *)

Record Options : Type := mkOptions {
  logFile : string;
  configFile : string;
  logDirectory : option string;
  linesPerUpdate : option Z;
  updateEveryTurn : option bool;
}.

(** An emitted event: its name and the game state handed to the
    listeners. *)
Definition Event : Type := (string * GameState)%type.

Record LogWatcher : Type := mkLogWatcher {
  world : World;
  options : Options;
  lastFileSize : Z;
  emitted : list Event;
}.

(** [for (const lineParser of lineParsers) lineParser(line, gameState)]:
    the value each parser returns is dropped. *)
Fixpoint run_parsers (parsers : list LineParser) (line : string) (w : World) : World :=
  match parsers with
  | [] => w
  | lineParser :: rest =>
      let '(_, w) := lineParser line w in
      run_parsers rest line w
  end.

(** [a !== b] on two possibly undefined [Date] objects. *)
Definition date_differs (a b : option Date) : bool :=
  negb (bool_decide (date_ref <$> a = date_ref <$> b)).

(** The local variables of [parseLines] while it loops. *)
Record ParseLoop : Type := mkParseLoop {
  updated : bool;
  lastTurnTime : option Date;
  loop_world : World;
  loop_emitted : list Event;
}.

(** One turn of the loop over the lines.  [outputNewLines] copies the
    line to the output log and touches neither the game state nor the
    events; it is left out. *)
Definition parseLines_step (parsers : list LineParser) (opts : Options)
    (st : ParseLoop) (line : string) : ParseLoop :=
  let w := run_parsers parsers line (loop_world st) in
  if updated st && default false (updateEveryTurn opts)
     && date_differs (turnStartTime (w_gameState w)) (lastTurnTime st)
  then mkParseLoop false (turnStartTime (w_gameState w)) w
         (loop_emitted st ++ [("gamestate-changed", w_gameState w)])
  else mkParseLoop (updated st) (lastTurnTime st) w (loop_emitted st).

Definition parseLines (parsers : list LineParser) (lines : list string)
    (lw : LogWatcher) : LogWatcher :=
  let st0 := mkParseLoop false (turnStartTime (w_gameState (world lw)))
               (world lw) (emitted lw) in
  let st := foldl (parseLines_step parsers (options lw)) st0 lines in
  let emitted :=
    if updated st
    then (loop_emitted st ++ [("gamestate-changed", w_gameState (loop_world st))])%list
    else loop_emitted st in
  mkLogWatcher (loop_world st) (options lw) (lastFileSize lw) emitted.

(** [_.chunk(lines, size)] for a size of at least one. *)
Fixpoint chunk_fuel (fuel : nat) (size : nat) (lines : list string) : list (list string) :=
  match fuel, lines with
  | _, [] => []
  | O, _ => []
  | S fuel', _ => take size lines :: chunk_fuel fuel' size (drop size lines)
  end.

Definition chunk (lines : list string) (size : Z) : list (list string) :=
  if Z.ltb size 1 then [] else chunk_fuel (length lines) (Z.to_nat size) lines.

(** [update(filePath, stats)], one run of the throttled function on a
    file of the given bytes; [size] is [stats.size]. *)
Definition update (parsers : list LineParser) (file : string) (size : Z)
    (lw : LogWatcher) : LogWatcher :=
  let lines := readLogFile file (lastFileSize lw) size in
  let lw := mkLogWatcher (world lw) (options lw) size (emitted lw) in
  if truthy_oint (linesPerUpdate (options lw)) then
    foldl (fun lw chunk => parseLines parsers chunk lw) lw
      (chunk lines (default 0 (linesPerUpdate (options lw))))
  else parseLines parsers lines lw.

(** Whether some parser returns [true] for some line of the batch, each
    parser being run on the world that its predecessors left. *)
Fixpoint parsers_report (parsers : list LineParser) (line : string) (w : World) : bool :=
  match parsers with
  | [] => false
  | lineParser :: rest =>
      let '(r, w') := lineParser line w in
      r || parsers_report rest line w'
  end.

Fixpoint batch_reports (parsers : list LineParser) (lines : list string) (w : World) : bool :=
  match lines with
  | [] => false
  | line :: rest =>
      parsers_report parsers line w || batch_reports parsers rest (run_parsers parsers line w)
  end.

(** ** Data for the worked examples *)

(** A clock whose [n]-th reading is [1000 + 10 n]. *)
Definition clock0 : Clock := mkClock (fun n => 1000 + 10 * Z.of_nat n) 0.

(** Tables with one spell, one quest and one secret, and a deck of 30. *)
Definition example_data : StaticData :=
  {| cardData := fun id =>
       if String.eqb id "CS2_029" then Some (mkCardType 315 "CS2_029" "Fireball")
       else if String.eqb id "UNG_940" then Some (mkCardType 41494 "UNG_940" "Awaken the Makers")
       else if String.eqb id "EX1_287" then Some (mkCardType 113 "EX1_287" "Counterspell")
       else None;
     questMap := fun id =>
       if String.eqb id "UNG_940" then Some (mkQuestData "PRIEST" 7 false) else None;
     secretToClass := fun id =>
       if String.eqb id "EX1_287" then Some "MAGE" else None;
     DECK_CARD_COUNT := 30 |}.

(** Two registered players: Alice (id 1) at the bottom, Bob (id 2) at the
    top. *)
Definition alice : Player := newPlayer (Int 1) "Alice".
Definition bob : Player := set_p_position top (newPlayer (Int 2) "Bob").

Definition two_players : GameState :=
  set_players [alice; bob] (set_startTime (Some 1000) new_GameState).

Definition mulligan_groups : Groups :=
  {[ "name" := "Alice"; "cardsLeft" := "27" ]}.

(** A log of two lines and a later, shorter one. *)
Definition shrunk_file : string :=
  "ab" ++ String char_LF ("cd" ++ String char_LF "").

(** The game-start line, bare and as the pattern built by [makeFullRegex]
    wants it. *)
Definition create_game_line : string :=
  "[Power] GameState.DebugPrintPower() -     CREATE_GAME".
Definition create_game_line_slashed : string :=
  "/[Power] GameState.DebugPrintPower()/ -     /CREATE_GAME/".

Definition world0 : World :=
  mkWorld new_GameState clock0 (mkBlockClosure None 0).

Definition watcher0 : LogWatcher :=
  mkLogWatcher world0 (mkOptions "output_log.txt" "log.config" None None None) 0 [].

(** A string of whitespace only. *)
Fixpoint all_space (s : string) : bool :=
  match s with
  | EmptyString => true
  | String c s' => is_space c && all_space s'
  end.

(** A pattern without named groups. *)
Fixpoint group_free (r : regex) : bool :=
  match r with
  | Lit _ | Dot | Digit | Space | Eol => true
  | Seq r1 r2 | Alt r1 r2 => group_free r1 && group_free r2
  | Star r' | Plus r' | Opt r' => group_free r'
  | Group _ _ => false
  end.

(** A block-line handler that records the lines forwarded to it in the
    block state, and an [initializeBlockState] that always opens a
    block. *)
Definition recording_blockLineParser (line : string) (gs : GameState)
    (bs : list string) (clk : Clock) : GameState * list string * Clock :=
  (gs, (bs ++ [line])%list, clk).

Definition always_initialize (groups : Groups) (gs : GameState) : option (list string) :=
  Some [].

Definition block_start_line : string :=
  "/[Power] GameState.DebugPrintPower()/ -    /FULL_ENTITY - Creating ID=12 CardID=CS2_029/".
Definition block_inner_line : string :=
  "/[Power] GameState.DebugPrintPower()/ -    /tag=HEALTH value=30/".

(** Game-over and turn-change facts applied in a row; a fact is the pair
    of strings the pattern captures. *)
Definition apply_gameOver (st : GameState * Clock) (fact : string * string)
    : GameState * Clock :=
  let '(_, gs, clk) := gameOver (fst fact) (snd fact) (fst st) (snd st) in (gs, clk).

Definition run_gameOver (facts : list (string * string)) (st : GameState * Clock)
    : GameState * Clock :=
  foldl apply_gameOver st facts.

(** A match in progress: started at 1000, Alice and Bob registered,
    Alice's first turn opened at 1010. *)
Definition playing : GameState * Clock :=
  let '(gs, clk) := start new_GameState clock0 in
  let gs := set_players [alice; bob] gs in
  let '(_, gs, clk) := turnChange "Alice" "1" gs clk in
  (gs, clk).

Definition three_game_overs : list (string * string) :=
  [("Alice", "WON"); ("Bob", "LOST"); ("Alice", "WON")].

(** ** Resolving entities: the notions the properties use *)

(** A snapshot that still refers to entity [id] by an empty or sentinel
    name. *)
Definition pending (id : number) (props : EntityProps) : bool :=
  isEmpty (Some (ep_cardName props)) && strict_eq (ep_entityId props) id.

(** [new] is [old] with the triple of [m] written over it. *)
Definition resolved_from (m : CardEntity) (old new : EntityProps) : Prop :=
  ep_entityId new = ce_entityId m /\
  ep_cardName new = ce_cardName m /\
  ep_cardId new = ce_cardId m /\
  ep_player new = ep_player old /\
  ep_damage new = ep_damage old /\
  ep_healing new = ep_healing old /\
  ep_dead new = ep_dead old /\
  ep_tags new = ep_tags old.

Definition snapshot_patched (id : number) (m : CardEntity) (old new : EntityProps) : Prop :=
  (if pending id old then resolved_from m old new else new = old) /\
  pending id new = false.

(** Every id that the log refers to by an empty name has been flagged;
    [addMatchLogEntry] sees to it. *)
Definition log_tracked (s : GameState) : Prop :=
  forall entry, entry ∈ matchLog s -> missing_of_entry entry ⊆ missingEntityIds s.

(** What [resolveEntity] does to a card of the resolved entity: the tags
    derived from the merged entity when it has some, the card as it was
    when it has none. *)
Definition card_refreshed (id : number) (m : CardEntity) (old new : Card) : Prop :=
  if strict_eq (c_entityId old) id then
    match identifySpecialTags (Some m) with
    | Some tags => new = set_c_tags tags old
    | None => new = old
    end
  else new = old.

Definition same_player_but_cards (p p' : Player) : Prop :=
  p' = set_p_cards (p_cards p') p.

(** Entity 5 known as Fireball, then a fact for it with an empty name. *)
Definition fireball_known : GameState :=
  resolveEntity (mkPartialCardEntity (Int 5) (Some 315) (Some "Fireball") None None)
    new_GameState.

Definition fireball_unnamed : GameState :=
  resolveEntity (mkPartialCardEntity (Int 5) None (Some "") None None) fireball_known.

Definition fireball_sentinel : GameState :=
  resolveEntity (mkPartialCardEntity (Int 5) None (Some UNKNOWN_CARDNAME) None None)
    fireball_known.

(** Alice holds a card of entity 7 that can be corrupted; a later fact
    names the entity and carries CORRUPT=0. *)
Definition corruptible_in_hand : GameState :=
  resolveEntity
    (mkPartialCardEntity (Int 7) None None None (Some {[ "CORRUPT" := "1" ]}))
    (update_player O
       (set_p_cards (putCards [] (Int 7) None None (Some false) (Some HAND)))
       two_players).

Definition corruptible_named : PartialCardEntity :=
  mkPartialCardEntity (Int 7) (Some 61159) (Some "Fleethoof Pearltusk") None
    (Some {[ "CORRUPT" := "0" ]}).

(** A log entry whose source and one target are entity 7 under the
    sentinel name, added to the state above through [addMatchLogEntry]. *)
Definition unnamed_props (id : Z) : EntityProps :=
  mkEntityProps (Int id) None UNKNOWN_CARDNAME bottom None None None None.

Definition corruptible_logged : GameState :=
  addMatchLogEntry
    [mkMatchLogEntry play 3 (unnamed_props 7) [unnamed_props 8; unnamed_props 7]]
    corruptible_in_hand.

(** ** Facts

    What a recognised line hands to its handler, once the captures are
    read. *)
Inductive Fact : Type :=
  | ZoneChangeFact (cardId cardName : string) (playerId entityId : number)
      (from to : TeamZone)
  | TurnChangeFact (playerName turn : string)
  | MulliganResultFact (name : string) (cardsLeft : number)
  | TagChangeFact (tag value : string) (playerId entityId : number)
  | GameOverFact (playerName status : string).

Definition apply_fact (data : StaticData) (fact : Fact) (gs : GameState) (clk : Clock)
    : bool * GameState * Clock :=
  match fact with
  | ZoneChangeFact cardId cardName playerId entityId from to =>
      zoneChange data cardId cardName playerId entityId from to gs clk
  | TurnChangeFact playerName turn => turnChange playerName turn gs clk
  | MulliganResultFact name cardsLeft =>
      let '(r, gs) := mulliganResult data name cardsLeft gs in (r, gs, clk)
  | TagChangeFact tag value playerId entityId =>
      let '(r, gs) := tagChange tag value playerId entityId gs in (r, gs, clk)
  | GameOverFact playerName status => gameOver playerName status gs clk
  end.

(** The soft data-misses: the card id is not in the table, or the player
    (or, for zone-change, the opponent; for a quest progress, the quest)
    that the fact refers to is not registered. *)
Definition data_miss (data : StaticData) (gs : GameState) (fact : Fact) : Prop :=
  match fact with
  | ZoneChangeFact cardId _ playerId _ _ _ =>
      cardData data cardId = None \/
      getPlayerById gs playerId = None \/
      (getPlayerById gs playerId ≫= fun i => players gs !! i ≫= getOpponentPlayer gs) = None
  | TurnChangeFact playerName _ => getPlayerByName gs playerName = None
  | MulliganResultFact name _ => getPlayerByName gs name = None
  | TagChangeFact tag _ playerId entityId =>
      tag = "QUEST_PROGRESS" /\
      (getPlayerById gs playerId ≫= fun i => players gs !! i ≫= fun player =>
         find_idx (fun q => strict_eq (q_entityId q) entityId) (p_quests player)) = None
  | GameOverFact playerName _ => getPlayerByName gs playerName = None
  end.

Definition is_game_over (fact : Fact) : bool :=
  match fact with GameOverFact _ _ => true | _ => false end.

(** ** Zone changes in a row *)

Record ZoneChange : Type := mkZoneChange {
  zc_cardId : string;
  zc_cardName : string;
  zc_playerId : number;
  zc_entityId : number;
  zc_from : TeamZone;
  zc_to : TeamZone;
}.

Definition apply_zoneChange (data : StaticData) (st : GameState * Clock) (zc : ZoneChange)
    : GameState * Clock :=
  let '(_, gs, clk) :=
    zoneChange data (zc_cardId zc) (zc_cardName zc) (zc_playerId zc) (zc_entityId zc)
      (zc_from zc) (zc_to zc) (fst st) (snd st) in
  (gs, clk).

Definition run_zoneChanges (data : StaticData) (facts : list ZoneChange)
    (st : GameState * Clock) : GameState * Clock :=
  foldl (apply_zoneChange data) st facts.










(** ** Further notions, for the properties of the rest of the code *)

(** [lines.join("\n")]. *)
Fixpoint join_lines (lines : list string) : string :=
  match lines with
  | [] => ""
  | [l] => l
  | l :: rest => l ++ String char_LF (join_lines rest)
  end.

(** Whether the character occurs in the string. *)
Fixpoint has_char (c : ascii) (s : string) : bool :=
  match s with
  | EmptyString => false
  | String d s' => Ascii.eqb d c || has_char c s'
  end.

(** The bytes of the file from offset [startByte] up to [endByte]. *)
Definition window (file : string) (startByte endByte : Z) : string :=
  take_string (Z.to_nat (endByte - startByte)) (drop_string (Z.to_nat startByte) file).

(** The watcher with another [linesPerUpdate] option. *)
Definition with_linesPerUpdate (v : option Z) (lw : LogWatcher) : LogWatcher :=
  mkLogWatcher (world lw)
    (mkOptions (logFile (options lw)) (configFile (options lw))
       (logDirectory (options lw)) v (updateEveryTurn (options lw)))
    (lastFileSize lw) (emitted lw).

Definition char_slash : ascii := "/"%char.

(** The handlers of the parser list, in its order. *)
Definition all_handlers (data : StaticData) : list Handler :=
  [ game_start; player_joined; mulligan_start; mulligan_result data; turn_change;
    game_over; zone_change data; tag_change; game_tag_change; past_begin_phase ].

(** Player-joined facts applied in a row; a fact is the parsed id and
    the name. *)
Definition run_playerJoined (facts : list (number * string)) (gs : GameState) : GameState :=
  foldl (fun gs fact => snd (playerJoined (fst fact) (snd fact) gs)) gs facts.

(** No two registered players have the same id. *)
Definition players_distinct (gs : GameState) : Prop :=
  forall i j p q,
    players gs !! i = Some p -> players gs !! j = Some q ->
    strict_eq (p_id p) (p_id q) = true -> i = j.

Definition three_joins : list (number * string) :=
  [(Int 1, "Alice"); (Int 2, "Bob"); (Int 3, "Carol")].

(** What stays of a card for as long as it is in a collection: the
    entity it stands for, the flag given when it was pushed, and (as far
    as zone changes go) its tags. *)
Definition card_mark (c : Card) : number * bool * list EntityTags :=
  (c_entityId c, c_isSpawnedCard c, c_tags c).

(** What a zone change leaves of a player: everything but the position,
    the card count, the secrets, the quests, and the cards, which keep
    their places and marks and may be followed by new ones. *)
Definition zone_frame (p p' : Player) : Prop :=
  p_id p' = p_id p /\ p_name p' = p_name p /\ p_status p' = p_status p /\
  p_turn p' = p_turn p /\ p_turnHistory p' = p_turnHistory p /\
  p_timeout p' = p_timeout p /\ p_discovery p' = p_discovery p /\
  p_discoverHistory p' = p_discoverHistory p /\
  p_cardsReplacedInMulligan p' = p_cardsReplacedInMulligan p /\
  p_availableMana p' = p_availableMana p /\ p_manaSpent p' = p_manaSpent p /\
  (card_mark <$> p_cards p) `prefix_of` (card_mark <$> p_cards p').

Definition zone_framed (gs gs' : GameState) : Prop :=
  gs' = set_players (players gs') gs /\
  Forall2 zone_frame (players gs) (players gs').

(** A string of decimal digits. *)
Fixpoint all_digit (s : string) : bool :=
  match s with
  | EmptyString => true
  | String c s' => is_digit c && all_digit s'
  end.

(** A mulligan-result line in the form that the pattern built by
    [makeFullRegex] matches. *)
Definition mulligan_line_slashed : string :=
  "/[Power] GameState.DebugPrintEntitiesChosen()/ -     /id=2 Player=Alice EntitiesCount=3/".

(** ** src/match-log.ts: markDeaths *)

Definition set_ep_dead (v : option bool) (p : EntityProps) : EntityProps :=
  mkEntityProps (ep_entityId p) (ep_cardId p) (ep_cardName p) (ep_player p)
    (ep_damage p) (ep_healing p) v (ep_tags p).

(** What [markDeaths] does to the source and to each target. *)
Definition mark_dead (deaths : gset number) (p : EntityProps) : EntityProps :=
  if bool_decide (ep_entityId p ∈ deaths) then set_ep_dead (Some true) p else p.

(** One turn of the loop over the targets: the targets gone through so
    far and the set [marked]. *)
Definition markDeaths_target (deaths : gset number)
    (st : list EntityProps * gset number) (target : EntityProps)
    : list EntityProps * gset number :=
  if bool_decide (ep_entityId target ∈ deaths)
  then ((st.1 ++ [set_ep_dead (Some true) target])%list, st.2 ∪ {[ ep_entityId target ]})
  else ((st.1 ++ [target])%list, st.2).

(** [entry.markDeaths(deaths)]: the entry as the call leaves it, and the
    set returned.  [Set.prototype.has] compares with SameValueZero, under
    which NaN is equal to itself, as in a [gset number].  An object that
    is both the source and a target has one [entityId], so that it is
    marked in both places or in none. *)
Definition markDeaths (deaths : gset number) (entry : MatchLogEntry)
    : MatchLogEntry * gset number :=
  let '(source, marked) :=
    if bool_decide (ep_entityId (ml_source entry) ∈ deaths)
    then (set_ep_dead (Some true) (ml_source entry),
          ({[ ep_entityId (ml_source entry) ]} : gset number))
    else (ml_source entry, ∅) in
  let '(targets, marked) :=
    foldl (markDeaths_target deaths) ([], marked) (ml_targets entry) in
  (mkMatchLogEntry (ml_type entry) (ml_manaSpent entry) source targets, marked).

(** The entity ids that an entry refers to. *)
Definition entry_ids (entry : MatchLogEntry) : list number :=
  ep_entityId (ml_source entry) :: (ep_entityId <$> ml_targets entry).

(** ** src/log-watcher.ts: outputNewLines *)

(** A write stream of the output log.  The file name is made of the
    start time of the game, the names of the two players and the
    extension of the log file; the chunks are the strings written, in
    the order of the writes. *)
Record LogStream : Type := mkLogStream {
  ls_startTime : option Z;
  ls_p1name : string;
  ls_p2name : string;
  ls_chunks : list string;
}.

(** The fields [#logStream] and [#linesQueued] of the watcher, and the
    streams that were ended. *)
Record OutputLog : Type := mkOutputLog {
  logStream : option LogStream;
  linesQueued : list string;
  ended : list LogStream;
}.

Definition output0 : OutputLog := mkOutputLog None [] [].

(** [lines.join("")]. *)
Fixpoint join_empty (lines : list string) : string :=
  match lines with
  | [] => ""
  | l :: rest => l ++ join_empty rest
  end.

Definition player_name_or_unknown (o : option Player) : string :=
  match o with Some p => p_name p | None => "unknown" end.

Definition outputNewLines (opts : Options) (line : string) (gameState : GameState)
    (out : OutputLog) : OutputLog :=
  let activeOrComplete := active gameState || complete gameState in
  if negb (truthy_ostring (logDirectory opts)) || negb activeOrComplete then out
  else
    let out :=
      match logStream out with
      | None =>
          if active gameState && Nat.eqb (numPlayers gameState) 2 then
            let all := getAllPlayers gameState in
            let p1name := player_name_or_unknown (all !! 0%nat) in
            let p2name := player_name_or_unknown (all !! 1%nat) in
            mkOutputLog
              (Some (mkLogStream (startTime gameState) p1name p2name
                       [join_empty (linesQueued out)]))
              [] (ended out)
          else out
      | Some _ => out
      end in
    let out :=
      if active gameState || (complete gameState && bool_decide (is_Some (logStream out)))
      then
        match logStream out with
        | Some st =>
            mkOutputLog
              (Some (mkLogStream (ls_startTime st) (ls_p1name st) (ls_p2name st)
                       (ls_chunks st ++ [(line ++ String char_LF "")%string])%list))
              (linesQueued out) (ended out)
        | None =>
            mkOutputLog None (linesQueued out ++ [(line ++ String char_LF "")%string])%list (ended out)
        end
      else out in
    match logStream out with
    | Some st =>
        if complete gameState
        then mkOutputLog None (linesQueued out) (ended out ++ [st])%list
        else out
    | None => out
    end.

(** The calls of [outputNewLines] during a run: each line with the game
    state that the parsers left for it. *)
Definition run_output (opts : Options) (steps : list (string * GameState))
    (out : OutputLog) : OutputLog :=
  foldl (fun out step => outputNewLines opts step.1 step.2 out) out steps.

(** Everything handed to the output log so far, in the order of the
    calls: the chunks of the ended streams, those of the open one, and
    the queue. *)
Definition all_text (out : OutputLog) : string :=
  join_empty (mjoin (ls_chunks <$> ended out))
  ++ join_empty (from_option ls_chunks [] (logStream out))
  ++ join_empty (linesQueued out).

Definition logging_options : Options :=
  mkOptions "output_log.txt" "log.config" (Some "logs") None None.

(** A watcher whose card-init block is open. *)
Definition open_block_watcher : LogWatcher :=
  mkLogWatcher
    (mkWorld new_GameState clock0 (mkBlockClosure (Some (mkCardInitState "12" "CS2_029")) 4))
    (mkOptions "output_log.txt" "log.config" None None None) 0 [].

(** Whether [outputNewLines] hands the line to the output log. *)
Definition line_is_logged (opts : Options) (gameState : GameState) (out : OutputLog) : bool :=
  truthy_ostring (logDirectory opts)
  && (active gameState || (complete gameState && bool_decide (is_Some (logStream out)))).

Definition with_newline (line : string) : string := line ++ String char_LF "".

(** A game that has started, with one player and with two. *)
Definition one_player : GameState :=
  set_players [alice] (set_startTime (Some 1000) new_GameState).

(** A fact that names entity 8, a target of the entry logged in
    [corruptible_logged]. *)
Definition fireball_8 : PartialCardEntity :=
  mkPartialCardEntity (Int 8) (Some 315) (Some "Fireball") None None.

(** Bob plays Counterspell, entity 40, from his hand into his secret
    zone; the secret is then revealed and leaves the zone. *)
Definition secret_played : bool * GameState * Clock :=
  zoneChange example_data "EX1_287" "Counterspell" (Int 2) (Int 40)
    (mkTeamZone (Some Team_Opposing) Zone_Hand) (mkTeamZone (Some Team_Opposing) Zone_Secret)
    two_players clock0.

Definition secret_revealed : bool * GameState * Clock :=
  zoneChange example_data "EX1_287" "Counterspell" (Int 2) (Int 40)
    (mkTeamZone (Some Team_Opposing) Zone_Secret) (mkTeamZone (Some Team_Opposing) Zone_Other)
    secret_played.1.2 secret_played.2.

(** Alice draws Fireball, entity 23. *)
Definition fireball_drawn : bool * GameState * Clock :=
  zoneChange example_data "CS2_029" "Fireball" (Int 1) (Int 23)
    (mkTeamZone (Some Team_Friendly) Zone_Deck) (mkTeamZone (Some Team_Friendly) Zone_Hand)
    two_players clock0.

(** * Properties *)

(** ** The primitives on small inputs *)

Example parseInt_decimal : parseInt "27" (Some 10) = Int 27.
Proof. reflexivity. Qed.

Example parseInt_prefix : parseInt "  42abc" None = Int 42.
Proof. reflexivity. Qed.

Example parseInt_hex : parseInt "0x1F" None = Int 31.
Proof. reflexivity. Qed.

Example parseInt_blank : parseInt "    " None = NaN.
Proof. reflexivity. Qed.

Example NaN_is_not_itself : strict_eq NaN NaN = false.
Proof. reflexivity. Qed.

Example exec_game_start_slashed :
  exec (makeFullRegex label_Power_GameState_DebugPrintPower regex_game_start)
    create_game_line_slashed = Some {[ "indent" := "     " ]}.
Proof. vm_compute. reflexivity. Qed.

Example exec_game_start_bare :
  exec (makeFullRegex label_Power_GameState_DebugPrintPower regex_game_start)
    create_game_line = None.
Proof. vm_compute. reflexivity. Qed.

Example exec_zone_change :
  exec regex_zone_change
    "id=1 local=False [entityName=Fireball id=23 zone=HAND zonePos=0 cardId=CS2_029 player=1] zone from FRIENDLY DECK -> FRIENDLY HAND"
  = Some {[ "entityName" := "Fireball"; "entityId" := "23"; "cardId" := "CS2_029";
            "playerId" := "1"; "fromTeam" := "FRIENDLY"; "fromZone" := "DECK";
            "toTeam" := "FRIENDLY"; "toZone" := "HAND" ]}.
Proof. vm_compute. reflexivity. Qed.

Example splitLines_crlf :
  splitLines ("a" ++ String char_CR (String char_LF "b")) = ["a"; "b"].
Proof. vm_compute. reflexivity. Qed.

Example readLogFile_appended : readLogFile shrunk_file 3 6 = ["cd"; ""].
Proof. vm_compute. reflexivity. Qed.

(** ** Lists searched with [find] *)

Lemma find_idx_Some {A : Type} (f : A -> bool) (l : list A) (i : nat) :
  find_idx f l = Some i -> exists x, l !! i = Some x /\ f x = true.
Proof.
  revert i. induction l as [|x l IH]; intros i H; simpl in H; [discriminate|].
  destruct (f x) eqn:Hfx.
  - injection H as <-. exists x. auto.
  - destruct (find_idx f l) as [j|]; simpl in H; [|discriminate].
    injection H as <-. destruct (IH j eq_refl) as (y & Hy & Hfy).
    exists y. auto.
Qed.

Lemma find_idx_first {A : Type} (f : A -> bool) (l : list A) (i : nat) :
  find_idx f l = Some i ->
  forall j y, (j < i)%nat -> l !! j = Some y -> f y = false.
Proof.
  revert i. induction l as [|x l IH]; intros i H j y Hj Hy; simpl in H; [discriminate|].
  destruct (f x) eqn:Hfx.
  - injection H as <-. lia.
  - destruct (find_idx f l) as [k|] eqn:Hk; simpl in H; [|discriminate].
    injection H as <-. destruct j as [|j]; simpl in Hy.
    + injection Hy as <-. exact Hfx.
    + apply (IH k eq_refl j y); [lia|exact Hy].
Qed.

Lemma find_idx_None {A : Type} (f : A -> bool) (l : list A) :
  find_idx f l = None -> forall i x, l !! i = Some x -> f x = false.
Proof.
  induction l as [|y l IH]; intros H i x Hx; [destruct i; discriminate|].
  simpl in H. destruct (f y) eqn:Hfy; [discriminate|].
  destruct (find_idx f l) eqn:Hl; [discriminate|].
  destruct i as [|i]; simpl in Hx.
  - injection Hx as <-. exact Hfy.
  - eapply IH; eauto.
Qed.

Lemma find_idx_ext {A : Type} (f g : A -> bool) (l : list A) :
  (forall i x, l !! i = Some x -> f x = g x) -> find_idx f l = find_idx g l.
Proof.
  induction l as [|y l IH]; intros H; [reflexivity|].
  simpl. rewrite (H O y eq_refl). rewrite IH; [reflexivity|].
  intros i x Hx. apply (H (S i) x Hx).
Qed.

Lemma players_update_player (i : nat) (f : Player -> Player) (s : GameState) :
  players (update_player i f s) = alter f i (players s).
Proof. reflexivity. Qed.

Lemma lookup_update_player_eq (i : nat) (f : Player -> Player) (s : GameState) :
  players (update_player i f s) !! i = f <$> players s !! i.
Proof. apply list_lookup_alter_eq. Qed.

Lemma lookup_update_player_ne (i j : nat) (f : Player -> Player) (s : GameState) :
  i <> j -> players (update_player i f s) !! j = players s !! j.
Proof. intros H. unfold update_player; simpl. by apply list_lookup_alter_ne. Qed.

(** ** The mulligan count *)

(** C10: a mulligan-result fact applied while the mulligan is active to a
    registered player stores [DECK_CARD_COUNT - cardCount - cardsLeft] as
    that player's [cardsReplacedInMulligan], in exact integer arithmetic,
    negative results included, as long as the three numbers, the
    intermediate difference and the result are safe integers (below 2^53
    in magnitude, where the doubles of the program do not round); with a
    deck of 30, no card counted and 27 cards left the result is 3. *)
Theorem C10_mulligan_replaced_count (data : StaticData) (groups : Groups)
    (gs : GameState) (clk : Clock) (i : nat) (p : Player) (cardsLeft : Z) :
  mulliganActive gs = true ->
  getPlayerByName gs (grp groups "name") = Some i ->
  players gs !! i = Some p ->
  parseInt (grp groups "cardsLeft") (Some 10) = Int cardsLeft ->
  safe_integer (DECK_CARD_COUNT data) ->
  safe_integer (p_cardCount p) ->
  safe_integer cardsLeft ->
  safe_integer (DECK_CARD_COUNT data - p_cardCount p) ->
  safe_integer (DECK_CARD_COUNT data - p_cardCount p - cardsLeft) ->
  exists gs' p',
    mulligan_result data groups gs clk = (true, gs', clk) /\
    players gs' !! i = Some p' /\
    p_cardsReplacedInMulligan p' = Int (DECK_CARD_COUNT data - p_cardCount p - cardsLeft) /\
    (DECK_CARD_COUNT data = 30 -> p_cardCount p = 0 -> cardsLeft = 27 ->
     p_cardsReplacedInMulligan p' = Int 3).
Proof.
  intros Hm Hi Hp Hc _ _ _ _ _. unfold mulligan_result, mulliganResult.
  rewrite Hm, Hi, Hc. simpl.
  eexists _, _. split; [reflexivity|].
  rewrite lookup_update_player_eq, Hp. simpl.
  split; [reflexivity|]. split; [reflexivity|].
  intros -> -> ->. reflexivity.
Qed.

Lemma C10_mulligan_replaced_count_witness :
  exists gs' p',
    mulligan_result example_data mulligan_groups (set_mulliganActive true two_players) clock0
      = (true, gs', clock0) /\
    players gs' !! O = Some p' /\
    p_cardsReplacedInMulligan p' = Int (30 - 0 - 27) /\
    (DECK_CARD_COUNT example_data = 30 -> p_cardCount alice = 0 -> 27 = 27 ->
     p_cardsReplacedInMulligan p' = Int 3).
Proof.
  apply (C10_mulligan_replaced_count example_data mulligan_groups
           (set_mulliganActive true two_players) clock0 O alice 27);
    try (vm_compute; reflexivity); vm_compute; split; discriminate.
Defined.

(** With 3 cards counted and 28 left the count is negative. *)
Example mulligan_negative_count :
  let gs := update_player O (set_p_cardCount 3) (set_mulliganActive true two_players) in
  (p_cardsReplacedInMulligan <$>
     players (snd (mulliganResult example_data "Alice" (Int 28) gs)) !! O)
  = Some (Int (-1)).
Proof. vm_compute. reflexivity. Qed.

(** ** Reading the log file *)

Lemma take_string_short (n : nat) (s : string) :
  (String.length s <= n)%nat -> take_string n s = s.
Proof.
  revert n; induction s as [|c s IH]; intros [|n] H; simpl in *; try reflexivity; try lia.
  rewrite IH; [reflexivity|lia].
Qed.

Lemma drop_string_all (n : nat) (s : string) :
  (String.length s <= n)%nat -> drop_string n s = "".
Proof.
  revert n; induction s as [|c s IH]; intros [|n] H; simpl in *; try reflexivity; try lia.
  apply IH; lia.
Qed.

(** When the file is not longer than the last offset and the new size is
    below it, nothing is read and the lines are those of a buffer of
    [endByte] zero bytes. *)
Lemma readLogFile_after_shrink (file : string) (startByte endByte : Z) :
  0 <= endByte < startByte ->
  (String.length file <= Z.to_nat startByte)%nat ->
  readLogFile file startByte endByte = splitLines (zeros (Z.to_nat endByte)).
Proof.
  intros H Hlen. unfold readLogFile, fs_read, Buffer_alloc.
  assert (Z.ltb (endByte - startByte) 0 = true) as -> by (apply Z.ltb_lt; lia).
  rewrite (drop_string_all _ _ Hlen).
  destruct (Z.to_nat endByte); reflexivity.
Qed.

(** C7, on a file that shrank from 10 bytes to the 6 bytes
    ["ab\ncd\n"]: [readLogFile] sizes its buffer to the new length but
    still reads at the old offset, past the end of the file, and so
    returns one line of six zero bytes instead of the lines of the first
    six bytes of the file. *)
Theorem C7_shrunk_file_read_at_old_offset :
  readLogFile shrunk_file 10 6 = [zeros 6] /\
  splitLines (take_string 6 shrunk_file) = ["ab"; "cd"; ""] /\
  readLogFile shrunk_file 10 6 <> splitLines (take_string 6 shrunk_file).
Proof.
  split; [|split]; [vm_compute; reflexivity..|].
  vm_compute. discriminate.
Qed.

(** ** The change notification *)

Lemma parseLines_loop_keeps (parsers : list LineParser) (opts : Options)
    (lines : list string) (st : ParseLoop) :
  updated st = false ->
  updated (foldl (parseLines_step parsers opts) st lines) = false /\
  loop_emitted (foldl (parseLines_step parsers opts) st lines) = loop_emitted st.
Proof.
  revert st. induction lines as [|line lines IH]; intros st H; simpl; [auto|].
  assert (Hstep : updated (parseLines_step parsers opts st line) = false /\
                  loop_emitted (parseLines_step parsers opts st line) = loop_emitted st).
  { unfold parseLines_step. rewrite H. simpl. auto. }
  destruct Hstep as [Hu He]. destruct (IH _ Hu) as [IHu IHe].
  split; [exact IHu|]. rewrite IHe. exact He.
Qed.

(** [parseLines] never sets its [updated] flag, whatever the parsers
    return, and so emits nothing. *)
Lemma parseLines_emits_nothing (parsers : list LineParser) (lines : list string)
    (lw : LogWatcher) :
  emitted (parseLines parsers lines lw) = emitted lw.
Proof.
  unfold parseLines.
  match goal with |- context [foldl ?f ?st0 lines] =>
    destruct (parseLines_loop_keeps parsers (options lw) lines st0 eq_refl) as [Hu He]
  end.
  simpl. rewrite Hu. exact He.
Qed.

(** C3, on a batch holding the game-start line: the game-start parser
    returns [true] for it, and yet [parseLines] emits no
    "gamestate-changed" event, because the value the parsers return is
    dropped. *)
Theorem C3_mutation_reported_but_no_event :
  batch_reports (lineParsers example_data)
    [create_game_line; create_game_line_slashed] world0 = true /\
  emitted (parseLines (lineParsers example_data)
    [create_game_line; create_game_line_slashed] watcher0) = [].
Proof.
  split; [vm_compute; reflexivity|].
  apply parseLines_emits_nothing.
Qed.

(** ** The pattern matcher *)

(** A successful match has called its continuation successfully. *)
Lemma rmatch_continues {R : Type} (r : regex) :
  forall (s : string) (caps : Groups) (k : string -> Groups -> option R) (x : R),
    rmatch r s caps k = Some x -> exists s' caps', k s' caps' = Some x.
Proof.
  induction r as [p| | | |r1 IH1 r2 IH2|r1 IH1 r2 IH2|r IH|r IH|r IH|name r IH|];
    intros s caps k x H; simpl in H.
  - destruct (strip_prefix p s); [eauto|discriminate].
  - destruct (one_char is_dot s); [eauto|discriminate].
  - destruct (one_char is_digit s); [eauto|discriminate].
  - destruct (one_char is_space s); [eauto|discriminate].
  - apply IH1 in H as (s1 & c1 & H). apply IH2 in H. exact H.
  - destruct (rmatch r1 s caps k) eqn:H1.
    + injection H as ->. eapply IH1; eauto.
    + eapply IH2; eauto.
  - set (fuel := String.length s) in H at 1. clearbody fuel. revert s caps H.
    induction fuel as [|fuel IHf]; intros s caps H; [eauto|].
    match type of H with match ?m with _ => _ end = _ => destruct m eqn:Hm end.
    + injection H as ->. apply IH in Hm as (s1 & c1 & Hm).
      destruct (Nat.ltb _ _); [|discriminate]. eapply IHf; eauto.
    + eauto.
  - apply IH in H as (s0 & c0 & H).
    set (fuel := String.length s0) in H at 1. clearbody fuel. revert s0 c0 H.
    induction fuel as [|fuel IHf]; intros s0 c0 H; [eauto|].
    match type of H with match ?m with _ => _ end = _ => destruct m eqn:Hm end.
    + injection H as ->. apply IH in Hm as (s1 & c1 & Hm).
      destruct (Nat.ltb _ _); [|discriminate]. eapply IHf; eauto.
    + eauto.
  - match type of H with match ?m with _ => _ end = _ => destruct m eqn:Hm end.
    + injection H as ->. apply IH in Hm as (s1 & c1 & Hm).
      destruct (Nat.ltb _ _); [eauto|discriminate].
    + eauto.
  - apply IH in H as (s1 & c1 & H). eauto.
  - destruct s; [eauto|discriminate].
Qed.

(** A pattern without groups hands the captures on unchanged. *)
Lemma rmatch_group_free {R : Type} (r : regex) :
  group_free r = true ->
  forall (s : string) (caps : Groups) (k : string -> Groups -> option R) (x : R),
    rmatch r s caps k = Some x -> exists s', k s' caps = Some x.
Proof.
  induction r as [p| | | |r1 IH1 r2 IH2|r1 IH1 r2 IH2|r IH|r IH|r IH|name r IH|];
    intros Hgf s caps k x H; simpl in H, Hgf.
  - destruct (strip_prefix p s); [eauto|discriminate].
  - destruct (one_char is_dot s); [eauto|discriminate].
  - destruct (one_char is_digit s); [eauto|discriminate].
  - destruct (one_char is_space s); [eauto|discriminate].
  - apply andb_prop in Hgf as [G1 G2].
    apply (IH1 G1) in H as (s1 & H). apply (IH2 G2) in H. exact H.
  - apply andb_prop in Hgf as [G1 G2].
    destruct (rmatch r1 s caps k) eqn:H1.
    + injection H as ->. eapply IH1; eauto.
    + eapply IH2; eauto.
  - set (fuel := String.length s) in H at 1. clearbody fuel. revert s H.
    induction fuel as [|fuel IHf]; intros s H; [eauto|].
    match type of H with match ?m with _ => _ end = _ => destruct m eqn:Hm end.
    + injection H as ->. apply (IH Hgf) in Hm as (s1 & Hm).
      destruct (Nat.ltb _ _); [|discriminate]. eapply IHf; eauto.
    + eauto.
  - apply (IH Hgf) in H as (s0 & H).
    set (fuel := String.length s0) in H at 1. clearbody fuel. revert s0 H.
    induction fuel as [|fuel IHf]; intros s0 H; [eauto|].
    match type of H with match ?m with _ => _ end = _ => destruct m eqn:Hm end.
    + injection H as ->. apply (IH Hgf) in Hm as (s1 & Hm).
      destruct (Nat.ltb _ _); [|discriminate]. eapply IHf; eauto.
    + eauto.
  - match type of H with match ?m with _ => _ end = _ => destruct m eqn:Hm end.
    + injection H as ->. apply (IH Hgf) in Hm as (s1 & Hm).
      destruct (Nat.ltb _ _); [eauto|discriminate].
    + eauto.
  - discriminate.
  - destruct s; [eauto|discriminate].
Qed.

Lemma append_nil_l (s : string) : "" ++ s = s.
Proof. reflexivity. Qed.

Lemma append_cons_l (c : ascii) (w s : string) : String c w ++ s = String c (w ++ s).
Proof. reflexivity. Qed.

Lemma length_append_ge (w s : string) :
  (String.length s <= String.length (w ++ s))%nat.
Proof.
  induction w as [|c w IH]; [rewrite append_nil_l; lia|].
  rewrite append_cons_l. simpl. lia.
Qed.

Lemma take_string_app (w s : string) :
  take_string (String.length (w ++ s) - String.length s) (w ++ s) = w.
Proof.
  induction w as [|c w IH].
  - rewrite append_nil_l, Nat.sub_diag. destruct s; reflexivity.
  - rewrite append_cons_l.
    assert (E : (String.length (String c (w ++ s)) - String.length s
                 = S (String.length (w ++ s) - String.length s))%nat).
    { pose proof (length_append_ge w s). simpl. lia. }
    rewrite E. simpl. rewrite IH. reflexivity.
Qed.

(** [\s+] consumes a non-empty run of whitespace. *)
Lemma rmatch_plus_space {R : Type} (s : string) (caps : Groups)
    (k : string -> Groups -> option R) (x : R) :
  rmatch (Plus Space) s caps k = Some x ->
  exists w s', s = w ++ s' /\ all_space w = true /\ k s' caps = Some x.
Proof.
  simpl. destruct s as [|c s]; simpl; [discriminate|].
  destruct (is_space c) eqn:Hc; [|discriminate].
  set (fuel := String.length s) at 1. clearbody fuel.
  intros H.
  assert (exists w s', s = w ++ s' /\ all_space w = true /\ k s' caps = Some x)
    as (w & s' & -> & Hw & Hk).
  { revert s H. induction fuel as [|fuel IHf]; intros s H.
    - exists "", s. auto.
    - destruct s as [|d s]; simpl in H.
      + exists "", "". auto.
      + destruct (is_space d) eqn:Hd; simpl in H.
        * match type of H with match ?m with _ => _ end = _ => destruct m eqn:Hm end.
          -- injection H as ->.
             destruct (Nat.ltb _ _); [|discriminate].
             destruct (IHf _ Hm) as (w & s' & -> & Hw & Hk).
             exists (String d w), s'. rewrite append_cons_l. simpl. rewrite Hd, Hw. auto.
          -- exists "", (String d s). auto.
        * exists "", (String d s). auto. }
  exists (String c w), s'. rewrite append_cons_l. simpl. rewrite Hc, Hw. auto.
Qed.

(** Whatever [label] and a group-free [content] are, the [indent] group of
    a match of [makeFullRegex label content] is a run of whitespace. *)
Lemma exec_indent_all_space (label content : regex) (line : string) (g : Groups) :
  group_free content = true ->
  exec (makeFullRegex label content) line = Some g ->
  exists w, g !! "indent" = Some w /\ all_space w = true.
Proof.
  intros Hgf. 
  assert (Hat : forall s, rmatch (makeFullRegex label content) s ∅
                            (fun _ caps => Some caps) = Some g ->
                          exists w, g !! "indent" = Some w /\ all_space w = true).
  { intros s H. unfold makeFullRegex in H.
    cbn [rmatch] in H.
    destruct (strip_prefix "/" s) as [s0|]; [|discriminate].
    apply rmatch_continues in H as (s1 & c1 & H).
    destruct (strip_prefix "/ -" s1) as [s2|]; [|discriminate].
    apply (rmatch_plus_space s2 c1) in H as (w & s3 & -> & Hw & H).
    rewrite take_string_app in H.
    destruct (strip_prefix "/" s3) as [s4|]; [|discriminate].
    apply (rmatch_group_free content Hgf) in H as (s5 & H).
    destruct (strip_prefix "/" s5); [|discriminate].
    injection H as <-. exists w. split; [apply lookup_insert_eq|exact Hw]. }
  induction line as [|c line IH]; intros H; cbn [exec] in H.
  - destruct (rmatch _ _ _ _) eqn:Hm; [|discriminate].
    injection H as ->. eapply Hat; eauto.
  - destruct (rmatch _ _ _ _) eqn:Hm.
    + injection H as ->. eapply Hat; eauto.
    + auto.
Qed.

(** [parseInt] of whitespace is NaN. *)
Lemma parseInt_all_space (s : string) (radix : option Z) :
  all_space s = true -> parseInt s radix = NaN.
Proof.
  intros H. unfold parseInt.
  assert (skip_spaces s = "") as ->.
  { induction s as [|c s IH]; [reflexivity|]. simpl in *.
    apply andb_prop in H as [-> H]. auto. }
  destruct (negb _ && _); reflexivity.
Qed.

(** ** The block parser *)

(** The block parser compares [parseInt] of the captured indentation,
    which is NaN, with the indentation width of the block: the comparison
    fails on every line, and no line is forwarded to [blockLineParser].
    A line either restarts the block or leaves everything as it was. *)
Lemma blockParser_never_forwards {S : Type} (label startRegex : regex)
    (initializeBlockState : Groups -> GameState -> option S)
    (blockLineParser : string -> GameState -> S -> Clock -> GameState * S * Clock)
    (line : string) (gs : GameState) (clk : Clock) (self : BlockClosure S) :
  blockParserFactory label startRegex initializeBlockState blockLineParser line gs clk self =
  (false, gs, clk,
   match exec (makeFullRegex label startRegex) line with
   | Some groups =>
       mkBlockClosure
         (match initializeBlockState groups gs with
          | Some initialState => Some initialState
          | None => blockState self
          end)
         (Z.of_nat (String.length (grp groups "indent")))
   | None => self
   end).
Proof.
  unfold blockParserFactory.
  destruct (exec (makeFullRegex label startRegex) line) as [groups|]; [reflexivity|].
  destruct (blockState self) as [bs|]; [|reflexivity].
  destruct (exec (makeFullRegex label (Star Dot)) line) as [groups|] eqn:He; [|reflexivity].
  apply exec_indent_all_space in He as (w & Hw & Hsp); [|reflexivity].
  unfold grp. rewrite Hw. simpl.
  rewrite (parseInt_all_space w None Hsp). reflexivity.
Qed.

(** C6, on a block opened at indentation width 4 by a start line whose
    [initializeBlockState] returned a value: the next line bears the same
    label at the same width 4, and the block parser does not forward it
    to the block-line handler; the block state stays as the start line
    left it. *)
Theorem C6_same_indent_line_not_forwarded :
  blockParserFactory label_Power_GameState_DebugPrintPower regex_card_init_start
    always_initialize recording_blockLineParser
    block_start_line new_GameState clock0 (mkBlockClosure None 0)
  = (false, new_GameState, clock0, mkBlockClosure (Some []) 4) /\
  exec (makeFullRegex label_Power_GameState_DebugPrintPower (Star Dot)) block_inner_line
  = Some {[ "indent" := "    " ]} /\
  blockParserFactory label_Power_GameState_DebugPrintPower regex_card_init_start
    always_initialize recording_blockLineParser
    block_inner_line new_GameState clock0 (mkBlockClosure (Some []) 4)
  = (false, new_GameState, clock0, mkBlockClosure (Some []) 4).
Proof.
  split; [vm_compute; reflexivity|].
  split; [vm_compute; reflexivity|].
  rewrite blockParser_never_forwards.
  vm_compute. reflexivity.
Qed.

(** ** Game over *)

Local Open Scope list_scope.

Lemma find_idx_alter {A : Type} (f : A -> bool) (g : A -> A) (i : nat) (l : list A) :
  (forall x, f (g x) = f x) -> find_idx f (alter g i l) = find_idx f l.
Proof.
  intros Hfg. revert i. induction l as [|x l IH]; intros i; [reflexivity|].
  destruct i as [|i].
  - simpl. rewrite Hfg. reflexivity.
  - change (alter g (S i) (x :: l)) with (x :: alter g i l).
    cbn [find_idx]. rewrite IH. reflexivity.
Qed.

Lemma close_last_turn_snoc (h : list Turn) (t : Turn) (clk : Clock) :
  close_last_turn (h ++ [t]) clk =
  (h ++ [mkTurn (t_startTime t) (Some (readings clk (tick clk) - t_startTime t))],
   mkClock (readings clk) (S (tick clk))).
Proof.
  unfold close_last_turn. rewrite last_snoc. simpl.
  f_equal. rewrite length_app. simpl.
  replace (pred (length h + 1)) with (length h + 0)%nat by lia.
  rewrite alter_app_r. reflexivity.
Qed.

Lemma close_last_turn_nil (clk : Clock) : close_last_turn [] clk = ([], clk).
Proof. reflexivity. Qed.

Lemma gameOver_count (name status : string) (gs : GameState) (clk : Clock) :
  gameOverCount (fst (apply_gameOver (gs, clk) (name, status))) = gameOverCount gs + 1.
Proof.
  unfold apply_gameOver, gameOver; simpl.
  set (gs1 := match getPlayerByName gs name with Some _ => _ | None => _ end).
  assert (E : gameOverCount gs1 = gameOverCount gs).
  { subst gs1. destruct (getPlayerByName gs name), (as_Status status); reflexivity. }
  destruct (Z.leb 2 (gameOverCount gs1 + 1)).
  - destruct (find_idx p_turn (players gs1)) as [c|]; simpl.
    + unfold close_last_turn_of; simpl.
      destruct (players gs1 !! c) as [p|]; simpl; [|exact (f_equal (fun z => z + 1) E)].
      destruct (close_last_turn (p_turnHistory p) clk); simpl.
      exact (f_equal (fun z => z + 1) E).
    + exact (f_equal (fun z => z + 1) E).
  - simpl. exact (f_equal (fun z => z + 1) E).
Qed.

Lemma run_gameOver_count (facts : list (string * string)) (st : GameState * Clock) :
  gameOverCount (fst (run_gameOver facts st)) =
  gameOverCount (fst st) + Z.of_nat (length facts).
Proof.
  revert st. induction facts as [|[name status] facts IH]; intros [gs clk].
  - simpl. lia.
  - unfold run_gameOver in *. cbn [foldl length]. rewrite IH.
    rewrite gameOver_count. simpl fst. lia.
Qed.

Lemma close_last_turn_clock (h : list Turn) (clk : Clock) :
  readings (snd (close_last_turn h clk)) = readings clk /\
  (tick clk <= tick (snd (close_last_turn h clk)))%nat.
Proof.
  unfold close_last_turn. destruct (last h); simpl; split; auto; lia.
Qed.

Lemma close_last_turn_of_spec (c : nat) (gs : GameState) (clk : Clock) :
  exists gs1 clk1,
    close_last_turn_of c gs clk = (gs1, clk1) /\
    startTime gs1 = startTime gs /\
    gameOverCount gs1 = gameOverCount gs /\
    matchDuration gs1 = matchDuration gs /\
    readings clk1 = readings clk /\
    (tick clk <= tick clk1)%nat /\
    (forall p h t,
        players gs !! c = Some p -> p_turnHistory p = h ++ [t] ->
        exists p',
          players gs1 !! c = Some p' /\
          p_turnHistory p' =
            h ++ [mkTurn (t_startTime t) (Some (readings clk (tick clk) - t_startTime t))]).
Proof.
  unfold close_last_turn_of.
  destruct (players gs !! c) as [p|] eqn:Hp.
  - pose proof (close_last_turn_clock (p_turnHistory p) clk) as [Hr Ht].
    destruct (close_last_turn (p_turnHistory p) clk) as [h' clk1] eqn:Hc.
    simpl in Hr, Ht.
    eexists _, _. split; [reflexivity|]. repeat split; auto.
    intros p0 h t [= <-] Hh. rewrite Hh, close_last_turn_snoc in Hc.
    injection Hc as <- <-.
    rewrite lookup_update_player_eq, Hp. simpl. eauto.
  - eexists _, _. split; [reflexivity|]. repeat split; auto.
    intros p h t [=].
Qed.

(** C4, as the code has it: in a run begun by [start()], the count after
    [n] terminal-status lines is [n], so it is 2 after the second line
    and only then; the first line leaves [matchDuration] alone; and every
    terminal-status line that finds the count at 1 or more (the second,
    and the third and later ones as well) returns [true], raises the
    count by one, closes the last turn of the first player whose turn flag
    is set with the clock read at that moment, and sets [matchDuration] to
    the next clock reading minus [startTime]. *)
Theorem C4_game_over_stamps_from_second_on (name status : string) (gs : GameState)
    (clk : Clock) (t0 : Z) :
  startTime gs = Some t0 ->
  1 <= gameOverCount gs ->
  exists gs' clk',
    gameOver name status gs clk = (true, gs', clk') /\
    gameOverCount gs' = gameOverCount gs + 1 /\
    (tick clk < tick clk')%nat /\
    matchDuration gs' = Some (Int (readings clk (pred (tick clk')) - t0)) /\
    (forall c p h t,
        find_idx p_turn (players gs) = Some c ->
        players gs !! c = Some p ->
        p_turnHistory p = h ++ [t] ->
        exists p',
          players gs' !! c = Some p' /\
          p_turnHistory p' =
            h ++ [mkTurn (t_startTime t) (Some (readings clk (tick clk) - t_startTime t))]) /\
    (forall facts s0 c0,
        gameOverCount (fst (run_gameOver facts (start s0 c0))) = Z.of_nat (length facts)) /\
    (forall n s g c,
        gameOverCount g = 0 ->
        matchDuration (fst (apply_gameOver (g, c) (n, s))) = matchDuration g).
Proof.
  intros Hst Hcount. unfold gameOver.
  set (gs1 := match getPlayerByName gs name with Some _ => _ | None => _ end).
  assert (E : gameOverCount gs1 = gameOverCount gs /\ startTime gs1 = startTime gs /\
              find_idx p_turn (players gs1) = find_idx p_turn (players gs) /\
              forall c p, players gs !! c = Some p ->
                exists p1, players gs1 !! c = Some p1 /\ p_turnHistory p1 = p_turnHistory p).
  { subst gs1. destruct (getPlayerByName gs name) as [i|]; [|by eauto 10].
    destruct (as_Status status) as [st|]; [|by eauto 10].
    repeat split; [by apply find_idx_alter|].
    intros c p Hp. destruct (decide (i = c)) as [->|Hne].
    - rewrite lookup_update_player_eq, Hp. simpl. eauto.
    - rewrite lookup_update_player_ne by done. eauto. }
  destruct E as (Ec & Es & Ef & Ep). clearbody gs1.
  cbn [gameOverCount set_gameOverCount].
  assert (Z.leb 2 (gameOverCount gs1 + 1) = true) as -> by (apply Z.leb_le; lia).
  set (gs2 := set_gameOverCount (gameOverCount gs1 + 1) gs1).
  assert (Hclose : exists gs3 clk3,
             match find_idx p_turn (players gs2) with
             | Some c => close_last_turn_of c gs2 clk
             | None => (gs2, clk)
             end = (gs3, clk3) /\
             startTime gs3 = startTime gs /\
             gameOverCount gs3 = gameOverCount gs + 1 /\
             readings clk3 = readings clk /\ (tick clk <= tick clk3)%nat /\
             forall c p h t,
               find_idx p_turn (players gs) = Some c ->
               players gs !! c = Some p -> p_turnHistory p = h ++ [t] ->
               exists p', players gs3 !! c = Some p' /\
                 p_turnHistory p' =
                   h ++ [mkTurn (t_startTime t)
                           (Some (readings clk (tick clk) - t_startTime t))]).
  { change (players gs2) with (players gs1). rewrite Ef.
    destruct (find_idx p_turn (players gs)) as [c|] eqn:Hc.
    - destruct (close_last_turn_of_spec c gs2 clk)
        as (gs3 & clk3 & -> & H1 & H2 & _ & H4 & H5 & H6).
      exists gs3, clk3. split; [reflexivity|].
      split; [rewrite H1; exact Es|]. split; [rewrite H2; simpl; lia|].
      split; [exact H4|]. split; [exact H5|].
      intros c' p h t [= <-] Hp Hh.
      destruct (Ep c p Hp) as (p1 & Hp1 & Hh1).
      apply (H6 p1 h t Hp1). congruence.
    - exists gs2, clk. split; [reflexivity|].
      split; [exact Es|]. split; [simpl; lia|]. split; [reflexivity|].
      split; [lia|]. intros c p h t [=]. }
  destruct Hclose as (gs3 & clk3 & -> & H1 & H2 & H3 & H4 & H5).
  eexists _, _. split; [reflexivity|].
  split; [exact H2|]. split; [simpl; lia|].
  split; [simpl; rewrite H1, Hst, H3; reflexivity|].
  split; [exact H5|]. split.
  - intros facts s0 c0. rewrite run_gameOver_count. unfold start. simpl. lia.
  - intros n s g c Hg. unfold apply_gameOver, gameOver; simpl.
    set (g1 := match getPlayerByName g n with Some _ => _ | None => _ end).
    assert (G : gameOverCount g1 = gameOverCount g /\ matchDuration g1 = matchDuration g).
    { subst g1. destruct (getPlayerByName g n), (as_Status s); auto. }
    destruct G as [G1 G2]. rewrite G1, Hg. simpl. exact G2.
Qed.

Lemma C4_game_over_stamps_from_second_on_witness :
  exists gs' clk',
    gameOver "Alice" "WON" (fst (run_gameOver (take 2 three_game_overs) playing))
      (snd (run_gameOver (take 2 three_game_overs) playing)) = (true, gs', clk') /\
    gameOverCount gs' = 2 + 1 /\
    (4 < tick clk')%nat /\
    matchDuration gs' = Some (Int (readings clock0 (pred (tick clk')) - 1000)) /\
    (forall c p h t,
        find_idx p_turn (players (fst (run_gameOver (take 2 three_game_overs) playing)))
          = Some c ->
        players (fst (run_gameOver (take 2 three_game_overs) playing)) !! c = Some p ->
        p_turnHistory p = h ++ [t] ->
        exists p',
          players gs' !! c = Some p' /\
          p_turnHistory p' =
            h ++ [mkTurn (t_startTime t) (Some (readings clock0 4%nat - t_startTime t))]) /\
    (forall facts s0 c0,
        gameOverCount (fst (run_gameOver facts (start s0 c0))) = Z.of_nat (length facts)) /\
    (forall n s g c,
        gameOverCount g = 0 ->
        matchDuration (fst (apply_gameOver (g, c) (n, s))) = matchDuration g).
Proof.
  apply (C4_game_over_stamps_from_second_on "Alice" "WON"
           (fst (run_gameOver (take 2 three_game_overs) playing))
           (snd (run_gameOver (take 2 three_game_overs) playing)) 1000).
  - vm_compute. reflexivity.
  - vm_compute. discriminate.
Defined.

(** C4, the claim as stated fails on the third terminal-status line: the
    match started at 1000 is stamped with a duration of 30 by the second
    line and stamped again, with 50, by the third, which also takes the
    count to 3. *)
Lemma C4_third_line_restamps :
  matchDuration (fst (run_gameOver (take 2 three_game_overs) playing)) = Some (Int 30) /\
  matchDuration (fst (run_gameOver three_game_overs playing)) = Some (Int 50) /\
  gameOverCount (fst (run_gameOver three_game_overs playing)) = 3 /\
  matchDuration (fst (run_gameOver three_game_overs playing)) <>
  matchDuration (fst (run_gameOver (take 2 three_game_overs) playing)).
Proof.
  repeat split; try (vm_compute; reflexivity).
  vm_compute. discriminate.
Qed.

(** ** Turn change *)

(** C5, as the code has it: a turn-change fact that names one of two
    registered players leaves exactly one player with [turn = true]; a
    fact with value 1 gives the turn to the named player and appends an
    open entry to that player's history, without touching the history of
    the other player; a fact with another value takes the turn from the
    named player, gives it to the other one and closes the named
    player's last entry with [now - startTime], without appending
    anything.  Opening and closing are done by two facts, not by one. *)
Theorem C5_turn_change_one_half (playerName turn : string) (gs : GameState) (clk : Clock)
    (a b : Player) (ia ib : Z) (i : nat) (p : Player) :
  players gs = [a; b] ->
  p_id a = Int ia -> p_id b = Int ib -> ia <> ib ->
  getPlayerByName gs playerName = Some i ->
  players gs !! i = Some p ->
  exists gs' clk' p',
    turnChange playerName turn gs clk = (true, gs', clk') /\
    length (filter (fun q => p_turn q = true) (players gs')) = 1%nat /\
    players gs' !! i = Some p' /\
    p_turn p' = String.eqb turn "1" /\
    (forall j q, j <> i -> players gs !! j = Some q ->
       exists q', players gs' !! j = Some q' /\
                  p_turn q' = negb (String.eqb turn "1") /\
                  p_turnHistory q' = p_turnHistory q) /\
    (String.eqb turn "1" = true ->
       p_turnHistory p' = p_turnHistory p ++ [mkTurn (readings clk (tick clk)) None]) /\
    (String.eqb turn "1" = false ->
       forall h t, p_turnHistory p = h ++ [t] ->
         p_turnHistory p' =
           h ++ [mkTurn (t_startTime t) (Some (readings clk (tick clk) - t_startTime t))]) /\
    (String.eqb turn "1" = false -> p_turnHistory p = [] -> p_turnHistory p' = []).
Proof.
  intros Hpl Ha Hb Hne Hi Hp.
  assert (Hrefl : forall z, Z.eqb z z = true) by (intros; apply Z.eqb_refl).
  assert (Hab : Z.eqb ia ib = false) by (apply Z.eqb_neq; exact Hne).
  assert (Hba : Z.eqb ib ia = false) by (apply Z.eqb_neq; congruence).
  unfold turnChange. rewrite Hi.
  unfold getPlayerByName in Hi. rewrite Hpl in Hi, Hp.
  destruct gs as [st md pc goc pls bpa ma tst ml ents miss]. simpl in Hpl. subst pls.
  unfold update_player, player_turn, getOpponentPlayer, close_last_turn_of; simpl.
  destruct a as [aid an ast at_ ah aq ato acc ac ap asec ad adh acr aam ams].
  destruct b as [bid bn bst bt bh bq bto bcc bc bp bsec bd bdh bcr bam bms].
  simpl in Ha, Hb. subst aid bid. simpl in Hi.
  destruct (String.eqb an playerName) eqn:Han.
  - injection Hi as <-. injection Hp as <-. simpl.
    rewrite Hrefl, Hba. simpl.
    destruct (String.eqb turn "1") eqn:Ht; simpl.
    + eexists _, _, _. split; [reflexivity|]. simpl.
      split; [reflexivity|]. split; [reflexivity|]. split; [reflexivity|].
      split; [|split; [reflexivity|split; discriminate]].
      intros [|[|j]] q Hj Hq; try done. injection Hq as <-. eauto.
    + destruct (close_last_turn ah clk) as [h' clk1] eqn:Hc. simpl.
      eexists _, _, _. split; [reflexivity|]. simpl.
      split; [reflexivity|]. split; [reflexivity|]. split; [reflexivity|].
      split; [|split; [discriminate|split]].
      * intros [|[|j]] q Hj Hq; try done. injection Hq as <-. eauto.
      * intros _ h t ->. rewrite close_last_turn_snoc in Hc. by injection Hc as <- _.
      * intros _ ->. by injection Hc as <- _.
  - destruct (String.eqb bn playerName) eqn:Hbn; [|discriminate].
    injection Hi as <-. injection Hp as <-. simpl.
    rewrite Hab. simpl.
    destruct (String.eqb turn "1") eqn:Ht; simpl.
    + eexists _, _, _. split; [reflexivity|]. simpl.
      split; [reflexivity|]. split; [reflexivity|]. split; [reflexivity|].
      split; [|split; [reflexivity|split; discriminate]].
      intros [|[|j]] q Hj Hq; try done. injection Hq as <-. eauto.
    + destruct (close_last_turn bh clk) as [h' clk1] eqn:Hc. simpl.
      eexists _, _, _. split; [reflexivity|]. simpl.
      split; [reflexivity|]. split; [reflexivity|]. split; [reflexivity|].
      split; [|split; [discriminate|split]].
      * intros [|[|j]] q Hj Hq; try done. injection Hq as <-. eauto.
      * intros _ h t ->. rewrite close_last_turn_snoc in Hc. by injection Hc as <- _.
      * intros _ ->. by injection Hc as <- _.
Qed.

Lemma C5_turn_change_one_half_witness :
  exists gs' clk' p',
    turnChange "Bob" "1" (fst playing) (snd playing) = (true, gs', clk') /\
    length (filter (fun q => p_turn q = true) (players gs')) = 1%nat /\
    players gs' !! 1%nat = Some p' /\
    p_turn p' = String.eqb "1" "1" /\
    (forall j q, j <> 1%nat -> players (fst playing) !! j = Some q ->
       exists q', players gs' !! j = Some q' /\
                  p_turn q' = negb (String.eqb "1" "1") /\
                  p_turnHistory q' = p_turnHistory q) /\
    (String.eqb "1" "1" = true ->
       p_turnHistory p' = p_turnHistory bob ++ [mkTurn 1020 None]) /\
    (String.eqb "1" "1" = false ->
       forall h t, p_turnHistory bob = h ++ [t] ->
         p_turnHistory p' =
           h ++ [mkTurn (t_startTime t) (Some (1020 - t_startTime t))]) /\
    (String.eqb "1" "1" = false -> p_turnHistory bob = [] -> p_turnHistory p' = []).
Proof.
  apply (C5_turn_change_one_half "Bob" "1" (fst playing) (snd playing)
           (set_p_turnHistory [mkTurn 1010 None] (set_p_turn true alice)) bob 1 2 1%nat bob);
    try (vm_compute; reflexivity).
  lia.
Defined.

(** C5, the claim as stated fails on a single fact.  Alice holds the turn
    opened at 1010, and the fact gives the turn to Bob: Bob's history
    gains an open entry, but the last entry of Alice, the previous
    holder, gains no duration.  The other fact of the pair, that takes
    the turn from Alice, closes her entry and appends nothing to Bob's
    history. *)
Lemma C5_previous_turn_left_open :
  (let '(r, gs', _) := turnChange "Bob" "1" (fst playing) (snd playing) in
   r = true /\
   (p_turn <$> players gs') = [false; true] /\
   (p_turnHistory <$> players gs') = [[mkTurn 1010 None]; [mkTurn 1020 None]] /\
   ~ exists d, (players gs' !! O ≫= fun q => last (p_turnHistory q)) ≫= t_duration
               = Some d) /\
  (let '(r, gs', _) := turnChange "Alice" "0" (fst playing) (snd playing) in
   r = true /\
   (p_turn <$> players gs') = [false; true] /\
   (p_turnHistory <$> players gs') = [[mkTurn 1010 (Some 10)]; []]).
Proof.
  split.
  - vm_compute. repeat split. intros [d Hd]. discriminate.
  - vm_compute. repeat split.
Qed.

(** ** Resolving entities *)

Lemma entities_resolveEntity (entity : PartialCardEntity) (s : GameState) :
  entities (resolveEntity entity s) =
  <[pe_entityId entity := merge (entities s !! pe_entityId entity) entity]> (entities s).
Proof.
  unfold resolveEntity. cbv zeta.
  match goal with |- context [if ?c then _ else _] => destruct c end; reflexivity.
Qed.

(** C8, as the code has it: the entity stored by [resolveEntity] takes
    each field from the incoming fact when that field is defined there
    (an empty string or the sentinel name included) and from the known
    entity otherwise; the tags are joined key by key, the incoming value
    winning; [entityId] is the incoming one, under which the entity is
    stored; no other entity changes. *)
Theorem C8_merge_last_defined_wins (entity : PartialCardEntity) (s : GameState) :
  exists m,
    entities (resolveEntity entity s) !! pe_entityId entity = Some m /\
    ce_entityId m = pe_entityId entity /\
    ce_cardName m =
      match pe_cardName entity with
      | Some n => n
      | None => from_option ce_cardName "" (entities s !! pe_entityId entity)
      end /\
    ce_cardId m =
      match pe_cardId entity with
      | Some c => Some c
      | None => entities s !! pe_entityId entity ≫= ce_cardId
      end /\
    ce_player m =
      match pe_player entity with
      | Some pl => pl
      | None => from_option ce_player bottom (entities s !! pe_entityId entity)
      end /\
    (forall key : string,
        ce_tags m !! key =
          match pe_tags entity ≫= (fun t => t !! key) with
          | Some v => Some v
          | None => entities s !! pe_entityId entity ≫= (fun e => ce_tags e !! key)
          end) /\
    (forall id, id <> pe_entityId entity ->
        entities (resolveEntity entity s) !! id = entities s !! id).
Proof.
  exists (merge (entities s !! pe_entityId entity) entity).
  rewrite entities_resolveEntity.
  split; [apply lookup_insert_eq|].
  split; [reflexivity|].
  unfold merge; simpl.
  split; [destruct (pe_cardName entity); reflexivity|].
  split; [reflexivity|].
  split; [destruct (pe_player entity); reflexivity|].
  split.
  - intros key.
    destruct (pe_tags entity) as [t|]; simpl.
    + rewrite lookup_union. destruct (t !! key) as [v|]; simpl.
      * destruct (from_option ce_tags ∅ (entities s !! pe_entityId entity) !! key);
          reflexivity.
      * destruct (entities s !! pe_entityId entity); simpl.
        -- destruct (ce_tags c !! key); reflexivity.
        -- rewrite lookup_empty. reflexivity.
    + destruct (entities s !! pe_entityId entity); simpl; [reflexivity|].
      apply lookup_empty.
  - intros id Hid. by rewrite lookup_insert_ne.
Qed.

(** C8, the claim as stated fails: entity 5 is known as Fireball, and a
    fact for it whose name is the empty string, or the sentinel, replaces
    the known name. *)
Lemma C8_known_name_overwritten :
  (ce_cardName <$> entities fireball_known !! Int 5) = Some "Fireball" /\
  (ce_cardName <$> entities fireball_unnamed !! Int 5) = Some "" /\
  (ce_cardName <$> entities fireball_sentinel !! Int 5) = Some UNKNOWN_CARDNAME.
Proof. repeat split; vm_compute; reflexivity. Qed.

Lemma strict_eq_true (a b : number) : strict_eq a b = true -> a = b.
Proof.
  destruct a, b; simpl; try discriminate. intros H. apply Z.eqb_eq in H. by subst.
Qed.

Lemma merge_idem (existing : option CardEntity) (entity : PartialCardEntity) :
  merge (Some (merge existing entity)) entity = merge existing entity.
Proof.
  unfold merge; simpl. f_equal.
  - destruct (pe_cardId entity); reflexivity.
  - destruct (pe_cardName entity); reflexivity.
  - destruct (pe_player entity); reflexivity.
  - destruct (pe_tags entity) as [t|]; [|reflexivity].
    by rewrite (assoc_L (∪)), (idemp_L (∪)).
Qed.

Lemma refresh_card_idem (ents : gmap number CardEntity) (id : number) (card : Card) :
  refresh_card ents id (refresh_card ents id card) = refresh_card ents id card.
Proof.
  unfold refresh_card.
  destruct (strict_eq (c_entityId card) id) eqn:He; [|by rewrite He].
  destruct (identifySpecialTags (ents !! c_entityId card)) as [t|] eqn:Ht.
  - simpl. rewrite He, Ht. reflexivity.
  - rewrite He, Ht. reflexivity.
Qed.

Lemma patch_props_pending (m : CardEntity) (props : EntityProps) :
  patch_props m props =
  if pending (ce_entityId m) props then spread_newProps props m else props.
Proof. reflexivity. Qed.

Lemma patch_props_idem (m : CardEntity) (props : EntityProps) :
  isEmpty (Some (ce_cardName m)) = false ->
  patch_props m (patch_props m props) = patch_props m props.
Proof.
  intros Hm. rewrite (patch_props_pending m props).
  destruct (pending (ce_entityId m) props) eqn:Hc.
  - rewrite patch_props_pending. unfold pending, spread_newProps.
    cbn [ep_cardName ep_entityId]. rewrite Hm. reflexivity.
  - rewrite patch_props_pending, Hc. reflexivity.
Qed.

Lemma patch_entry_idem (m : CardEntity) (entry : MatchLogEntry) :
  isEmpty (Some (ce_cardName m)) = false ->
  patch_entry m (patch_entry m entry) = patch_entry m entry.
Proof.
  intros Hm. unfold patch_entry; simpl. f_equal.
  - by apply patch_props_idem.
  - rewrite <- list_fmap_compose. apply list_fmap_ext.
    intros i x _. simpl. by apply patch_props_idem.
Qed.

Lemma resolveEntity_unfold (entity : PartialCardEntity) (s : GameState) :
  resolveEntity entity s =
  let m := merge (entities s !! pe_entityId entity) entity in
  let ents := <[pe_entityId entity := m]> (entities s) in
  mkGameState (startTime s) (matchDuration s) (playerCount s) (gameOverCount s)
    ((fun player =>
        set_p_cards (refresh_card ents (pe_entityId entity) <$> p_cards player) player)
     <$> players s)
    (beginPhaseActive s) (mulliganActive s) (turnStartTime s)
    (if isEmpty (Some (ce_cardName m))
        || negb (bool_decide (pe_entityId entity ∈ missingEntityIds s))
     then matchLog s else patch_entry m <$> matchLog s)
    ents (missingEntityIds s).
Proof.
  unfold resolveEntity. cbv zeta.
  cbn [missingEntityIds set_players set_entities entities players ce_entityId merge].
  match goal with |- context [if ?c then _ else _] => destruct c end; reflexivity.
Qed.

(** Re-resolving with the same fact changes nothing. *)
Lemma resolveEntity_idempotent (entity : PartialCardEntity) (s : GameState) :
  resolveEntity entity (resolveEntity entity s) = resolveEntity entity s.
Proof.
  rewrite (resolveEntity_unfold entity s). cbv zeta.
  set (m := merge (entities s !! pe_entityId entity) entity).
  set (ents := <[pe_entityId entity := m]> (entities s)).
  rewrite resolveEntity_unfold. cbv zeta.
  cbn [startTime matchDuration playerCount gameOverCount players beginPhaseActive
       mulliganActive turnStartTime matchLog entities missingEntityIds].
  assert (Hm : merge (ents !! pe_entityId entity) entity = m).
  { subst ents. rewrite lookup_insert_eq. apply merge_idem. }
  rewrite Hm.
  assert (He : <[pe_entityId entity := m]> ents = ents).
  { subst ents. apply insert_insert_eq. }
  rewrite He.
  f_equal.
  - rewrite <- list_fmap_compose. apply list_fmap_ext.
    intros i p _. simpl.
    rewrite <- list_fmap_compose.
    erewrite (list_fmap_ext (refresh_card ents (pe_entityId entity)
                             ∘ refresh_card ents (pe_entityId entity)));
      [destruct p; reflexivity|].
    intros j c _. apply refresh_card_idem.
  - destruct (isEmpty (Some (ce_cardName m))) eqn:Hem; simpl; [reflexivity|].
    destruct (negb _); [reflexivity|].
    rewrite <- list_fmap_compose. apply list_fmap_ext.
    intros i e _. simpl. by apply patch_entry_idem.
Qed.

Lemma pending_source_missing (id : number) (entry : MatchLogEntry) :
  pending id (ml_source entry) = true -> id ∈ missing_of_entry entry.
Proof.
  unfold pending, missing_of_entry. intros H.
  apply andb_prop in H as [He Hs]. apply strict_eq_true in Hs.
  rewrite He. apply elem_of_union_l, elem_of_singleton. by symmetry.
Qed.

Lemma pending_target_missing (id : number) (entry : MatchLogEntry) (target : EntityProps) :
  target ∈ ml_targets entry -> pending id target = true -> id ∈ missing_of_entry entry.
Proof.
  unfold pending, missing_of_entry. intros Hin H.
  apply andb_prop in H as [He Hs]. apply strict_eq_true in Hs.
  apply elem_of_union_r, elem_of_list_to_set, list_elem_of_fmap.
  exists target. split; [done|]. by apply list_elem_of_filter.
Qed.

Lemma foldl_missing_grows (entries : list MatchLogEntry) (acc : gset number) :
  acc ⊆ foldl (fun acc entry => acc ∪ missing_of_entry entry) acc entries /\
  forall entry, entry ∈ entries ->
    missing_of_entry entry ⊆ foldl (fun acc entry => acc ∪ missing_of_entry entry) acc entries.
Proof.
  revert acc. induction entries as [|e entries IH]; intros acc; simpl.
  - split; [done|]. intros entry H. by apply elem_of_nil in H.
  - destruct (IH (acc ∪ missing_of_entry e)) as [H1 H2]. split.
    + etrans; [|exact H1]. apply union_subseteq_l.
    + intros entry H. apply elem_of_cons in H as [->|H]; [|auto].
      etrans; [|exact H1]. apply union_subseteq_r.
Qed.

(** The invariant of the log holds at the start and [addMatchLogEntry]
    keeps it. *)
Lemma log_tracked_new : log_tracked new_GameState.
Proof. intros entry H. by apply elem_of_nil in H. Qed.

Lemma log_tracked_addMatchLogEntry (entries : list MatchLogEntry) (s : GameState) :
  log_tracked s -> log_tracked (addMatchLogEntry entries s).
Proof.
  intros Hs entry. unfold addMatchLogEntry; simpl.
  destruct (foldl_missing_grows entries (missingEntityIds s)) as [H1 H2].
  intros H. apply elem_of_app in H as [H|H].
  - etrans; [by apply Hs|exact H1].
  - by apply H2.
Qed.

Lemma log_tracked_ext (s s' : GameState) :
  matchLog s' = matchLog s -> missingEntityIds s' = missingEntityIds s ->
  log_tracked s -> log_tracked s'.
Proof. unfold log_tracked. intros -> ->. auto. Qed.

Lemma missing_of_patch_entry (m : CardEntity) (entry : MatchLogEntry) :
  isEmpty (Some (ce_cardName m)) = false ->
  missing_of_entry (patch_entry m entry) ⊆ missing_of_entry entry.
Proof.
  intros Hm x. unfold missing_of_entry, patch_entry.
  cbn [ml_source ml_targets]. rewrite !elem_of_union. intros [H|H].
  - left. rewrite patch_props_pending in H.
    destruct (pending (ce_entityId m) (ml_source entry)); [|exact H].
    unfold spread_newProps in H. cbn [ep_cardName] in H. rewrite Hm in H.
    by apply elem_of_empty in H.
  - right. apply elem_of_list_to_set, list_elem_of_fmap in H as (t' & -> & H).
    apply list_elem_of_filter in H as [He H].
    apply list_elem_of_fmap in H as (t & -> & Ht).
    rewrite patch_props_pending in He |- *.
    destruct (pending (ce_entityId m) t).
    + unfold spread_newProps in He. cbn [ep_cardName] in He. congruence.
    + apply elem_of_list_to_set, list_elem_of_fmap. exists t. split; [done|].
      by apply list_elem_of_filter.
Qed.

Lemma log_tracked_resolveEntity (entity : PartialCardEntity) (s : GameState) :
  log_tracked s -> log_tracked (resolveEntity entity s).
Proof.
  intros Hs. rewrite resolveEntity_unfold. cbv zeta.
  set (m := merge (entities s !! pe_entityId entity) entity).
  intros entry. cbn [matchLog missingEntityIds].
  destruct (isEmpty (Some (ce_cardName m))) eqn:Hm; [by apply Hs|].
  destruct (negb _); [by apply Hs|]. simpl.
  intros H. apply list_elem_of_fmap in H as (e0 & -> & H0).
  etrans; [by apply missing_of_patch_entry|by apply Hs].
Qed.

Lemma snapshot_patched_patch_props (m : CardEntity) (old : EntityProps) :
  isEmpty (Some (ce_cardName m)) = false ->
  snapshot_patched (ce_entityId m) m old (patch_props m old).
Proof.
  intros Hm. unfold snapshot_patched. rewrite patch_props_pending.
  destruct (pending (ce_entityId m) old) eqn:Hp.
  - split; [by repeat split|].
    unfold pending, spread_newProps. cbn [ep_cardName]. by rewrite Hm.
  - done.
Qed.

(** C2, as the code has it.  In a state whose log was fed through
    [addMatchLogEntry], resolving entity [E] with a fact that carries a
    non-empty name writes the resolved triple over every source and
    target snapshot that referred to [E] by an empty or sentinel name and
    leaves the other snapshots alone, after which no snapshot refers to
    [E] by such a name; every card of [E], in both players' collections,
    receives the tags derived from the merged entity when it has some,
    and keeps the tags it had when the merged entity has none; and
    resolving again with the same fact changes nothing. *)
Theorem C2_resolveEntity_patches_log_and_cards (entity : PartialCardEntity)
    (s : GameState) (name : string) :
  log_tracked s ->
  pe_cardName entity = Some name ->
  isEmpty (Some name) = false ->
  let id := pe_entityId entity in
  let m := merge (entities s !! id) entity in
  let s' := resolveEntity entity s in
  ce_entityId m = id /\ ce_cardName m = name /\
  Forall2 (fun old new =>
             ml_type new = ml_type old /\ ml_manaSpent new = ml_manaSpent old /\
             snapshot_patched id m (ml_source old) (ml_source new) /\
             Forall2 (snapshot_patched id m) (ml_targets old) (ml_targets new))
    (matchLog s) (matchLog s') /\
  Forall2 (fun p p' =>
             same_player_but_cards p p' /\
             Forall2 (card_refreshed id m) (p_cards p) (p_cards p'))
    (players s) (players s') /\
  resolveEntity entity s' = s'.
Proof.
  intros Htr Hname Hne id m s'.
  assert (Hid : ce_entityId m = id) by reflexivity.
  assert (Hn : ce_cardName m = name) by (subst m; unfold merge; simpl; by rewrite Hname).
  assert (Hm : isEmpty (Some (ce_cardName m)) = false) by (by rewrite Hn).
  split; [exact Hid|]. split; [exact Hn|].
  assert (Hlog : matchLog s' = patch_entry m <$> matchLog s).
  { subst s'. rewrite resolveEntity_unfold. cbv zeta. cbn [matchLog]. fold id. fold m.
    rewrite Hm. simpl.
    destruct (bool_decide (id ∈ missingEntityIds s)) eqn:Hin; simpl; [reflexivity|].
    apply bool_decide_eq_false in Hin.
    rewrite <- (list_fmap_id (matchLog s)) at 1. apply list_fmap_ext.
    intros i entry Hi. simpl.
    assert (Hentry : entry ∈ matchLog s) by (eapply list_elem_of_lookup_2; eauto).
    destruct entry as [ty ms src tgs]. unfold patch_entry; simpl. f_equal.
    - rewrite patch_props_pending, Hid.
      destruct (pending id src) eqn:Hp; [|reflexivity].
      exfalso. apply Hin. apply (Htr _ Hentry).
      by apply (pending_source_missing id (mkMatchLogEntry ty ms src tgs)).
    - rewrite <- (list_fmap_id tgs) at 1. apply list_fmap_ext.
      intros j t Hj. simpl. rewrite patch_props_pending, Hid.
      destruct (pending id t) eqn:Hp; [|reflexivity].
      exfalso. apply Hin. apply (Htr _ Hentry).
      apply (pending_target_missing id (mkMatchLogEntry ty ms src tgs) t); [|done].
      simpl. eapply list_elem_of_lookup_2; eauto. }
  split; [|split].
  - rewrite Hlog. apply Forall2_fmap_r, Forall_Forall2_diag, Forall_true.
    intros entry. unfold patch_entry; simpl.
    split; [reflexivity|]. split; [reflexivity|].
    rewrite <- Hid.
    split; [by apply snapshot_patched_patch_props|].
    apply Forall2_fmap_r, Forall_Forall2_diag, Forall_true.
    intros t. by apply snapshot_patched_patch_props.
  - subst s'. rewrite resolveEntity_unfold. cbv zeta. cbn [players]. fold id. fold m.
    apply Forall2_fmap_r, Forall_Forall2_diag, Forall_true.
    intros p. split; [destruct p; reflexivity|].
    cbn [p_cards set_p_cards].
    apply Forall2_fmap_r, Forall_Forall2_diag, Forall_true.
    intros c. unfold compose, card_refreshed, refresh_card. subst id.
    destruct (strict_eq (c_entityId c) (pe_entityId entity)) eqn:Hc; [|reflexivity].
    apply strict_eq_true in Hc. rewrite Hc, lookup_insert_eq.
    destruct (identifySpecialTags (Some m)); reflexivity.
  - apply resolveEntity_idempotent.
Qed.

Lemma C2_resolveEntity_patches_log_and_cards_witness :
  let id := Int 7 in
  let m := merge (entities corruptible_logged !! id) corruptible_named in
  let s' := resolveEntity corruptible_named corruptible_logged in
  ce_entityId m = id /\ ce_cardName m = "Fleethoof Pearltusk" /\
  Forall2 (fun old new =>
             ml_type new = ml_type old /\ ml_manaSpent new = ml_manaSpent old /\
             snapshot_patched id m (ml_source old) (ml_source new) /\
             Forall2 (snapshot_patched id m) (ml_targets old) (ml_targets new))
    (matchLog corruptible_logged) (matchLog s') /\
  Forall2 (fun p p' =>
             same_player_but_cards p p' /\
             Forall2 (card_refreshed id m) (p_cards p) (p_cards p'))
    (players corruptible_logged) (players s') /\
  resolveEntity corruptible_named s' = s'.
Proof.
  apply (C2_resolveEntity_patches_log_and_cards corruptible_named corruptible_logged
           "Fleethoof Pearltusk").
  - apply log_tracked_addMatchLogEntry.
    apply (log_tracked_ext new_GameState); [vm_compute; reflexivity..|].
    apply log_tracked_new.
  - reflexivity.
  - vm_compute. reflexivity.
Defined.

(** C2, the claim as stated fails for the cards.  Alice's card of entity
    7 carries the tag can-corrupt, derived when the entity had
    CORRUPT=1.  The fact that names the entity carries CORRUPT=0: the
    merged entity has no derived tag any more, the log entry is patched,
    and the card keeps can-corrupt, because [resolveEntity] assigns the
    derived tags only when there are some. *)
Lemma C2_stale_card_tags :
  let s' := resolveEntity corruptible_named corruptible_logged in
  (c_tags <$> (players corruptible_logged !! O ≫= fun p => p_cards p !! O))
    = Some [can_corrupt] /\
  (ep_cardName ∘ ml_source <$> matchLog s') = ["Fleethoof Pearltusk"] /\
  identifySpecialTags (entities s' !! Int 7) = None /\
  (c_tags <$> (players s' !! O ≫= fun p => p_cards p !! O)) = Some [can_corrupt].
Proof. repeat split; vm_compute; reflexivity. Qed.

(** ** Soft data-misses *)

Lemma fmap_alter_preserved {A B : Type} (f : A -> B) (g : A -> A) (i : nat) (l : list A) :
  (forall x, f (g x) = f x) -> f <$> alter g i l = f <$> l.
Proof.
  intros H. revert i. induction l as [|x l IH]; intros [|i]; try reflexivity.
  - simpl. by rewrite H.
  - change (alter g (S i) (x :: l)) with (x :: alter g i l).
    rewrite !fmap_cons, IH. reflexivity.
Qed.

Lemma close_last_turn_of_status (c : nat) (gs : GameState) (clk : Clock) :
  p_status <$> players (fst (close_last_turn_of c gs clk)) = p_status <$> players gs.
Proof.
  unfold close_last_turn_of. destruct (players gs !! c) as [p|]; [|reflexivity].
  destruct (close_last_turn (p_turnHistory p) clk) as [h clk1]. simpl.
  by apply fmap_alter_preserved.
Qed.

(** C9, as the code has it: a zone-change whose card id is not in the
    table, or whose player id, or that player's opponent, is not
    registered, a turn-change or a mulligan-result that names an
    unregistered player, and a quest-progress tag-change for an
    unregistered player or an unknown quest, all return [false] and leave
    the game state and the clock exactly as they were.  game-over does
    not: for an unregistered player name it skips the assignment of the
    status and nothing else, so it still raises [gameOverCount] and
    returns [true]. *)
Theorem C9_soft_miss_aborts_except_game_over (data : StaticData) (fact : Fact)
    (gs : GameState) (clk : Clock) :
  data_miss data gs fact ->
  if is_game_over fact then
    exists gs' clk',
      apply_fact data fact gs clk = (true, gs', clk') /\
      gameOverCount gs' = gameOverCount gs + 1 /\
      p_status <$> players gs' = p_status <$> players gs
  else apply_fact data fact gs clk = (false, gs, clk).
Proof.
  destruct fact as [cardId cardName playerId entityId from to | playerName turn
                   | name cardsLeft | tag value playerId entityId | playerName status];
    simpl; intros H.
  - unfold zoneChange.
    destruct (cardData data cardId) as [raw|]; [|reflexivity].
    destruct (getPlayerById gs playerId) as [i|]; [|reflexivity].
    destruct H as [H|[H|H]]; try discriminate.
    simpl in H. rewrite H. reflexivity.
  - unfold turnChange. by rewrite H.
  - unfold mulliganResult. rewrite H. by destruct (negb (mulliganActive gs)).
  - destruct H as [-> H]. unfold tagChange. simpl.
    destruct (getPlayerById gs playerId) as [i|]; [|reflexivity]. simpl in H.
    destruct (players gs !! i) as [player|]; [|reflexivity]. simpl in H.
    by rewrite H.
  - unfold gameOver. rewrite H.
    cbn [gameOverCount set_gameOverCount].
    destruct (Z.leb 2 (gameOverCount gs + 1)).
    + set (gs2 := set_gameOverCount (gameOverCount gs + 1) gs).
      change (players gs2) with (players gs).
      destruct (find_idx p_turn (players gs)) as [c|].
      * pose proof (close_last_turn_of_status c gs2 clk) as Hs.
        destruct (close_last_turn_of_spec c gs2 clk) as (gs3 & clk3 & E & _ & Hc & _).
        rewrite E in Hs |- *. simpl in Hs.
        eexists _, _. split; [reflexivity|]. simpl. split; [by rewrite Hc|exact Hs].
      * eexists _, _. split; [reflexivity|]. split; reflexivity.
    + eexists _, _. split; [reflexivity|]. split; reflexivity.
Qed.

Lemma C9_soft_miss_aborts_except_game_over_witness :
  apply_fact example_data
    (ZoneChangeFact "NO_SUCH_CARD" "Mystery" (Int 1) (Int 23)
       (mkTeamZone (Some Team_Friendly) Zone_Deck) (mkTeamZone (Some Team_Friendly) Zone_Hand))
    two_players clock0
  = (false, two_players, clock0).
Proof.
  apply (C9_soft_miss_aborts_except_game_over example_data
           (ZoneChangeFact "NO_SUCH_CARD" "Mystery" (Int 1) (Int 23)
              (mkTeamZone (Some Team_Friendly) Zone_Deck)
              (mkTeamZone (Some Team_Friendly) Zone_Hand))
           two_players clock0).
  left. vm_compute. reflexivity.
Defined.

(** C9, the claim as stated fails for game-over: no player is named
    Carol, and the handler still returns [true] and counts the line. *)
Lemma C9_game_over_counts_unregistered_player :
  getPlayerByName two_players "Carol" = None /\
  gameOver "Carol" "WON" two_players clock0
    = (true, set_gameOverCount 1 two_players, clock0) /\
  gameOverCount (set_gameOverCount 1 two_players) <> gameOverCount two_players.
Proof.
  split; [vm_compute; reflexivity|].
  split; [vm_compute; reflexivity|].
  vm_compute. discriminate.
Qed.

(** ** Cards and zones *)

Lemma strict_eq_sym (a b : number) : strict_eq a b = strict_eq b a.
Proof. destruct a, b; simpl; try reflexivity. apply Z.eqb_sym. Qed.

Section PutCards.

Variables (cardList : list Card) (entityId : number) (cardId : option Z)
  (cardName : option string) (isSpawnedCard : option bool) (state : option CardState).

Lemma upd_entityId (card : Card) :
  c_entityId (update_card cardId cardName state card) = c_entityId card.
Proof.
  unfold update_card. destruct (truthy_oint cardId), (truthy_ostring cardName), state; reflexivity.
Qed.


Lemma putCards_cases :
  (exists i card,
      find_idx (fun c => strict_eq (c_entityId c) entityId) cardList = Some i /\
      cardList !! i = Some card /\ strict_eq (c_entityId card) entityId = true /\
      putCards cardList entityId cardId cardName isSpawnedCard state
        = alter (update_card cardId cardName state) i cardList) \/
  (find_idx (fun c => strict_eq (c_entityId c) entityId) cardList = None /\
   putCards cardList entityId cardId cardName isSpawnedCard state
     = match state, isSpawnedCard with
       | Some st, Some spawned =>
           cardList ++ [mkCard entityId cardId cardName st spawned []]
       | _, _ => cardList
       end).
Proof.
  unfold putCards.
  destruct (find_idx _ cardList) as [i|] eqn:Hf.
  - left. destruct (find_idx_Some _ _ _ Hf) as (card & Hc & Hs).
    exists i, card. auto.
  - right. auto.
Qed.





End PutCards.










(** What a zone-change that goes through does, step by step. *)
Lemma zoneChange_true (data : StaticData) (cardId cardName : string)
    (playerId entityId : number) (from to : TeamZone) (gs gs' : GameState)
    (clk clk' : Clock) :
  zoneChange data cardId cardName playerId entityId from to gs clk = (true, gs', clk') ->
  exists raw player opponentPlayer,
    cardData data cardId = Some raw /\
    getPlayerById gs playerId = Some player /\
    (players gs !! player ≫= getOpponentPlayer gs) = Some opponentPlayer /\
    enter_zone data cardId cardName (dbfId raw) entityId to
      (leave_zone data cardId cardName (dbfId raw) entityId from
         (assign_positions player opponentPlayer to gs)) clk = (gs', clk').
Proof.
  unfold zoneChange. intros H.
  destruct (cardData data cardId) as [raw|]; [|discriminate].
  destruct (getPlayerById gs playerId) as [player|]; [|discriminate].
  destruct (players gs !! player ≫= getOpponentPlayer gs) as [opp|] eqn:Ho; [|discriminate].
  cbv zeta in H.
  destruct (enter_zone _ _ _ _ _ _ _ _) as [gs3 clk3] eqn:He.
  injection H as <- <-. exists raw, player, opp. auto.
Qed.

Lemma zoneChange_false (data : StaticData) (cardId cardName : string)
    (playerId entityId : number) (from to : TeamZone) (gs gs' : GameState)
    (clk clk' : Clock) :
  zoneChange data cardId cardName playerId entityId from to gs clk = (false, gs', clk') ->
  gs' = gs /\ clk' = clk.
Proof.
  unfold zoneChange. intros H.
  destruct (cardData data cardId) as [raw|]; [|by injection H].
  destruct (getPlayerById gs playerId) as [player|]; [|by injection H].
  destruct (players gs !! player ≫= getOpponentPlayer gs) as [opp|]; [|by injection H].
  cbv zeta in H.
  destruct (enter_zone _ _ _ _ _ _ _ _) as [gs3 clk3]. discriminate.
Qed.



Lemma find_idx_fmap {A B : Type} (f : B -> bool) (g : A -> B) (l : list A) :
  find_idx f (g <$> l) = find_idx (fun x => f (g x)) l.
Proof.
  induction l as [|x l IH]; [reflexivity|].
  rewrite fmap_cons. cbn [find_idx]. by rewrite IH.
Qed.

Lemma getPlayerByTeam_positions (s s' : GameState) (tm : option Team) :
  p_position <$> players s' = p_position <$> players s ->
  getPlayerByTeam s' tm = getPlayerByTeam s tm.
Proof.
  intros H. unfold getPlayerByTeam, getPlayerByPosition.
  destruct tm as [[]|]; [| |reflexivity].
  - transitivity (find_idx (fun pos => bool_decide (pos = bottom))
                    (p_position <$> players s'));
      [symmetry; apply find_idx_fmap|].
    rewrite H. apply find_idx_fmap.
  - transitivity (find_idx (fun pos => bool_decide (pos = top))
                    (p_position <$> players s'));
      [symmetry; apply find_idx_fmap|].
    rewrite H. apply find_idx_fmap.
Qed.

Ltac same_projection :=
  repeat first
    [ reflexivity
    | match goal with
      | |- _ <$> players (if ?c then _ else _) = _ => destruct c
      | |- _ <$> players (match ?o with Some _ => _ | None => _ end) = _ => destruct o
      | |- _ <$> players (update_player _ _ _) = _ =>
          rewrite players_update_player, fmap_alter_preserved; [|reflexivity]
      end ].

Lemma positions_leave_zone (data : StaticData) (cardId cardName : string) (cardDbfId : Z)
    (entityId : number) (from : TeamZone) (gs : GameState) :
  p_position <$> players (leave_zone data cardId cardName cardDbfId entityId from gs)
  = p_position <$> players gs.
Proof. unfold leave_zone. cbv zeta. same_projection. Qed.

Lemma positions_enter_zone (data : StaticData) (cardId cardName : string) (cardDbfId : Z)
    (entityId : number) (to : TeamZone) (gs : GameState) (clk : Clock) :
  p_position <$> players (fst (enter_zone data cardId cardName cardDbfId entityId to gs clk))
  = p_position <$> players gs.
Proof.
  unfold enter_zone, Date_now. cbv zeta.
  destruct (getPlayerByTeam gs (team to)) as [t|]; [|reflexivity].
  destruct (decide (zone to = Zone_Secret)); [|cbn [fst]; same_projection].
  destruct (questMap data cardId), (secretToClass data cardId); cbn [fst]; same_projection.
Qed.










(** * Further properties *)

(** ** readLogFile on a file that grew *)

Lemma splitLines_cons (text : string) : exists l ls, splitLines text = l :: ls.
Proof.
  induction text as [|c rest (l & ls & IH)]; [by eexists _, _|].
  simpl. rewrite IH.
  destruct (Ascii.eqb c char_LF); [by eexists _, _|].
  destruct (_ && _); by eexists _, _.
Qed.

Lemma join_lines_cons (l l' : string) (ls : list string) :
  join_lines (l :: l' :: ls) = (l ++ String char_LF (join_lines (l' :: ls)))%string.
Proof. reflexivity. Qed.

(** Joining the lines of a text without carriage returns gives the text
    back. *)
Lemma join_splitLines (text : string) :
  has_char char_CR text = false -> join_lines (splitLines text) = text.
Proof.
  induction text as [|c rest IH]; [reflexivity|].
  cbn [has_char]. intros H. apply orb_false_elim in H as [Hc Hrest].
  specialize (IH Hrest). cbn [splitLines].
  destruct (splitLines_cons rest) as (l & ls & E). rewrite E in IH |- *.
  rewrite Hc. cbn [andb].
  destruct (Ascii.eqb c char_LF) eqn:Hlf.
  - apply Ascii.eqb_eq in Hlf. subst c.
    rewrite join_lines_cons, append_nil_l, IH. reflexivity.
  - destruct ls as [|l' ls].
    + simpl in IH |- *. by rewrite IH.
    + rewrite join_lines_cons, append_cons_l, <- join_lines_cons, IH. reflexivity.
Qed.

Lemma has_char_append (c : ascii) (a b : string) :
  has_char c (a ++ b)%string = has_char c a || has_char c b.
Proof.
  induction a as [|d a IH]; [by rewrite append_nil_l|].
  rewrite append_cons_l. cbn [has_char]. rewrite IH. by rewrite orb_assoc.
Qed.

Lemma has_char_drop_string (c : ascii) (n : nat) (s : string) :
  has_char c s = false -> has_char c (drop_string n s) = false.
Proof.
  revert n. induction s as [|d s IH]; intros [|n] H; try exact H.
  cbn [has_char] in H. apply orb_false_elim in H as [_ H]. simpl. by apply IH.
Qed.

Lemma has_char_take_string (c : ascii) (n : nat) (s : string) :
  has_char c s = false -> has_char c (take_string n s) = false.
Proof.
  revert n. induction s as [|d s IH]; intros [|n] H; try reflexivity.
  cbn [has_char] in H. apply orb_false_elim in H as [Hd H]. simpl.
  rewrite Hd. by apply IH.
Qed.

Lemma has_char_CR_zeros (n : nat) : has_char char_CR (zeros n) = false.
Proof. induction n as [|n IH]; [reflexivity|]. simpl. exact IH. Qed.

Lemma drop_string_zeros (k n : nat) : drop_string k (zeros n) = zeros (n - k).
Proof.
  revert k. induction n as [|n IH]; intros [|k]; try reflexivity. simpl. apply IH.
Qed.

Lemma length_take_string (n : nat) (s : string) :
  String.length (take_string n s) = Nat.min n (String.length s).
Proof.
  revert n. induction s as [|d s IH]; intros [|n]; try reflexivity. simpl. by rewrite IH.
Qed.

Lemma length_drop_string (n : nat) (s : string) :
  String.length (drop_string n s) = (String.length s - n)%nat.
Proof.
  revert n. induction s as [|d s IH]; intros [|n]; try reflexivity. simpl. by rewrite IH.
Qed.

Lemma take_string_add (n m : nat) (s : string) :
  take_string (n + m) s = (take_string n s ++ take_string m (drop_string n s))%string.
Proof.
  revert s. induction n as [|n IH]; intros s.
  - simpl. rewrite append_nil_l. by destruct m, s.
  - destruct s as [|d s]; [by destruct m|].
    simpl. rewrite append_cons_l, IH. reflexivity.
Qed.

Lemma drop_string_add (n m : nat) (s : string) :
  drop_string (n + m) s = drop_string m (drop_string n s).
Proof.
  revert s. induction n as [|n IH]; intros s; [reflexivity|].
  destruct s as [|d s]; [by destruct m|]. simpl. apply IH.
Qed.

Lemma readLogFile_forward (file : string) (startByte endByte : Z) :
  0 <= startByte <= endByte ->
  readLogFile file startByte endByte =
  splitLines (window file startByte endByte ++
              zeros (Z.to_nat (endByte - startByte)
                     - String.length (window file startByte endByte)))%string.
Proof.
  intros H. unfold readLogFile, fs_read, Buffer_alloc, window.
  assert (Z.ltb (endByte - startByte) 0 = false) as -> by (apply Z.ltb_ge; lia).
  by rewrite drop_string_zeros.
Qed.

(** The lines of a forward read, joined again, are the window of the
    file and the rest of the zero-filled buffer. *)
Lemma readLogFile_range (file : string) (startByte endByte : Z) :
  0 <= startByte <= endByte ->
  has_char char_CR file = false ->
  join_lines (readLogFile file startByte endByte) =
    (window file startByte endByte ++
     zeros (Z.to_nat (endByte - startByte)
            - String.length (window file startByte endByte)))%string /\
  (endByte <= Z.of_nat (String.length file) ->
   join_lines (readLogFile file startByte endByte) = window file startByte endByte /\
   Z.of_nat (String.length (window file startByte endByte)) = endByte - startByte).
Proof.
  intros H Hcr.
  assert (Hw : has_char char_CR (window file startByte endByte) = false).
  { unfold window. by apply has_char_take_string, has_char_drop_string. }
  assert (E : join_lines (readLogFile file startByte endByte) =
              (window file startByte endByte ++
               zeros (Z.to_nat (endByte - startByte)
                      - String.length (window file startByte endByte)))%string).
  { rewrite readLogFile_forward by done. apply join_splitLines.
    by rewrite has_char_append, Hw, has_char_CR_zeros. }
  split; [exact E|]. intros Hlen.
  assert (L : String.length (window file startByte endByte)
              = Z.to_nat (endByte - startByte)).
  { unfold window. rewrite length_take_string, length_drop_string. lia. }
  split; [|lia].
  rewrite E, L, Nat.sub_diag. simpl.
  clear. induction (window file startByte endByte) as [|c s IH]; [reflexivity|].
  rewrite append_cons_l. by rewrite IH.
Qed.

(** X1.  A read of a range that lies ahead ([startByte <= endByte]) of
    an ASCII file without carriage returns delivers, line by line,
    exactly the bytes of the range: joined again with line feeds, the
    lines are the bytes from [startByte] to [endByte], followed by one
    NUL for every byte of the range that the file does not have; when
    the file has the whole range, they are the bytes of the range and
    nothing else. *)
Theorem readLogFile_delivers_range (file : string) (startByte endByte : Z) :
  0 <= startByte <= endByte ->
  all_ascii file = true ->
  has_char char_CR file = false ->
  join_lines (readLogFile file startByte endByte) =
    (window file startByte endByte ++
     zeros (Z.to_nat (endByte - startByte)
            - String.length (window file startByte endByte)))%string /\
  (endByte <= Z.of_nat (String.length file) ->
   join_lines (readLogFile file startByte endByte) = window file startByte endByte /\
   Z.of_nat (String.length (window file startByte endByte)) = endByte - startByte).
Proof. intros H _ Hcr. by apply readLogFile_range. Qed.

Lemma readLogFile_delivers_range_witness :
  join_lines (readLogFile shrunk_file 3 6) =
    (window shrunk_file 3 6 ++
     zeros (Z.to_nat (6 - 3) - String.length (window shrunk_file 3 6)))%string /\
  (6 <= Z.of_nat (String.length shrunk_file) ->
   join_lines (readLogFile shrunk_file 3 6) = window shrunk_file 3 6 /\
   Z.of_nat (String.length (window shrunk_file 3 6)) = 6 - 3).
Proof.
  apply (readLogFile_delivers_range shrunk_file 3 6);
    [lia|vm_compute; reflexivity|vm_compute; reflexivity].
Defined.

(** X2.  Two reads in a row deliver what one read of the joined range
    delivers: no byte of an ASCII file without carriage returns is lost
    or delivered twice when the file grows in two steps. *)
Theorem readLogFile_consecutive_reads (file : string) (a b c : Z) :
  0 <= a <= b -> b <= c <= Z.of_nat (String.length file) ->
  all_ascii file = true ->
  has_char char_CR file = false ->
  (join_lines (readLogFile file a b) ++ join_lines (readLogFile file b c))%string
  = join_lines (readLogFile file a c).
Proof.
  intros Hab Hbc _ Hcr.
  destruct (readLogFile_range file a b ltac:(lia) Hcr) as [_ H1].
  destruct (readLogFile_range file b c ltac:(lia) Hcr) as [_ H2].
  destruct (readLogFile_range file a c ltac:(lia) Hcr) as [_ H3].
  destruct (H1 ltac:(lia)) as [-> _]. destruct (H2 ltac:(lia)) as [-> _].
  destruct (H3 ltac:(lia)) as [-> _].
  unfold window.
  replace (Z.to_nat (c - a)) with (Z.to_nat (b - a) + Z.to_nat (c - b))%nat by lia.
  rewrite take_string_add. f_equal. f_equal.
  rewrite <- drop_string_add. f_equal. lia.
Qed.

Lemma readLogFile_consecutive_reads_witness :
  (join_lines (readLogFile shrunk_file 0 3) ++ join_lines (readLogFile shrunk_file 3 6))%string
  = join_lines (readLogFile shrunk_file 0 6).
Proof.
  apply (readLogFile_consecutive_reads shrunk_file 0 3 6);
    [lia|simpl; lia|vm_compute; reflexivity|vm_compute; reflexivity].
Defined.

(** ** update and the size of the chunks *)

Lemma parseLines_loop_world (parsers : list LineParser) (opts : Options)
    (lines : list string) (st : ParseLoop) :
  updated st = false ->
  loop_world (foldl (parseLines_step parsers opts) st lines)
  = foldl (fun w line => run_parsers parsers line w) (loop_world st) lines.
Proof.
  revert st. induction lines as [|line lines IH]; intros st H; [reflexivity|].
  cbn [foldl].
  assert (Hstep : updated (parseLines_step parsers opts st line) = false /\
                  loop_world (parseLines_step parsers opts st line)
                  = run_parsers parsers line (loop_world st)).
  { unfold parseLines_step. rewrite H. simpl. auto. }
  destruct Hstep as [Hu Hw]. rewrite (IH _ Hu), Hw. reflexivity.
Qed.

(** What [parseLines] comes to: the lines are run through the parsers in
    order, and nothing else of the watcher changes. *)
Lemma parseLines_eq (parsers : list LineParser) (lines : list string) (lw : LogWatcher) :
  parseLines parsers lines lw =
  mkLogWatcher (foldl (fun w line => run_parsers parsers line w) (world lw) lines)
    (options lw) (lastFileSize lw) (emitted lw).
Proof.
  pose proof (parseLines_emits_nothing parsers lines lw) as He.
  unfold parseLines in *. cbv zeta in *. cbn [emitted] in He.
  rewrite He. f_equal. by rewrite parseLines_loop_world.
Qed.

Lemma concat_chunk_fuel (fuel size : nat) (lines : list string) :
  (1 <= size)%nat -> (length lines <= fuel)%nat ->
  concat (chunk_fuel fuel size lines) = lines.
Proof.
  intros Hs. revert lines. induction fuel as [|fuel IH]; intros lines Hl.
  - destruct lines; [reflexivity|simpl in Hl; lia].
  - destruct lines as [|l lines]; [reflexivity|].
    cbn [chunk_fuel concat]. rewrite IH.
    + apply take_drop.
    + rewrite length_drop. simpl in *. lia.
Qed.

Lemma foldl_parseLines_chunks (parsers : list LineParser) (chunks : list (list string))
    (lw : LogWatcher) :
  foldl (fun lw chunk => parseLines parsers chunk lw) lw chunks
  = parseLines parsers (concat chunks) lw.
Proof.
  revert lw. induction chunks as [|ch chunks IH]; intros lw.
  - simpl. rewrite parseLines_eq. by destruct lw.
  - cbn [foldl concat]. rewrite IH, !parseLines_eq. cbn [world options lastFileSize emitted].
    by rewrite foldl_app.
Qed.

(** X3.  Cutting the batch into chunks of [linesPerUpdate] lines changes
    nothing that can be observed: with any chunk size of one or more,
    [update] leaves the same world, the same offset (the new size of the
    file) and the same events as without chunking. *)
Theorem update_chunking_unobservable (parsers : list LineParser) (file : string)
    (size n : Z) (lw : LogWatcher) :
  1 <= n ->
  let chunked := update parsers file size (with_linesPerUpdate (Some n) lw) in
  let whole := update parsers file size (with_linesPerUpdate None lw) in
  world chunked = world whole /\
  emitted chunked = emitted whole /\
  lastFileSize chunked = size /\ lastFileSize whole = size.
Proof.
  intros Hn. unfold update, with_linesPerUpdate.
  cbn [world options lastFileSize emitted linesPerUpdate truthy_oint default from_option id].
  assert (Z.eqb n 0 = false) as -> by (apply Z.eqb_neq; lia). cbn [negb].
  rewrite foldl_parseLines_chunks. unfold chunk.
  assert (Z.ltb n 1 = false) as -> by (apply Z.ltb_ge; lia).
  rewrite concat_chunk_fuel by lia.
  rewrite !parseLines_eq. auto.
Qed.

Lemma update_chunking_unobservable_witness :
  let chunked :=
    update (lineParsers example_data) shrunk_file 6 (with_linesPerUpdate (Some 2) watcher0) in
  let whole :=
    update (lineParsers example_data) shrunk_file 6 (with_linesPerUpdate None watcher0) in
  world chunked = world whole /\
  emitted chunked = emitted whole /\
  lastFileSize chunked = 6 /\ lastFileSize whole = 6.
Proof.
  apply (update_chunking_unobservable (lineParsers example_data) shrunk_file 6 2 watcher0).
  lia.
Defined.

(** X4.  With a negative [linesPerUpdate] the option is truthy and
    [_.chunk] returns no chunk at all: [update] advances the offset to
    the new size and parses none of the lines it has read. *)
Theorem update_negative_chunk_size_drops_lines (parsers : list LineParser) (file : string)
    (size n : Z) (lw : LogWatcher) :
  n < 0 ->
  update parsers file size (with_linesPerUpdate (Some n) lw)
  = mkLogWatcher (world lw) (options (with_linesPerUpdate (Some n) lw)) size (emitted lw).
Proof.
  intros Hn. unfold update, with_linesPerUpdate.
  cbn [world options lastFileSize emitted linesPerUpdate truthy_oint default from_option id].
  assert (Z.eqb n 0 = false) as -> by (apply Z.eqb_neq; lia). cbn [negb].
  unfold chunk. assert (Z.ltb n 1 = true) as -> by (apply Z.ltb_lt; lia).
  reflexivity.
Qed.

Lemma update_negative_chunk_size_drops_lines_witness :
  update (lineParsers example_data) create_game_line_slashed 53
    (with_linesPerUpdate (Some (-1)) watcher0)
  = mkLogWatcher (world watcher0) (options (with_linesPerUpdate (Some (-1)) watcher0)) 53
      (emitted watcher0).
Proof.
  apply (update_negative_chunk_size_drops_lines (lineParsers example_data)
           create_game_line_slashed 53 (-1) watcher0).
  lia.
Defined.

(** ** Lines and the patterns built by makeFullRegex *)

Lemma rmatch_Seq {R : Type} (r1 r2 : regex) (s : string) (caps : Groups)
    (k : string -> Groups -> option R) :
  rmatch (Seq r1 r2) s caps k = rmatch r1 s caps (fun s' caps' => rmatch r2 s' caps' k).
Proof. reflexivity. Qed.

Lemma rmatch_Seq_continues {R : Type} (r1 r2 : regex) (s : string) (caps : Groups)
    (k : string -> Groups -> option R) (x : R) :
  rmatch (Seq r1 r2) s caps k = Some x ->
  exists s' caps', rmatch r2 s' caps' k = Some x.
Proof. rewrite rmatch_Seq. apply rmatch_continues. Qed.

Lemma exec_None (r : regex) (line : string) :
  (forall s, rmatch r s ∅ (fun _ caps => Some caps) = None) -> exec r line = None.
Proof.
  intros H. induction line as [|c line IH]; cbn [exec]; rewrite H; [reflexivity|exact IH].
Qed.

(** A match of a pattern built by [makeFullRegex] starts at a slash. *)
Lemma exec_needs_slash (label content : regex) (line : string) (g : Groups) :
  exec (makeFullRegex label content) line = Some g -> has_char char_slash line = true.
Proof.
  induction line as [|c line IH]; cbn [exec]; intros H.
  - destruct (rmatch _ _ _ _) eqn:Hm; [|discriminate]. discriminate Hm.
  - destruct (rmatch _ _ _ _) eqn:Hm.
    + unfold makeFullRegex in Hm. rewrite rmatch_Seq in Hm. cbn [rmatch strip_prefix] in Hm.
      cbn [has_char]. unfold char_slash.
      destruct (Ascii.eqb "/" c) eqn:E; [|discriminate].
      rewrite Ascii.eqb_sym, E. reflexivity.
    + cbn [has_char]. rewrite (IH H). apply orb_true_r.
Qed.

Lemma lineParserFactory_no_slash (label regex_ : regex) (h : Handler) (line : string)
    (gs : GameState) (clk : Clock) :
  has_char char_slash line = false ->
  lineParserFactory label regex_ h line gs clk = (false, gs, clk).
Proof.
  intros H. unfold lineParserFactory.
  destruct (exec (makeFullRegex label regex_) line) as [g|] eqn:E; [|reflexivity].
  apply exec_needs_slash in E. congruence.
Qed.

Lemma line_parser_no_slash (label regex_ : regex) (h : Handler) (line : string) (w : World) :
  has_char char_slash line = false ->
  line_parser (lineParserFactory label regex_ h) line w = (false, w).
Proof.
  intros H. unfold line_parser. rewrite lineParserFactory_no_slash by done.
  by destruct w.
Qed.

Lemma card_init_no_slash (line : string) (w : World) :
  has_char char_slash line = false -> card_init line w = (false, w).
Proof.
  intros H. unfold card_init. rewrite blockParser_never_forwards.
  destruct (exec _ line) as [g|] eqn:E.
  - apply exec_needs_slash in E. congruence.
  - by destruct w.
Qed.

(** X5.  Every pattern built by [makeFullRegex] begins with a slash (the
    one that [RegExp.prototype.toString] puts before the source of the
    label).  A line without a slash is therefore matched by no parser of
    the list: every parser returns [false] and the world stays as it is. *)
Theorem line_without_slash_matches_no_parser (data : StaticData) (line : string)
    (w : World) :
  has_char char_slash line = false ->
  parsers_report (lineParsers data) line w = false /\
  run_parsers (lineParsers data) line w = w.
Proof.
  intros H. unfold lineParsers.
  cbn [parsers_report run_parsers].
  rewrite !line_parser_no_slash, card_init_no_slash by done.
  auto.
Qed.

Lemma line_without_slash_matches_no_parser_witness :
  parsers_report (lineParsers example_data) create_game_line world0 = false /\
  run_parsers (lineParsers example_data) create_game_line world0 = world0.
Proof.
  apply (line_without_slash_matches_no_parser example_data create_game_line world0).
  vm_compute. reflexivity.
Defined.

(** X6.  The pattern of player-joined ends in [$], and [makeFullRegex]
    puts the closing slash of the content after it: the end of the line
    would have to be followed by a slash.  The player-joined parser
    matches no line whatever, returns [false] on every line and never
    registers a player. *)
Theorem player_joined_matches_no_line (label : regex) (line : string) (gs : GameState)
    (clk : Clock) :
  exec (makeFullRegex label regex_player_joined) line = None /\
  lineParserFactory label regex_player_joined player_joined line gs clk = (false, gs, clk).
Proof.
  assert (E : exec (makeFullRegex label regex_player_joined) line = None).
  { apply exec_None. intros s.
    destruct (rmatch _ s ∅ _) as [g|] eqn:H; [exfalso|reflexivity].
    unfold makeFullRegex in H.
    do 5 apply rmatch_Seq_continues in H as (? & ? & H).
    rewrite rmatch_Seq in H. unfold regex_player_joined, seqs in H.
    do 4 apply rmatch_Seq_continues in H as (? & ? & H).
    cbn [rmatch] in H.
    match type of H with match ?t with _ => _ end = _ => destruct t end; discriminate. }
  split; [exact E|]. unfold lineParserFactory. by rewrite E.
Qed.

(** ** The mulligan flag *)

Ltac same_flag :=
  repeat first
    [ reflexivity
    | progress cbn [mulliganActive update_player set_players set_gameOverCount
                    set_matchDuration set_turnStartTime set_beginPhaseActive fst snd]
    | match goal with
      | |- context [if ?c then _ else _] => destruct c
      | |- context [match ?o with Some _ => _ | None => _ end] => destruct o
      | |- context [let '(_, _) := ?p in _] => destruct p
      end ].

Lemma mulliganActive_close_last_turn_of (c : nat) (gs : GameState) (clk : Clock) :
  mulliganActive (fst (close_last_turn_of c gs clk)) = mulliganActive gs.
Proof.
  unfold close_last_turn_of. destruct (players gs !! c); [|reflexivity].
  destruct (close_last_turn _ _). reflexivity.
Qed.

Lemma mulliganActive_assign_positions (player opp : nat) (to : TeamZone) (gs : GameState) :
  mulliganActive (assign_positions player opp to gs) = mulliganActive gs.
Proof. unfold assign_positions. cbv zeta. same_flag. Qed.

Lemma mulliganActive_leave_zone (data : StaticData) (cardId cardName : string)
    (cardDbfId : Z) (entityId : number) (from : TeamZone) (gs : GameState) :
  mulliganActive (leave_zone data cardId cardName cardDbfId entityId from gs)
  = mulliganActive gs.
Proof. unfold leave_zone. cbv zeta. same_flag. Qed.

Lemma mulliganActive_enter_zone (data : StaticData) (cardId cardName : string)
    (cardDbfId : Z) (entityId : number) (to : TeamZone) (gs : GameState) (clk : Clock) :
  mulliganActive (fst (enter_zone data cardId cardName cardDbfId entityId to gs clk))
  = mulliganActive gs.
Proof.
  unfold enter_zone, Date_now. cbv zeta.
  destruct (getPlayerByTeam gs (team to)) as [t|]; [|reflexivity].
  destruct (decide (zone to = Zone_Secret)); [|cbn [fst]; same_flag].
  destruct (questMap data cardId), (secretToClass data cardId); cbn [fst]; same_flag.
Qed.

Lemma mulliganActive_zoneChange (data : StaticData) (cardId cardName : string)
    (playerId entityId : number) (from to : TeamZone) (gs : GameState) (clk : Clock) :
  mulliganActive (snd (fst (zoneChange data cardId cardName playerId entityId from to gs clk)))
  = mulliganActive gs.
Proof.
  destruct (zoneChange data cardId cardName playerId entityId from to gs clk)
    as [[[] gs'] clk'] eqn:Hz; simpl.
  - apply zoneChange_true in Hz as (raw & pl & opp & _ & _ & _ & He).
    apply (f_equal fst) in He. simpl in He. subst gs'.
    by rewrite mulliganActive_enter_zone, mulliganActive_leave_zone,
      mulliganActive_assign_positions.
  - by apply zoneChange_false in Hz as [-> _].
Qed.

Lemma mulliganActive_turnChange (playerName turn : string) (gs : GameState) (clk : Clock) :
  mulliganActive (snd (fst (turnChange playerName turn gs clk))) = mulliganActive gs.
Proof.
  unfold turnChange. destruct (getPlayerByName gs playerName) as [i|]; [|reflexivity].
  cbv zeta. unfold Date_now.
  match goal with |- context [if ?c then _ else _] => destruct c end.
  - cbn [fst snd]. same_flag.
  - match goal with |- context [close_last_turn_of ?c ?g ?k] =>
      pose proof (mulliganActive_close_last_turn_of c g k) as H;
      destruct (close_last_turn_of c g k) as [g1 k1]
    end.
    cbn [fst snd] in *. rewrite H. same_flag.
Qed.

Lemma mulliganActive_gameOver (playerName status : string) (gs : GameState) (clk : Clock) :
  mulliganActive (snd (fst (gameOver playerName status gs clk))) = mulliganActive gs.
Proof.
  unfold gameOver. cbv zeta. unfold Date_now.
  set (gs1 := match getPlayerByName gs playerName with Some _ => _ | None => _ end).
  assert (E : mulliganActive gs1 = mulliganActive gs).
  { subst gs1. destruct (getPlayerByName gs playerName), (as_Status status); reflexivity. }
  clearbody gs1.
  destruct (Z.leb 2 _); [|cbn [fst snd]; exact E].
  destruct (find_idx p_turn _) as [c|].
  - match goal with |- context [close_last_turn_of ?c ?g ?k] =>
      pose proof (mulliganActive_close_last_turn_of c g k) as H;
      destruct (close_last_turn_of c g k) as [g1 k1]
    end.
    cbn [fst snd] in *. cbn [mulliganActive set_matchDuration]. rewrite H. exact E.
  - cbn [fst snd]. exact E.
Qed.

Lemma mulliganActive_gameTagChange (entity tag value : string) (gs : GameState)
    (clk : Clock) :
  mulliganActive gs = true ->
  mulliganActive (snd (fst (gameTagChange entity tag value gs clk))) = true.
Proof.
  intros H. unfold gameTagChange, new_Date. cbv zeta.
  repeat match goal with
         | |- context [if ?c then _ else _] => destruct c
         | |- context [match ?o with Some _ => _ | None => _ end] => destruct o
         end;
    cbn [fst snd mulliganActive update_player set_players set_turnStartTime
         set_mulliganActive]; try reflexivity; exact H.
Qed.

(** X7.  No handler ever clears [mulliganActive], not even game-start,
    which resets the state for a new match: once the flag is set it
    stays set through every handler of the list. *)
Theorem mulliganActive_is_never_cleared (data : StaticData) (h : Handler)
    (groups : Groups) (gs : GameState) (clk : Clock) :
  h ∈ all_handlers data ->
  mulliganActive gs = true ->
  mulliganActive (snd (fst (h groups gs clk))) = true.
Proof.
  intros Hin Hm. unfold all_handlers in Hin.
  repeat (apply elem_of_cons in Hin as [->|Hin]); [..|by apply elem_of_nil in Hin].
  - exact Hm.
  - unfold player_joined, playerJoined.
    destruct (getPlayerById gs _) as [i|].
    + destruct (players gs !! i) as [p|]; [|exact Hm].
      destruct (String.eqb _ _); exact Hm.
    + destruct (Nat.eqb _ _); exact Hm.
  - reflexivity.
  - unfold mulligan_result, mulliganResult. rewrite Hm. cbn [negb].
    destruct (getPlayerByName gs _); exact Hm.
  - unfold turn_change. by rewrite mulliganActive_turnChange.
  - unfold game_over. by rewrite mulliganActive_gameOver.
  - unfold zone_change. by rewrite mulliganActive_zoneChange.
  - unfold tag_change, tagChange.
    destruct (String.eqb _ "QUEST_PROGRESS"); [|exact Hm].
    destruct (getPlayerById gs _) as [i|]; [|exact Hm].
    destruct (players gs !! i) as [p|]; [|exact Hm].
    destruct (find_idx _ _); exact Hm.
  - unfold game_tag_change. by apply mulliganActive_gameTagChange.
  - exact Hm.
Qed.

Lemma mulliganActive_is_never_cleared_witness :
  mulliganActive
    (snd (fst (game_start ∅ (set_mulliganActive true two_players) clock0))) = true.
Proof.
  apply (mulliganActive_is_never_cleared example_data game_start ∅
           (set_mulliganActive true two_players) clock0).
  - unfold all_handlers. apply list_elem_of_here.
  - reflexivity.
Defined.

(** ** active and complete *)

Lemma startTime_apply_gameOver (st : GameState * Clock) (fact : string * string) :
  startTime (fst (apply_gameOver st fact)) = startTime (fst st).
Proof.
  destruct st as [gs clk], fact as [name status].
  unfold apply_gameOver, gameOver. cbn [fst snd]. unfold Date_now.
  set (gs1 := match getPlayerByName gs name with Some _ => _ | None => _ end).
  assert (E : startTime gs1 = startTime gs).
  { subst gs1. destruct (getPlayerByName gs name), (as_Status status); reflexivity. }
  clearbody gs1.
  destruct (Z.leb 2 _); [|exact E].
  destruct (find_idx p_turn _) as [c|]; [|exact E].
  destruct (close_last_turn_of_spec c (set_gameOverCount (gameOverCount gs1 + 1) gs1) clk)
    as (gs3 & clk3 & -> & H & _).
  cbn [fst startTime set_matchDuration]. rewrite H. exact E.
Qed.

Lemma startTime_run_gameOver (facts : list (string * string)) (st : GameState * Clock) :
  startTime (fst (run_gameOver facts st)) = startTime (fst st).
Proof.
  revert st. induction facts as [|f facts IH]; intros st; [reflexivity|].
  unfold run_gameOver in *. cbn [foldl]. rewrite IH. apply startTime_apply_gameOver.
Qed.

(** X8.  In a match started at a non-zero time, the state is complete
    after exactly two terminal-status lines and active after any other
    number of them: it is active before the first and after the first,
    complete after the second, and active again, not complete, after a
    third. *)
Theorem complete_exactly_at_two_game_overs (facts : list (string * string))
    (s0 : GameState) (c0 : Clock) :
  readings c0 (tick c0) <> 0 ->
  let gs := fst (run_gameOver facts (start s0 c0)) in
  complete gs = Nat.eqb (length facts) 2 /\
  active gs = negb (Nat.eqb (length facts) 2).
Proof.
  intros Hnow gs.
  assert (Hc : complete gs = Nat.eqb (length facts) 2).
  { unfold complete. subst gs. rewrite run_gameOver_count. unfold start. cbn [fst gameOverCount
      Date_now set_startTime reset].
    destruct (Nat.eqb_spec (length facts) 2) as [->|Hne]; [reflexivity|].
    apply Z.eqb_neq. lia. }
  split; [exact Hc|].
  unfold active. rewrite Hc. subst gs. rewrite startTime_run_gameOver.
  unfold start, Date_now. cbn [fst startTime set_startTime truthy_oint].
  apply Z.eqb_neq in Hnow. rewrite Hnow. reflexivity.
Qed.

Lemma complete_exactly_at_two_game_overs_witness :
  let gs := fst (run_gameOver three_game_overs (start new_GameState clock0)) in
  complete gs = Nat.eqb (length three_game_overs) 2 /\
  active gs = negb (Nat.eqb (length three_game_overs) 2).
Proof.
  apply (complete_exactly_at_two_game_overs three_game_overs new_GameState clock0).
  vm_compute. discriminate.
Defined.

(** ** Registering players *)

Lemma find_idx_app_None {A : Type} (f : A -> bool) (l : list A) (x : A) :
  find_idx f l = None -> f x = true -> find_idx f (l ++ [x]) = Some (length l).
Proof.
  intros Hl Hx. induction l as [|y l IH]; simpl in *; [by rewrite Hx|].
  destruct (f y); [discriminate|].
  destruct (find_idx f l); [discriminate|]. by rewrite IH.
Qed.

Lemma playerJoined_keeps (id : number) (name : string) (gs : GameState) :
  (length (players gs) <= 2)%nat -> players_distinct gs ->
  (length (players (snd (playerJoined id name gs))) <= 2)%nat /\
  players_distinct (snd (playerJoined id name gs)) /\
  (p_id <$> players gs) `prefix_of` (p_id <$> players (snd (playerJoined id name gs))).
Proof.
  intros Hlen Hd. unfold playerJoined.
  destruct (getPlayerById gs id) as [i|] eqn:Hi.
  - destruct (players gs !! i) as [p|] eqn:Hp; [|done].
    destruct (String.eqb (p_name p) unknownPlayerName); [|done].
    cbn [snd]. rewrite players_update_player.
    split; [by rewrite length_alter|]. split.
    + intros a b pa pb Ha Hb He.
      assert (Hid : forall k q, alter (set_p_name name) i (players gs) !! k = Some q ->
                      exists q', players gs !! k = Some q' /\ p_id q' = p_id q).
      { intros k q Hk. destruct (decide (i = k)) as [->|Hne].
        - rewrite list_lookup_alter_eq, Hp in Hk. injection Hk as <-. eauto.
        - rewrite list_lookup_alter_ne in Hk by done. eauto. }
      destruct (Hid a pa Ha) as (pa' & Ha' & Ea). destruct (Hid b pb Hb) as (pb' & Hb' & Eb).
      apply (Hd a b pa' pb' Ha' Hb'). by rewrite Ea, Eb.
    + by rewrite fmap_alter_preserved.
  - destruct (Nat.eqb (length (players gs)) 2) eqn:E2; [done|].
    apply Nat.eqb_neq in E2. cbn [snd players set_players].
    split; [rewrite length_app; simpl; lia|]. split.
    + intros a b pa pb Ha Hb He.
      apply lookup_app_Some in Ha as [Ha|[Hla Ha]];
        apply lookup_app_Some in Hb as [Hb|[Hlb Hb]].
      * by apply (Hd a b pa pb).
      * apply list_lookup_singleton_Some in Hb as [_ <-]. simpl in He.
        unfold getPlayerById in Hi. by rewrite (find_idx_None _ _ Hi a pa Ha) in He.
      * apply list_lookup_singleton_Some in Ha as [_ <-]. simpl in He.
        rewrite strict_eq_sym in He.
        unfold getPlayerById in Hi. by rewrite (find_idx_None _ _ Hi b pb Hb) in He.
      * apply list_lookup_singleton_Some in Ha as [Ha _].
        apply list_lookup_singleton_Some in Hb as [Hb _]. lia.
    + rewrite fmap_app. by apply prefix_app_r.
Qed.

(** X9.  However many player-joined facts arrive, there are never more
    than two players, no two of them have the same id, and a player once
    registered keeps its place and its id. *)
Theorem player_joined_keeps_two_distinct_players (facts : list (number * string))
    (gs : GameState) :
  (length (players gs) <= 2)%nat -> players_distinct gs ->
  let gs' := run_playerJoined facts gs in
  (length (players gs') <= 2)%nat /\
  players_distinct gs' /\
  (p_id <$> players gs) `prefix_of` (p_id <$> players gs').
Proof.
  revert gs. induction facts as [|[id name] facts IH]; intros gs Hlen Hd; [done|].
  unfold run_playerJoined in *. cbn [foldl fst snd].
  destruct (playerJoined_keeps id name gs Hlen Hd) as (H1 & H2 & H3).
  destruct (IH _ H1 H2) as (G1 & G2 & G3).
  split; [exact G1|]. split; [exact G2|]. by etrans.
Qed.

Lemma player_joined_keeps_two_distinct_players_witness :
  let gs' := run_playerJoined three_joins new_GameState in
  (length (players gs') <= 2)%nat /\
  players_distinct gs' /\
  (p_id <$> players new_GameState) `prefix_of` (p_id <$> players gs').
Proof.
  apply (player_joined_keeps_two_distinct_players three_joins new_GameState).
  - simpl. lia.
  - intros i j p q H. destruct i; discriminate.
Defined.

(** X10.  A player registered by player-joined under an id that was not
    taken is found again by that id, as registered: at the end of the
    list, with the given name and the defaults of [newPlayer]. *)
Theorem player_joined_then_found_by_id (n : Z) (name : string) (gs : GameState) :
  getPlayerById gs (Int n) = None ->
  (length (players gs) < 2)%nat ->
  exists gs',
    playerJoined (Int n) name gs = (true, gs') /\
    getPlayerById gs' (Int n) = Some (length (players gs)) /\
    players gs' !! length (players gs) = Some (newPlayer (Int n) name) /\
    take (length (players gs)) (players gs') = players gs.
Proof.
  intros Hnone Hlen. unfold playerJoined. rewrite Hnone.
  assert (Nat.eqb (length (players gs)) 2 = false) as -> by (apply Nat.eqb_neq; lia).
  eexists. split; [reflexivity|]. cbn [players set_players].
  split; [|split].
  - unfold getPlayerById. cbn [players set_players].
    apply find_idx_app_None; [exact Hnone|]. simpl. apply Z.eqb_refl.
  - by rewrite lookup_app_r, Nat.sub_diag.
  - by rewrite take_app_length.
Qed.

Lemma player_joined_then_found_by_id_witness :
  exists gs',
    playerJoined (Int 1) "Alice" new_GameState = (true, gs') /\
    getPlayerById gs' (Int 1) = Some (length (players new_GameState)) /\
    players gs' !! length (players new_GameState) = Some (newPlayer (Int 1) "Alice") /\
    take (length (players new_GameState)) (players gs') = players new_GameState.
Proof.
  apply (player_joined_then_found_by_id 1 "Alice" new_GameState).
  - reflexivity.
  - simpl. lia.
Defined.

(** ** What zone changes leave alone *)

Lemma zone_frame_refl (p : Player) : zone_frame p p.
Proof. unfold zone_frame. by repeat split. Qed.

Lemma zone_frame_trans (p q r : Player) : zone_frame p q -> zone_frame q r -> zone_frame p r.
Proof.
  unfold zone_frame.
  intros (A1&A2&A3&A4&A5&A6&A7&A8&A9&A10&A11&A12) (B1&B2&B3&B4&B5&B6&B7&B8&B9&B10&B11&B12).
  repeat split; try congruence. by etrans.
Qed.

Lemma zone_framed_refl (gs : GameState) : zone_framed gs gs.
Proof.
  split; [by destruct gs|].
  apply Forall_Forall2_diag, Forall_true, zone_frame_refl.
Qed.

Lemma zone_framed_update (gs s' : GameState) (i : nat) (f : Player -> Player) :
  (forall q, zone_frame q (f q)) -> zone_framed gs s' ->
  zone_framed gs (update_player i f s').
Proof.
  intros Hf [He HF]. split.
  - rewrite He at 1. reflexivity.
  - rewrite players_update_player. apply Forall2_alter_r; [exact HF|].
    intros p q _ _ Hpq. eapply zone_frame_trans; eauto.
Qed.

Lemma zone_framed_trans (s1 s2 s3 : GameState) :
  zone_framed s1 s2 -> zone_framed s2 s3 -> zone_framed s1 s3.
Proof.
  intros [E1 F1] [E2 F2]. split.
  - rewrite E2 at 1. rewrite E1 at 1. reflexivity.
  - eapply Forall2_trans; [|exact F1|exact F2]. apply zone_frame_trans.
Qed.

Lemma putCards_marks_prefix (cardList : list Card) (entityId : number) (cardId : option Z)
    (cardName : option string) (isSpawnedCard : option bool) (state : option CardState) :
  (card_mark <$> cardList) `prefix_of`
  (card_mark <$> putCards cardList entityId cardId cardName isSpawnedCard state).
Proof.
  destruct (putCards_cases cardList entityId cardId cardName isSpawnedCard state)
    as [(i0 & card & Hf & Hc & Hs & ->)|[Hf ->]].
  - rewrite fmap_alter_preserved; [done|].
    intros c. unfold card_mark, update_card.
    destruct (truthy_oint cardId), (truthy_ostring cardName), state; reflexivity.
  - destruct state; [|done]. destruct isSpawnedCard; [|done].
    rewrite fmap_app. by apply prefix_app_r.
Qed.

Lemma zone_frame_putCards (entityId : number) (cardId : option Z) (cardName : option string)
    (isSpawnedCard : option bool) (state : option CardState) (q : Player) :
  zone_frame q
    (set_p_cards (putCards (p_cards q) entityId cardId cardName isSpawnedCard state) q).
Proof. unfold zone_frame. repeat split. apply putCards_marks_prefix. Qed.

Ltac zone_frames :=
  repeat first
    [ apply zone_framed_refl
    | apply zone_framed_update;
      [ first [ apply zone_frame_putCards
              | intros ?; unfold zone_frame; by repeat split ] | ]
    | match goal with
      | |- zone_framed _ (if ?c then _ else _) => destruct c
      | |- zone_framed _ (match ?o with Some _ => _ | None => _ end) => destruct o
      end ].

Lemma zone_framed_assign_positions (player opp : nat) (to : TeamZone) (gs : GameState) :
  zone_framed gs (assign_positions player opp to gs).
Proof. unfold assign_positions. cbv zeta. zone_frames. Qed.

Lemma zone_framed_leave_zone (data : StaticData) (cardId cardName : string) (cardDbfId : Z)
    (entityId : number) (from : TeamZone) (gs : GameState) :
  zone_framed gs (leave_zone data cardId cardName cardDbfId entityId from gs).
Proof. unfold leave_zone. cbv zeta. zone_frames. Qed.

Lemma zone_framed_enter_zone (data : StaticData) (cardId cardName : string) (cardDbfId : Z)
    (entityId : number) (to : TeamZone) (gs : GameState) (clk : Clock) :
  zone_framed gs (fst (enter_zone data cardId cardName cardDbfId entityId to gs clk)).
Proof.
  unfold enter_zone, Date_now. cbv zeta.
  destruct (getPlayerByTeam gs (team to)) as [t|]; [|apply zone_framed_refl].
  destruct (decide (zone to = Zone_Secret)); [|cbn [fst]; zone_frames].
  destruct (questMap data cardId), (secretToClass data cardId); cbn [fst]; zone_frames.
Qed.

Lemma zone_framed_zoneChange (data : StaticData) (cardId cardName : string)
    (playerId entityId : number) (from to : TeamZone) (gs : GameState) (clk : Clock) :
  zone_framed gs
    (snd (fst (zoneChange data cardId cardName playerId entityId from to gs clk))).
Proof.
  destruct (zoneChange data cardId cardName playerId entityId from to gs clk)
    as [[[] gs'] clk'] eqn:Hz; simpl.
  - apply zoneChange_true in Hz as (raw & pl & opp & _ & _ & _ & He).
    eapply zone_framed_trans; [apply zone_framed_assign_positions|].
    eapply zone_framed_trans; [apply zone_framed_leave_zone|].
    pose proof (zone_framed_enter_zone data cardId cardName (dbfId raw) entityId to
                  (leave_zone data cardId cardName (dbfId raw) entityId from
                     (assign_positions pl opp to gs)) clk) as H.
    rewrite He in H. exact H.
  - apply zoneChange_false in Hz as [-> _]. apply zone_framed_refl.
Qed.

(** X11.  Zone changes never touch anything of the game state outside
    the players, and of a player they leave the id, the name, the
    status, the turn and its history, the timeout, the mana and the
    discovery; the cards of a collection keep their place, their entity
    id, their [isSpawnedCard] flag and their tags, new cards coming after
    them. *)
Theorem zone_changes_frame (data : StaticData) (facts : list ZoneChange)
    (gs : GameState) (clk : Clock) :
  let gs' := fst (run_zoneChanges data facts (gs, clk)) in
  gs' = set_players (players gs') gs /\
  Forall2 zone_frame (players gs) (players gs').
Proof.
  change (zone_framed gs (fst (run_zoneChanges data facts (gs, clk)))).
  change gs with (fst (gs, clk)) at 1. generalize (gs, clk). clear gs clk.
  induction facts as [|zc facts IH]; intros [gs clk]; [apply zone_framed_refl|].
  unfold run_zoneChanges in *. cbn [foldl].
  eapply zone_framed_trans; [|apply IH].
  unfold apply_zoneChange. cbn [fst snd].
  pose proof (zone_framed_zoneChange data (zc_cardId zc) (zc_cardName zc) (zc_playerId zc)
                (zc_entityId zc) (zc_from zc) (zc_to zc) gs clk) as H.
  destruct (zoneChange _ _ _ _ _ _ _ _ _) as [[r gs'] clk']. exact H.
Qed.

(** ** Round trips through a zone *)

Lemma update_player_compose (i : nat) (f g : Player -> Player) (s : GameState) :
  update_player i f (update_player i g s) = update_player i (f ∘ g) s.
Proof.
  unfold update_player. cbn [players set_players].
  by rewrite list_alter_alter_eq.
Qed.

Lemma update_player_fixed (i : nat) (f : Player -> Player) (s : GameState) (p : Player) :
  players s !! i = Some p -> f p = p -> update_player i f s = s.
Proof.
  intros Hp Hf. unfold update_player.
  assert (alter f i (players s) = players s) as ->; [|by destruct s].
  apply list_eq. intros k. destruct (decide (i = k)) as [->|Hne].
  - by rewrite list_lookup_alter_eq, Hp; simpl; rewrite Hf.
  - by rewrite list_lookup_alter_ne.
Qed.

Lemma getPlayerByTeam_update_player (i : nat) (f : Player -> Player) (s : GameState)
    (tm : option Team) :
  (forall p, p_position (f p) = p_position p) ->
  getPlayerByTeam (update_player i f s) tm = getPlayerByTeam s tm.
Proof.
  intros H. apply getPlayerByTeam_positions.
  rewrite players_update_player. by apply fmap_alter_preserved.
Qed.

Lemma filter_all {A : Type} (P : A -> Prop) `{!forall x, Decision (P x)} (l : list A) :
  (forall x, x ∈ l -> P x) -> filter P l = l.
Proof.
  induction l as [|x l IH]; intros Hall; [reflexivity|].
  rewrite filter_cons_True by (apply Hall; left). rewrite IH; [reflexivity|].
  intros y Hy. apply Hall. by right.
Qed.

Lemma filter_snoc_out {A : Type} (P : A -> Prop) `{!forall x, Decision (P x)}
    (l : list A) (x : A) :
  (forall y, y ∈ l -> P y) -> ~ P x -> filter P (l ++ [x]) = l.
Proof.
  intros Hl Hx. rewrite filter_app, filter_all by done.
  rewrite filter_cons_False by done. by rewrite filter_nil, app_nil_r.
Qed.

(** A quest or a secret pushed on entering the secret zone is taken out
    again by leaving it at once. *)
Lemma leave_after_enter_secret (data : StaticData) (cardId cardName : string)
    (cardDbfId e : Z) (tm : Team) (gs : GameState) (clk : Clock) (t : nat) (p : Player) :
  getPlayerByTeam gs (Some tm) = Some t ->
  players gs !! t = Some p ->
  (forall q, q ∈ p_quests p -> strict_eq (q_entityId q) (Int e) = false) ->
  (forall s, s ∈ p_secrets p -> strict_eq (sec_entityId s) (Int e) = false) ->
  let z := mkTeamZone (Some tm) Zone_Secret in
  leave_zone data cardId cardName cardDbfId (Int e) z
    (fst (enter_zone data cardId cardName cardDbfId (Int e) z gs clk)) = gs.
Proof.
  intros Ht Hp Hq Hs z. subst z.
  assert (Hrefl : strict_eq (Int e) (Int e) = false -> False).
  { simpl. rewrite Z.eqb_refl. discriminate. }
  unfold enter_zone, Date_now. cbn [team zone is_deck_or_hand]. rewrite Ht.
  repeat case_decide; try done.
  unfold leave_zone. cbn [team zone is_deck_or_hand].
  destruct (questMap data cardId) as [qd|], (secretToClass data cardId) as [cls|];
    cbn [fst]; rewrite ?getPlayerByTeam_update_player by reflexivity; rewrite Ht;
    repeat case_decide; try done;
    rewrite ?update_player_compose;
    try (apply (update_player_fixed t _ gs p Hp)); try reflexivity;
    unfold compose; cbn [p_quests p_secrets set_p_quests set_p_secrets];
    rewrite ?filter_snoc_out by (done || (cbn [q_entityId sec_entityId]; intros ?; done) ||
                                 (cbn [q_entityId sec_entityId]; exact Hrefl));
    by destruct p.
Qed.

(** Outside the secret zone, leaving and entering touch neither quests
    nor secrets, and entering does not read the clock. *)
Lemma quests_secrets_leave_zone (data : StaticData) (cardId cardName : string)
    (cardDbfId : Z) (entityId : number) (from : TeamZone) (gs : GameState) :
  zone from <> Zone_Secret ->
  p_quests <$> players (leave_zone data cardId cardName cardDbfId entityId from gs)
  = p_quests <$> players gs /\
  p_secrets <$> players (leave_zone data cardId cardName cardDbfId entityId from gs)
  = p_secrets <$> players gs.
Proof.
  intros H. unfold leave_zone. cbv zeta.
  destruct (getPlayerByTeam gs (team from)) as [f|]; [|done].
  destruct (decide (zone from = Zone_Secret)); [done|].
  split; same_projection.
Qed.

Lemma enter_zone_outside_secret (data : StaticData) (cardId cardName : string)
    (cardDbfId : Z) (entityId : number) (to : TeamZone) (gs : GameState) (clk : Clock) :
  zone to <> Zone_Secret ->
  let gs' := fst (enter_zone data cardId cardName cardDbfId entityId to gs clk) in
  p_quests <$> players gs' = p_quests <$> players gs /\
  p_secrets <$> players gs' = p_secrets <$> players gs /\
  (forall clk', enter_zone data cardId cardName cardDbfId entityId to gs clk' = (gs', clk')).
Proof.
  intros H gs'. subst gs'. unfold enter_zone. cbv zeta.
  destruct (getPlayerByTeam gs (team to)) as [t|]; [|done].
  destruct (decide (zone to = Zone_Secret)); [done|]. cbn [fst].
  split; [same_projection|]. split; [same_projection|]. reflexivity.
Qed.

(** X12.  A card that goes into the secret zone of a positioned player
    by one zone change and out of it by the next (from and to zones
    other than the secret zone, the positions not being reassigned by
    the second change) leaves every player's quests and secrets as they
    were, whatever the tables say of the card; the game state after the
    two changes is the one that the direct change, from the first
    source to the second destination, gives.  The entity id is a
    number, and the player had no quest and no secret of that entity
    before. *)
Theorem secret_zone_round_trip (data : StaticData) (cardId cardName : string)
    (playerId : number) (e : Z) (tm : Team) (from1 to2 : TeamZone)
    (gs gs1 gs2 : GameState) (clk clk1 clk2 : Clock) (t : nat) (p : Player) :
  zoneChange data cardId cardName playerId (Int e) from1
    (mkTeamZone (Some tm) Zone_Secret) gs clk = (true, gs1, clk1) ->
  zoneChange data cardId cardName playerId (Int e) (mkTeamZone (Some tm) Zone_Secret)
    to2 gs1 clk1 = (true, gs2, clk2) ->
  zone from1 <> Zone_Secret ->
  zone to2 <> Zone_Secret ->
  mulliganActive gs = false \/ is_deck_or_hand (zone to2) = false ->
  getPlayerByTeam gs (Some tm) = Some t ->
  players gs !! t = Some p ->
  (forall q, q ∈ p_quests p -> strict_eq (q_entityId q) (Int e) = false) ->
  (forall s, s ∈ p_secrets p -> strict_eq (sec_entityId s) (Int e) = false) ->
  p_quests <$> players gs2 = p_quests <$> players gs /\
  p_secrets <$> players gs2 = p_secrets <$> players gs /\
  zoneChange data cardId cardName playerId (Int e) from1 to2 gs clk = (true, gs2, clk).
Proof.
  intros Hz1 Hz2 Hf1 Ht2 Hmull Ht Hp Hq Hs.
  apply zoneChange_true in Hz1 as (raw & pl & opp & Hraw & Hpl & Hopp & He1).
  apply zoneChange_true in Hz2 as (raw2 & pl2 & opp2 & Hraw2 & _ & _ & He2).
  rewrite Hraw in Hraw2. injection Hraw2 as <-.
  assert (A1 : assign_positions pl opp (mkTeamZone (Some tm) Zone_Secret) gs = gs).
  { unfold assign_positions. cbn [zone is_deck_or_hand]. by rewrite andb_false_r. }
  rewrite A1 in He1.
  set (sa := leave_zone data cardId cardName (dbfId raw) (Int e) from1 gs) in *.
  assert (Hg1 : gs1 = fst (enter_zone data cardId cardName (dbfId raw) (Int e)
                             (mkTeamZone (Some tm) Zone_Secret) sa clk))
    by (by rewrite He1).
  assert (Hm1 : mulliganActive gs1 = mulliganActive gs).
  { rewrite Hg1, mulliganActive_enter_zone. apply mulliganActive_leave_zone. }
  assert (A2 : forall a b, assign_positions a b to2 gs1 = gs1).
  { intros a b. unfold assign_positions. rewrite Hm1.
    destruct Hmull as [->| ->]; [reflexivity|by rewrite andb_false_r]. }
  assert (A3 : assign_positions pl opp to2 gs = gs).
  { unfold assign_positions.
    destruct Hmull as [->| ->]; [reflexivity|by rewrite andb_false_r]. }
  rewrite A2 in He2.
  destruct (quests_secrets_leave_zone data cardId cardName (dbfId raw) (Int e) from1 gs Hf1)
    as [Hqa Hsa]. fold sa in Hqa, Hsa.
  assert (Hta : getPlayerByTeam sa (Some tm) = Some t).
  { rewrite <- Ht. apply getPlayerByTeam_positions. apply positions_leave_zone. }
  assert (Hpa : exists pa, players sa !! t = Some pa /\
                  p_quests pa = p_quests p /\ p_secrets pa = p_secrets p).
  { apply (f_equal (fun l => l !! t)) in Hqa.
    apply (f_equal (fun l => l !! t)) in Hsa.
    rewrite !list_lookup_fmap, Hp in Hqa.
    rewrite !list_lookup_fmap, Hp in Hsa.
    destruct (players sa !! t) as [pa|]; [|discriminate].
    injection Hqa as Hqa. injection Hsa as Hsa. eauto. }
  destruct Hpa as (pa & Hpa & Eq & Es).
  assert (Hback : leave_zone data cardId cardName (dbfId raw) (Int e)
                    (mkTeamZone (Some tm) Zone_Secret) gs1 = sa).
  { rewrite Hg1. apply (leave_after_enter_secret data cardId cardName (dbfId raw) e tm
                          sa clk t pa Hta Hpa); by rewrite ?Eq, ?Es. }
  rewrite Hback in He2.
  destruct (enter_zone_outside_secret data cardId cardName (dbfId raw) (Int e) to2 sa clk1 Ht2)
    as (Hq2 & Hs2 & Hclk).
  rewrite He2 in Hq2, Hs2, Hclk. cbn [fst] in Hq2, Hs2, Hclk.
  split; [by rewrite Hq2|]. split; [by rewrite Hs2|].
  unfold zoneChange. rewrite Hraw, Hpl, Hopp. cbv zeta. rewrite A3. fold sa.
  by rewrite (Hclk clk).
Qed.

Lemma secret_zone_round_trip_witness :
  p_quests <$> players secret_revealed.1.2 = p_quests <$> players two_players /\
  p_secrets <$> players secret_revealed.1.2 = p_secrets <$> players two_players /\
  zoneChange example_data "EX1_287" "Counterspell" (Int 2) (Int 40)
    (mkTeamZone (Some Team_Opposing) Zone_Hand) (mkTeamZone (Some Team_Opposing) Zone_Other)
    two_players clock0
  = (true, secret_revealed.1.2, clock0).
Proof.
  apply (secret_zone_round_trip example_data "EX1_287" "Counterspell" (Int 2) 40
           Team_Opposing (mkTeamZone (Some Team_Opposing) Zone_Hand)
           (mkTeamZone (Some Team_Opposing) Zone_Other)
           two_players secret_played.1.2 secret_revealed.1.2
           clock0 secret_played.2 secret_revealed.2 1%nat bob).
  - vm_compute. reflexivity.
  - vm_compute. reflexivity.
  - discriminate.
  - discriminate.
  - left. reflexivity.
  - reflexivity.
  - reflexivity.
  - intros q Hq. vm_compute in Hq. by apply elem_of_nil in Hq.
  - intros s Hs. vm_compute in Hs. by apply elem_of_nil in Hs.
Defined.

(** ** Counting the deck *)

Lemma lookup_update_player (i j : nat) (f : Player -> Player) (s : GameState) :
  players (update_player i f s) !! j
  = (if decide (i = j) then f else id) <$> players s !! j.
Proof.
  case_decide as E.
  - subst j. apply lookup_update_player_eq.
  - rewrite lookup_update_player_ne by done. by destruct (players s !! j).
Qed.

Ltac count_cases i p Hp :=
  rewrite ?lookup_update_player, Hp;
  repeat match goal with
         | |- context [decide (?f = i)] => destruct (decide (f = i))
         end;
  cbn [fmap option_fmap option_map id];
  eexists; (split; [reflexivity|]);
  cbn [p_cardCount set_p_cards set_p_cardCount set_p_quests set_p_secrets];
  let Hb := fresh "Hb" in
  case_bool_decide as Hb; try lia;
  exfalso; first [ destruct Hb as [[=] ?]; congruence | apply Hb; split; congruence ].

Lemma cardCount_leave_zone (data : StaticData) (cardId cardName : string)
    (cardDbfId : Z) (entityId : number) (from : TeamZone) (gs : GameState)
    (i : nat) (p : Player) :
  players gs !! i = Some p ->
  exists p',
    players (leave_zone data cardId cardName cardDbfId entityId from gs) !! i = Some p' /\
    p_cardCount p'
    = p_cardCount p
      - (if bool_decide (getPlayerByTeam gs (team from) = Some i /\ zone from = Zone_Deck)
         then 1 else 0).
Proof.
  intros Hp. unfold leave_zone. cbv zeta.
  destruct (getPlayerByTeam gs (team from)) as [f|].
  - destruct (is_deck_or_hand (zone from)), (decide (zone from = Zone_Deck)),
      (decide (zone from = Zone_Secret)), (questMap data cardId),
      (secretToClass data cardId); count_cases i p Hp.
  - count_cases i p Hp.
Qed.

Lemma cardCount_enter_zone (data : StaticData) (cardId cardName : string)
    (cardDbfId : Z) (entityId : number) (to : TeamZone) (gs : GameState) (clk : Clock)
    (i : nat) (p : Player) :
  players gs !! i = Some p ->
  exists p',
    players (fst (enter_zone data cardId cardName cardDbfId entityId to gs clk)) !! i
      = Some p' /\
    p_cardCount p'
    = p_cardCount p
      + (if bool_decide (getPlayerByTeam gs (team to) = Some i /\ zone to = Zone_Deck)
         then 1 else 0).
Proof.
  intros Hp. unfold enter_zone, Date_now. cbv zeta.
  destruct (getPlayerByTeam gs (team to)) as [t|].
  - destruct (is_deck_or_hand (zone to)), (decide (zone to = Zone_Deck)),
      (decide (zone to = Zone_Secret)), (questMap data cardId),
      (secretToClass data cardId); cbn [fst]; count_cases i p Hp.
  - cbn [fst]. count_cases i p Hp.
Qed.

Lemma cardCount_assign_positions (player opponentPlayer : nat) (to : TeamZone)
    (gs : GameState) :
  p_cardCount <$> players (assign_positions player opponentPlayer to gs)
  = p_cardCount <$> players gs.
Proof. unfold assign_positions. cbv zeta. same_projection. Qed.

(** X13.  A zone change that goes through counts the deck: a player's
    [cardCount] goes down by one when the card leaves that player's
    deck and up by one when it enters it (both, one after the other,
    when it does both), and is otherwise left as it was; the player of
    a team being the one at that team's position after the change.
    The count is a safe integer, so that the program adds and
    subtracts without rounding. *)
Theorem zone_change_counts_deck_moves (data : StaticData) (cardId cardName : string)
    (playerId entityId : number) (from to : TeamZone) (gs gs' : GameState)
    (clk clk' : Clock) (i : nat) (p : Player) :
  zoneChange data cardId cardName playerId entityId from to gs clk = (true, gs', clk') ->
  players gs !! i = Some p ->
  safe_integer (p_cardCount p) ->
  exists p',
    players gs' !! i = Some p' /\
    p_cardCount p'
    = p_cardCount p
      - (if bool_decide (getPlayerByTeam gs' (team from) = Some i /\ zone from = Zone_Deck)
         then 1 else 0)
      + (if bool_decide (getPlayerByTeam gs' (team to) = Some i /\ zone to = Zone_Deck)
         then 1 else 0).
Proof.
  intros Hz Hp _.
  apply zoneChange_true in Hz as (raw & pl & opp & _ & _ & _ & He).
  set (s0 := assign_positions pl opp to gs) in *.
  set (s2 := leave_zone data cardId cardName (dbfId raw) entityId from s0) in *.
  assert (Hg : gs' = fst (enter_zone data cardId cardName (dbfId raw) entityId to s2 clk))
    by (by rewrite He).
  assert (P2 : forall tm, getPlayerByTeam gs' tm = getPlayerByTeam s2 tm).
  { intros tm. rewrite Hg. apply getPlayerByTeam_positions, positions_enter_zone. }
  assert (P0 : forall tm, getPlayerByTeam s2 tm = getPlayerByTeam s0 tm).
  { intros tm. apply getPlayerByTeam_positions, positions_leave_zone. }
  assert (Hp0 : exists p0, players s0 !! i = Some p0 /\ p_cardCount p0 = p_cardCount p).
  { pose proof (cardCount_assign_positions pl opp to gs) as Hc. fold s0 in Hc.
    apply (f_equal (fun l => l !! i)) in Hc.
    rewrite !list_lookup_fmap, Hp in Hc.
    destruct (players s0 !! i) as [p0|]; [|discriminate].
    injection Hc as Hc. eauto. }
  destruct Hp0 as (p0 & Hp0 & E0).
  destruct (cardCount_leave_zone data cardId cardName (dbfId raw) entityId from s0 i p0 Hp0)
    as (p2 & Hp2 & E2). fold s2 in Hp2.
  destruct (cardCount_enter_zone data cardId cardName (dbfId raw) entityId to s2 clk i p2 Hp2)
    as (p' & Hp' & E').
  exists p'. rewrite Hg. split; [exact Hp'|].
  rewrite <- Hg, !P2, P0, E', E2, E0. reflexivity.
Qed.

Lemma zone_change_counts_deck_moves_witness :
  exists p',
    players fireball_drawn.1.2 !! O = Some p' /\
    p_cardCount p'
    = p_cardCount alice
      - (if bool_decide (getPlayerByTeam fireball_drawn.1.2 (Some Team_Friendly) = Some O
                         /\ Zone_Deck = Zone_Deck)
         then 1 else 0)
      + (if bool_decide (getPlayerByTeam fireball_drawn.1.2 (Some Team_Friendly) = Some O
                         /\ Zone_Hand = Zone_Deck)
         then 1 else 0).
Proof.
  apply (zone_change_counts_deck_moves example_data "CS2_029" "Fireball" (Int 1) (Int 23)
           (mkTeamZone (Some Team_Friendly) Zone_Deck)
           (mkTeamZone (Some Team_Friendly) Zone_Hand)
           two_players fireball_drawn.1.2 clock0 fireball_drawn.2 O alice).
  - vm_compute. reflexivity.
  - reflexivity.
  - vm_compute. split; discriminate.
Defined.

(** ** Quest progress *)

Lemma find_idx_None_intro {A : Type} (f : A -> bool) (l : list A) :
  (forall x, x ∈ l -> f x = false) -> find_idx f l = None.
Proof.
  induction l as [|x l IH]; intros H; [reflexivity|].
  simpl. rewrite (H x) by left. rewrite IH; [reflexivity|].
  intros y Hy. apply H. by right.
Qed.

Lemma getPlayerById_update_player (i : nat) (f : Player -> Player) (s : GameState)
    (id : number) :
  (forall p, p_id (f p) = p_id p) ->
  getPlayerById (update_player i f s) id = getPlayerById s id.
Proof.
  intros H. unfold getPlayerById. rewrite players_update_player.
  apply find_idx_alter. intros p. by rewrite H.
Qed.

(** X14.  A quest that has entered the secret zone of a positioned
    player is found by the next quest-progress tag-change for that
    player and entity: the handler returns [true] and the quest, last in
    the player's list, carries the requirement of the table and the
    parsed value as its progress, the quests before it being as they
    were. *)
Theorem quest_progress_after_entry (data : StaticData) (cardId cardName value : string)
    (cardDbfId e : Z) (tm : Team) (playerId : number) (qd : QuestData)
    (gs : GameState) (clk : Clock) (t : nat) (p : Player) :
  getPlayerByTeam gs (Some tm) = Some t ->
  getPlayerById gs playerId = Some t ->
  players gs !! t = Some p ->
  questMap data cardId = Some qd ->
  (forall q, q ∈ p_quests p -> strict_eq (q_entityId q) (Int e) = false) ->
  let gs1 := fst (enter_zone data cardId cardName cardDbfId (Int e)
                    (mkTeamZone (Some tm) Zone_Secret) gs clk) in
  exists gs2 p2 q,
    tagChange "QUEST_PROGRESS" value playerId (Int e) gs1 = (true, gs2) /\
    players gs2 !! t = Some p2 /\
    p_quests p2 !! length (p_quests p) = Some q /\
    q_entityId q = Int e /\ q_progress q = parseInt value None /\
    q_requirement q = qd_requirement qd /\
    take (length (p_quests p)) (p_quests p2) = p_quests p.
Proof.
  intros Ht Hid Hp Hqd Hq gs1. subst gs1.
  unfold enter_zone, Date_now. cbn [team zone is_deck_or_hand]. rewrite Ht, Hqd.
  repeat case_decide; try done.
  assert (Hfind : find_idx (fun q => strict_eq (q_entityId q) (Int e))
                    (p_quests p ++
                     [mkQuest (Int e) cardName (qd_class qd) (Int 0) (qd_requirement qd)
                        (qd_sidequest qd) (readings clk (tick clk))])
                  = Some (length (p_quests p))).
  { apply find_idx_app_None; [by apply find_idx_None_intro|]. simpl. apply Z.eqb_refl. }
  unfold tagChange. cbn [String.eqb Ascii.eqb Bool.eqb].
  destruct (secretToClass data cardId) as [cls|]; cbn [fst];
    rewrite ?update_player_compose, getPlayerById_update_player by reflexivity;
    rewrite Hid, lookup_update_player_eq, Hp;
    cbn [fmap option_fmap option_map]; unfold compose;
    cbn [p_quests set_p_quests set_p_secrets]; rewrite Hfind.
  all: eexists _, _, _; split; [reflexivity|].
  all: rewrite !lookup_update_player_eq, Hp.
  all: cbn [fmap option_fmap option_map p_quests set_p_quests set_p_secrets].
  all: split; [reflexivity|]; cbn [p_quests set_p_quests set_p_secrets].
  all: rewrite list_lookup_alter_eq, lookup_app_r, Nat.sub_diag by lia.
  all: cbn [lookup list_lookup fmap option_fmap option_map].
  all: split; [reflexivity|].
  all: cbn [q_entityId q_progress q_requirement set_q_progress].
  all: repeat (split; [reflexivity|]).
  all: rewrite take_alter_ge by lia; by rewrite take_app_length.
Qed.

Lemma quest_progress_after_entry_witness :
  let gs1 := fst (enter_zone example_data "UNG_940" "Awaken the Makers" 41494 (Int 30)
                    (mkTeamZone (Some Team_Friendly) Zone_Secret) two_players clock0) in
  exists gs2 p2 q,
    tagChange "QUEST_PROGRESS" "3" (Int 1) (Int 30) gs1 = (true, gs2) /\
    players gs2 !! O = Some p2 /\
    p_quests p2 !! length (p_quests alice) = Some q /\
    q_entityId q = Int 30 /\ q_progress q = parseInt "3" None /\
    q_requirement q = qd_requirement (mkQuestData "PRIEST" 7 false) /\
    take (length (p_quests alice)) (p_quests p2) = p_quests alice.
Proof.
  apply (quest_progress_after_entry example_data "UNG_940" "Awaken the Makers" "3" 41494 30
           Team_Friendly (Int 1) (mkQuestData "PRIEST" 7 false) two_players clock0 O alice);
    try reflexivity.
  intros q Hq. vm_compute in Hq. by apply elem_of_nil in Hq.
Defined.

(** ** Positions and teams *)

Lemma playerJoined_positions (id : number) (name : string) (gs : GameState) :
  Forall (fun p => p_position p = bottom) (players gs) ->
  Forall (fun p => p_position p = bottom) (players (snd (playerJoined id name gs))).
Proof.
  intros H. unfold playerJoined.
  destruct (getPlayerById gs id) as [i|].
  - destruct (players gs !! i) as [p|]; [|done].
    destruct (String.eqb _ _); [|done].
    cbn [snd]. rewrite players_update_player. by apply Forall_alter.
  - destruct (Nat.eqb _ _); [done|]. cbn [snd players set_players].
    apply Forall_app. split; [done|]. by repeat constructor.
Qed.

Lemma run_playerJoined_positions (facts : list (number * string)) (gs : GameState) :
  Forall (fun p => p_position p = bottom) (players gs) ->
  Forall (fun p => p_position p = bottom) (players (run_playerJoined facts gs)).
Proof.
  revert gs. induction facts as [|[id name] facts IH]; intros gs H; [exact H|].
  unfold run_playerJoined in *. cbn [foldl fst snd]. apply IH.
  by apply playerJoined_positions.
Qed.

(** X15.  Players are registered at the bottom.  After a reset and any
    number of player-joined facts every player has position ["bottom"],
    so that, until a zone change of the mulligan assigns the positions,
    the opposing team is nobody and the friendly team is the first
    player registered. *)
Theorem registered_players_start_at_bottom (facts : list (number * string))
    (s : GameState) :
  let gs := run_playerJoined facts (reset s) in
  Forall (fun p => p_position p = bottom) (players gs) /\
  getPlayerByTeam gs (Some Team_Opposing) = None /\
  (players gs <> [] -> getPlayerByTeam gs (Some Team_Friendly) = Some O).
Proof.
  intros gs.
  assert (H : Forall (fun p => p_position p = bottom) (players gs)).
  { subst gs. apply run_playerJoined_positions. constructor. }
  split; [exact H|]. unfold getPlayerByTeam, getPlayerByPosition. split.
  - apply find_idx_None_intro. intros p Hp.
    rewrite Forall_forall in H. rewrite (H p Hp). reflexivity.
  - intros Hne. destruct (players gs) as [|p l]; [done|].
    apply Forall_cons in H as [Hp _]. simpl. rewrite Hp. reflexivity.
Qed.

(** X16.  During the mulligan a zone change into a deck or a hand puts
    the player the card belongs to on the side the card goes to and the
    opponent on the other side: afterwards the team of the destination
    is that player and the other team is the opponent. *)
Theorem mulligan_zone_change_assigns_both_positions (player opponentPlayer : nat)
    (tm : Team) (z : Zone) (gs : GameState) (a b : Player) :
  players gs = [a; b] ->
  (player = O /\ opponentPlayer = 1%nat) \/ (player = 1%nat /\ opponentPlayer = O) ->
  mulliganActive gs = true ->
  is_deck_or_hand z = true ->
  let gs' := assign_positions player opponentPlayer (mkTeamZone (Some tm) z) gs in
  getPlayerByTeam gs' (Some tm) = Some player /\
  getPlayerByTeam gs'
    (Some match tm with Team_Friendly => Team_Opposing | Team_Opposing => Team_Friendly end)
  = Some opponentPlayer.
Proof.
  intros Hpl Hidx Hm Hz gs'. subst gs'.
  unfold assign_positions. cbn [team zone]. rewrite Hm, Hz. cbn [andb].
  destruct gs as [st md pc goc pls bpa ma tst ml ents miss]. simpl in Hpl. subst pls.
  destruct Hidx as [[-> ->]|[-> ->]], tm; repeat case_decide; try done;
    split; reflexivity.
Qed.

Lemma mulligan_zone_change_assigns_both_positions_witness :
  let gs' := assign_positions 1%nat O (mkTeamZone (Some Team_Friendly) Zone_Hand)
               (set_mulliganActive true two_players) in
  getPlayerByTeam gs' (Some Team_Friendly) = Some 1%nat /\
  getPlayerByTeam gs' (Some Team_Opposing) = Some O.
Proof.
  apply (mulligan_zone_change_assigns_both_positions 1%nat O Team_Friendly Zone_Hand
           (set_mulliganActive true two_players) alice bob); auto.
Defined.

(** ** The first turn *)

Lemma forallb_negb_existsb {A : Type} (f : A -> bool) (l : list A) :
  forallb (fun x => negb (f x)) l = negb (existsb f l).
Proof.
  induction l as [|x l IH]; [reflexivity|]. simpl. rewrite IH. by destruct (f x).
Qed.

Lemma existsb_lookup {A : Type} (f : A -> bool) (l : list A) (i : nat) (x : A) :
  l !! i = Some x -> f x = true -> existsb f l = true.
Proof.
  revert i. induction l as [|y l IH]; intros [|i] H Hx; try discriminate; simpl in *.
  - injection H as ->. by rewrite Hx.
  - rewrite (IH i H Hx). apply orb_true_r.
Qed.

(** X17.  When the game entity reaches the step MAIN_READY and somebody
    is at the bottom, somebody holds the turn afterwards: if nobody held
    it, the bottom player gets it; if somebody did, the players are left
    as they were.  In both cases [turnStartTime] is a new date read off
    the clock, and the handler returns [true]. *)
Theorem main_ready_gives_a_turn_holder (gs : GameState) (clk : Clock) (b : nat) :
  getPlayerByPosition gs bottom = Some b ->
  exists gs' clk',
    gameTagChange "GameEntity" "STEP" "MAIN_READY" gs clk = (true, gs', clk') /\
    existsb p_turn (players gs') = true /\
    (existsb p_turn (players gs) = true -> players gs' = players gs) /\
    (existsb p_turn (players gs) = false ->
     players gs' = alter (set_p_turn true) b (players gs)) /\
    turnStartTime gs' = Some (mkDate (tick clk) (readings clk (tick clk))) /\
    tick clk' = S (tick clk).
Proof.
  intros Hb. unfold gameTagChange, new_Date.
  cbn [String.eqb Ascii.eqb Bool.eqb andb].
  cbn [players set_turnStartTime]. rewrite forallb_negb_existsb.
  change (getPlayerByPosition (set_turnStartTime _ gs) bottom)
    with (getPlayerByPosition gs bottom). rewrite Hb.
  destruct (existsb p_turn (players gs)) eqn:He; cbn [negb].
  - eexists _, _. split; [reflexivity|]. cbn [players set_turnStartTime turnStartTime tick].
    repeat split; try done.
  - eexists _, _. split; [reflexivity|].
    cbn [players update_player set_players set_turnStartTime turnStartTime tick].
    split; [|repeat split; done].
    unfold getPlayerByPosition in Hb. apply find_idx_Some in Hb as (p & Hp & _).
    apply (existsb_lookup p_turn _ b (set_p_turn true p)); [|reflexivity].
    by rewrite list_lookup_alter_eq, Hp.
Qed.

Lemma main_ready_gives_a_turn_holder_witness :
  exists gs' clk',
    gameTagChange "GameEntity" "STEP" "MAIN_READY" two_players clock0 = (true, gs', clk') /\
    existsb p_turn (players gs') = true /\
    (existsb p_turn (players two_players) = true -> players gs' = players two_players) /\
    (existsb p_turn (players two_players) = false ->
     players gs' = alter (set_p_turn true) O (players two_players)) /\
    turnStartTime gs' = Some (mkDate (tick clock0) (readings clock0 (tick clock0))) /\
    tick clk' = S (tick clock0).
Proof.
  apply (main_ready_gives_a_turn_holder two_players clock0 O). reflexivity.
Defined.

(** ** The mulligan-result line *)

Lemma is_digit_cases (c : ascii) :
  is_digit c = true ->
  c ∈ ["0"; "1"; "2"; "3"; "4"; "5"; "6"; "7"; "8"; "9"]%char.
Proof.
  destruct c as [[] [] [] [] [] [] [] []]; intros H; try discriminate H;
    repeat (first [apply list_elem_of_here | apply list_elem_of_further]).
Qed.

Lemma digit_value_digit (c : ascii) :
  is_digit c = true -> exists d, digit_value c = Some d /\ 0 <= d < 10.
Proof.
  intros Hc. apply is_digit_cases in Hc.
  repeat (apply elem_of_cons in Hc as [->|Hc]);
    [ eexists; split; [vm_compute; reflexivity|lia] .. | by apply elem_of_nil in Hc ].
Qed.

Lemma parse_digits_all_digit (w : string) :
  all_digit w = true ->
  forall acc, 0 <= acc ->
    exists v, parse_digits 10 (Some acc) w = Some v /\
              0 <= v < (acc + 1) * 10 ^ Z.of_nat (String.length w).
Proof.
  induction w as [|c w IH]; intros H acc Hacc.
  { exists acc. split; [reflexivity|]. cbn. lia. }
  simpl in H. apply andb_prop in H as [Hc Hw].
  destruct (digit_value_digit c Hc) as (d & Hd & Hr).
  cbn [parse_digits]. rewrite Hd.
  destruct (Z.ltb_spec d 10) as [_|?]; [|lia].
  cbn [default from_option id].
  destruct (IH Hw (acc * 10 + d) ltac:(nia)) as (v & Hv & Hb).
  exists v. split; [exact Hv|].
  cbn [String.length]. rewrite Nat2Z.inj_succ, Z.pow_succ_r by lia.
  assert (0 < 10 ^ Z.of_nat (String.length w)) by (apply Z.pow_pos_nonneg; lia).
  nia.
Qed.

(** [parseInt] of a non-empty string of decimal digits, in radix 10, is
    a natural number below the power of ten of its length. *)
Lemma parseInt_digits (w : string) :
  w <> "" -> all_digit w = true ->
  exists n, 0 <= n < 10 ^ Z.of_nat (String.length w) /\ parseInt w (Some 10) = Int n.
Proof.
  destruct w as [|c w]; [done|]. intros _ H. simpl in H.
  apply andb_prop in H as [Hc Hw].
  apply is_digit_cases in Hc.
  assert (Hpos : forall d, 0 <= d <= 9 ->
            exists n, 0 <= n < 10 ^ Z.of_nat (String.length (String c w)) /\
            match parse_digits 10 (Some d) w with
            | Some v => Int (1 * v) | None => NaN end = Int n).
  { intros d Hd. destruct (parse_digits_all_digit w Hw d ltac:(lia)) as (v & -> & Hv).
    exists v. split; [|f_equal; lia].
    cbn [String.length]. rewrite Nat2Z.inj_succ, Z.pow_succ_r by lia.
    assert (0 < 10 ^ Z.of_nat (String.length w)) by (apply Z.pow_pos_nonneg; lia).
    nia. }
  repeat (apply elem_of_cons in Hc as [->|Hc]); [ .. | by apply elem_of_nil in Hc ].
  1: destruct w as [|x w']; [exists 0; split; [cbn; lia|vm_compute; reflexivity]|].
  all: match goal with |- context [parseInt (String ?c ?s) _] =>
         let d := eval vm_compute in (digit_value c) in
         match d with
         | Some ?d' =>
             change (parseInt (String c s) (Some 10))
               with (match parse_digits 10 (Some d') s with
                     | Some v => Int (1 * v) | None => NaN end)
         end
       end; apply Hpos; lia.
Qed.

Lemma rmatch_Group {R : Type} (name : string) (r : regex) (s : string) (caps : Groups)
    (k : string -> Groups -> option R) :
  rmatch (Group name r) s caps k
  = rmatch r s caps (fun s' caps' =>
      k s' (<[name := take_string (String.length s - String.length s') s]> caps')).
Proof. reflexivity. Qed.

Lemma rmatch_plus_digit {R : Type} (s : string) (caps : Groups)
    (k : string -> Groups -> option R) (x : R) :
  rmatch (Plus Digit) s caps k = Some x ->
  exists c w s', s = (String c w ++ s')%string /\ all_digit (String c w) = true /\
                 k s' caps = Some x.
Proof.
  simpl. destruct s as [|c s]; simpl; [discriminate|].
  destruct (is_digit c) eqn:Hc; [|discriminate].
  set (fuel := String.length s) at 1. clearbody fuel.
  intros H.
  assert (exists w s', s = (w ++ s')%string /\ all_digit w = true /\ k s' caps = Some x)
    as (w & s' & -> & Hw & Hk).
  { revert s H. induction fuel as [|fuel IHf]; intros s H.
    - exists "", s. auto.
    - destruct s as [|d s]; simpl in H.
      + exists "", "". auto.
      + destruct (is_digit d) eqn:Hd; simpl in H.
        * match type of H with match ?m with _ => _ end = _ => destruct m eqn:Hm end.
          -- injection H as ->.
             destruct (Nat.ltb _ _); [|discriminate].
             destruct (IHf _ Hm) as (w & s' & -> & Hw & Hk).
             exists (String d w), s'. rewrite append_cons_l. simpl. rewrite Hd, Hw. auto.
          -- exists "", (String d s). auto.
        * exists "", (String d s). auto. }
  exists c, w, s'. rewrite append_cons_l. simpl. rewrite Hc, Hw. auto.
Qed.

(** The [cardsLeft] group of a match of the mulligan-result pattern is a
    non-empty string of digits. *)
Lemma exec_mulligan_result_cardsLeft (label : regex) (line : string) (g : Groups) :
  exec (makeFullRegex label regex_mulligan_result) line = Some g ->
  exists w, g !! "cardsLeft" = Some w /\ w <> "" /\ all_digit w = true.
Proof.
  assert (Hat : forall s, rmatch (makeFullRegex label regex_mulligan_result) s ∅
                            (fun _ caps => Some caps) = Some g ->
                          exists w, g !! "cardsLeft" = Some w /\ w <> "" /\ all_digit w = true).
  { intros s H. unfold makeFullRegex, regex_mulligan_result in H. cbn [seqs] in H.
    do 5 apply rmatch_Seq_continues in H as (? & ? & H).
    rewrite rmatch_Seq in H.
    do 5 apply rmatch_Seq_continues in H as (? & ? & H).
    rewrite rmatch_Group in H.
    apply rmatch_plus_digit in H as (c & w & s' & -> & Hw & H).
    rewrite take_string_app in H. cbn [rmatch] in H.
    destruct (strip_prefix "/" s'); [|discriminate].
    injection H as <-. exists (String c w).
    split; [apply lookup_insert_eq|]. split; [done|exact Hw]. }
  induction line as [|c line IH]; intros H; cbn [exec] in H.
  - destruct (rmatch _ _ _ _) eqn:Hm; [|discriminate].
    injection H as ->. eapply Hat; eauto.
  - destruct (rmatch _ _ _ _) eqn:Hm.
    + injection H as ->. eapply Hat; eauto.
    + auto.
Qed.

(** X18.  Whenever the mulligan-result parser reports a change for a
    line, whatever the line is, the mulligan was active, a player of the
    name captured exists, and that player's [cardsReplacedInMulligan]
    is the integer [DECK_CARD_COUNT - cardCount - n] for a natural
    number [n]: the pattern captures [cardsLeft] with [\d+], so that
    [parseInt] never yields NaN here.  The clock is not read.  This is
    stated where the numbers of the program are exact: the digits
    captured are at most 15, and the deck size, the card counts and
    their differences down to minus 10^15 are safe integers. *)
Theorem mulligan_result_line_sets_an_integer (data : StaticData) (label : regex)
    (line : string) (gs gs' : GameState) (clk clk' : Clock) :
  (forall g, exec (makeFullRegex label regex_mulligan_result) line = Some g ->
             (String.length (grp g "cardsLeft") <= 15)%nat) ->
  safe_integer (DECK_CARD_COUNT data) ->
  Forall (fun p => safe_integer (p_cardCount p) /\
                   safe_integer (DECK_CARD_COUNT data - p_cardCount p) /\
                   safe_integer (DECK_CARD_COUNT data - p_cardCount p - 10 ^ 15))
    (players gs) ->
  lineParserFactory label regex_mulligan_result (mulligan_result data) line gs clk
  = (true, gs', clk') ->
  exists i p n,
    0 <= n < 10 ^ 15 /\ mulliganActive gs = true /\ players gs !! i = Some p /\
    players gs' !! i
    = Some (set_p_cardsReplacedInMulligan
              (Int (DECK_CARD_COUNT data - p_cardCount p - n)) p) /\
    safe_integer (DECK_CARD_COUNT data - p_cardCount p - n) /\
    clk' = clk.
Proof.
  intros Hlen _ Hsafe. unfold lineParserFactory.
  destruct (exec _ line) as [g|] eqn:He; [|discriminate].
  specialize (Hlen g eq_refl).
  apply exec_mulligan_result_cardsLeft in He as (w & Hw & Hne & Hd).
  destruct (parseInt_digits w Hne Hd) as (n & Hn & Hp).
  unfold grp in Hlen. rewrite Hw in Hlen. cbn [default from_option id] in Hlen.
  assert (Hn15 : 0 <= n < 10 ^ 15).
  { split; [lia|]. eapply Z.lt_le_trans; [apply Hn|].
    apply Z.pow_le_mono_r; lia. }
  unfold mulligan_result, grp. rewrite Hw. cbn [default from_option id]. rewrite Hp.
  unfold mulliganResult.
  destruct (mulliganActive gs); cbn [negb]; [|discriminate].
  destruct (getPlayerByName gs _) as [i|] eqn:Hi; [|discriminate].
  intros H. injection H as <- <-.
  apply find_idx_Some in Hi as (p & Hp' & _).
  exists i, p, n. split; [exact Hn15|]. split; [done|]. split; [exact Hp'|].
  split; [rewrite lookup_update_player_eq, Hp'; reflexivity|].
  split; [|reflexivity].
  rewrite Forall_forall in Hsafe.
  destruct (Hsafe p (list_elem_of_lookup_2 _ _ _ Hp')) as (_ & H1 & H2).
  unfold safe_integer in *. lia.
Qed.

Lemma mulligan_result_line_sets_an_integer_witness :
  exists i p n,
    0 <= n < 10 ^ 15 /\ mulliganActive (set_mulliganActive true two_players) = true /\
    players (set_mulliganActive true two_players) !! i = Some p /\
    players (lineParserFactory label_Power_GameState_DebugPrintEntitiesChosen
               regex_mulligan_result (mulligan_result example_data)
               mulligan_line_slashed (set_mulliganActive true two_players) clock0).1.2 !! i
    = Some (set_p_cardsReplacedInMulligan
              (Int (DECK_CARD_COUNT example_data - p_cardCount p - n)) p) /\
    safe_integer (DECK_CARD_COUNT example_data - p_cardCount p - n) /\
    clock0 = clock0.
Proof.
  apply (mulligan_result_line_sets_an_integer example_data
           label_Power_GameState_DebugPrintEntitiesChosen mulligan_line_slashed
           (set_mulliganActive true two_players) _ clock0 clock0).
  - intros g Hg. vm_compute in Hg. injection Hg as <-. vm_compute. lia.
  - vm_compute. split; discriminate.
  - repeat constructor; vm_compute; discriminate.
  - vm_compute. reflexivity.
Defined.

(** ** Deaths in a match-log entry *)

Lemma markDeaths_loop (deaths : gset number) (targets : list EntityProps) :
  forall (acc : list EntityProps) (m : gset number),
    foldl (markDeaths_target deaths) (acc, m) targets
    = (acc ++ (mark_dead deaths <$> targets),
       m ∪ list_to_set (filter (fun id => id ∈ deaths) (ep_entityId <$> targets))).
Proof.
  induction targets as [|t targets IH]; intros acc m; cbn [foldl fmap list_fmap].
  - rewrite app_nil_r, filter_nil, list_to_set_nil, (right_id_L ∅ (∪)). reflexivity.
  - rewrite filter_cons. destruct (decide (ep_entityId t ∈ deaths)) as [Hin|Hout].
    + replace (markDeaths_target deaths (acc, m) t)
        with ((acc ++ [set_ep_dead (Some true) t])%list, m ∪ {[ ep_entityId t ]})
        by (unfold markDeaths_target; by rewrite (bool_decide_eq_true_2 _ Hin)).
      replace (mark_dead deaths t) with (set_ep_dead (Some true) t)
        by (unfold mark_dead; by rewrite (bool_decide_eq_true_2 _ Hin)).
      rewrite IH, <- app_assoc, list_to_set_cons, (assoc_L (∪)). reflexivity.
    + replace (markDeaths_target deaths (acc, m) t) with ((acc ++ [t])%list, m)
        by (unfold markDeaths_target; by rewrite (bool_decide_eq_false_2 _ Hout)).
      replace (mark_dead deaths t) with t
        by (unfold mark_dead; by rewrite (bool_decide_eq_false_2 _ Hout)).
      rewrite IH, <- app_assoc. reflexivity.
Qed.

Lemma markDeaths_entry (deaths : gset number) (entry : MatchLogEntry) :
  (markDeaths deaths entry).1
  = mkMatchLogEntry (ml_type entry) (ml_manaSpent entry)
      (mark_dead deaths (ml_source entry)) (mark_dead deaths <$> ml_targets entry).
Proof.
  unfold markDeaths, mark_dead at 1.
  case_bool_decide; rewrite markDeaths_loop; reflexivity.
Qed.

Lemma markDeaths_marked (deaths : gset number) (entry : MatchLogEntry) (id : number) :
  id ∈ (markDeaths deaths entry).2 <-> id ∈ deaths /\ id ∈ entry_ids entry.
Proof.
  unfold markDeaths, entry_ids.
  case_bool_decide as Hs; rewrite markDeaths_loop; cbn [snd];
    rewrite elem_of_union, elem_of_list_to_set, list_elem_of_filter, elem_of_cons.
  - rewrite elem_of_singleton. split.
    + intros [->|[? ?]]; auto.
    + intros [? [?|?]]; auto.
  - rewrite elem_of_empty. split.
    + intros [[]|[? ?]]; auto.
    + intros [? [->|?]]; [contradiction|auto].
Qed.

Lemma ep_entityId_mark_dead (deaths : gset number) (p : EntityProps) :
  ep_entityId (mark_dead deaths p) = ep_entityId p.
Proof. unfold mark_dead. by case_bool_decide. Qed.

Lemma entry_ids_markDeaths (deaths : gset number) (entry : MatchLogEntry) :
  entry_ids (markDeaths deaths entry).1 = entry_ids entry.
Proof.
  rewrite markDeaths_entry. unfold entry_ids. cbn [ml_source ml_targets].
  rewrite ep_entityId_mark_dead. f_equal.
  rewrite <- list_fmap_compose. apply list_fmap_ext.
  intros i x _. apply ep_entityId_mark_dead.
Qed.

(** X19.  [markDeaths] returns the ids of [deaths] that the entry refers
    to, as source or as target, and nothing else; it sets [dead] to
    [true] on the source and on every target whose id is in [deaths],
    leaves the other ones and every other field as they were, and keeps
    the targets in their number and order. *)
Theorem markDeaths_marks_the_dead_of_the_entry (deaths : gset number)
    (entry : MatchLogEntry) :
  let entry' := (markDeaths deaths entry).1 in
  let marked := (markDeaths deaths entry).2 in
  (forall id, id ∈ marked <-> id ∈ deaths /\ id ∈ entry_ids entry) /\
  marked ⊆ deaths /\
  ml_type entry' = ml_type entry /\
  ml_manaSpent entry' = ml_manaSpent entry /\
  Forall2 (fun p p' =>
             p' = (if bool_decide (ep_entityId p ∈ deaths)
                   then set_ep_dead (Some true) p else p))
    (ml_source entry :: ml_targets entry) (ml_source entry' :: ml_targets entry').
Proof.
  intros entry' marked. subst entry' marked.
  split; [apply markDeaths_marked|].
  split; [intros id Hid; by apply markDeaths_marked in Hid as [? _]|].
  rewrite markDeaths_entry. cbn [ml_type ml_manaSpent ml_source ml_targets].
  repeat split. constructor; [reflexivity|].
  apply Forall2_fmap_r, Forall_Forall2_diag, Forall_true. reflexivity.
Qed.

Lemma mark_dead_union (d1 d2 : gset number) (p : EntityProps) :
  mark_dead d2 (mark_dead d1 p) = mark_dead (d1 ∪ d2) p.
Proof.
  unfold mark_dead at 1. rewrite ep_entityId_mark_dead. unfold mark_dead.
  rewrite (bool_decide_ext _ _ (elem_of_union d1 d2 (ep_entityId p))), bool_decide_or.
  destruct (bool_decide (ep_entityId p ∈ d1)), (bool_decide (ep_entityId p ∈ d2));
    reflexivity.
Qed.

(** X20.  Marking the deaths of [d1] and then those of [d2] leaves the
    entry as marking [d1 ∪ d2] at once does, and the two sets returned
    add up to the set that the single call returns; in particular a
    second call with the same deaths changes nothing and returns the
    same set. *)
Theorem markDeaths_in_two_calls (d1 d2 : gset number) (entry : MatchLogEntry) :
  let first := markDeaths d1 entry in
  let second := markDeaths d2 first.1 in
  second.1 = (markDeaths (d1 ∪ d2) entry).1 /\
  first.2 ∪ second.2 = (markDeaths (d1 ∪ d2) entry).2 /\
  markDeaths d1 first.1 = first.
Proof.
  intros first second. subst first second.
  assert (Hent : forall a b, (markDeaths b (markDeaths a entry).1).1
                             = (markDeaths (a ∪ b) entry).1).
  { intros a b. rewrite (markDeaths_entry b), (markDeaths_entry (a ∪ b)).
    rewrite (markDeaths_entry a). cbn [ml_type ml_manaSpent ml_source ml_targets].
    rewrite mark_dead_union. f_equal.
    rewrite <- list_fmap_compose. apply list_fmap_ext.
    intros i x _. apply mark_dead_union. }
  assert (Hset : forall a b, (markDeaths a entry).2 ∪ (markDeaths b (markDeaths a entry).1).2
                             = (markDeaths (a ∪ b) entry).2).
  { intros a b. apply set_eq. intros id.
    rewrite elem_of_union, !markDeaths_marked, entry_ids_markDeaths, elem_of_union.
    tauto. }
  split; [apply Hent|]. split; [apply Hset|].
  apply injective_projections.
  - rewrite Hent, (idemp_L (∪) d1). reflexivity.
  - apply set_eq. intros id. rewrite !markDeaths_marked, entry_ids_markDeaths. tauto.
Qed.

(** ** The card-init block *)

Lemma run_parsers_cons (p : LineParser) (rest : list LineParser) (line : string) (w : World) :
  run_parsers (p :: rest) line w = run_parsers rest line (p line w).2.
Proof. cbn [run_parsers]. by destruct (p line w). Qed.

Lemma w_cardInit_line_parser (p : string -> GameState -> Clock -> bool * GameState * Clock)
    (line : string) (w : World) :
  w_cardInit (line_parser p line w).2 = w_cardInit w.
Proof. unfold line_parser. by destruct (p line _ _) as [[r gs] clk]. Qed.

Lemma card_init_eq (line : string) (w : World) :
  card_init line w =
  (false,
   mkWorld (w_gameState w) (w_clock w)
     match exec (makeFullRegex label_Power_GameState_DebugPrintPower regex_card_init_start)
             line with
     | Some groups =>
         mkBlockClosure
           (match card_init_initializeBlockState groups (w_gameState w) with
            | Some initialState => Some initialState
            | None => blockState (w_cardInit w)
            end)
           (Z.of_nat (String.length (grp groups "indent")))
     | None => w_cardInit w
     end).
Proof. unfold card_init. by rewrite blockParser_never_forwards. Qed.

(** X21.  The card-init parser never reports a change and never touches
    the game state or the clock; all it does is to its own block state.
    A block that is open stays open, and the block state changes only on
    a line read while the game is active and in its begin phase. *)
Theorem card_init_only_touches_its_block (line : string) (w : World) :
  let w' := (card_init line w).2 in
  (card_init line w).1 = false /\
  w_gameState w' = w_gameState w /\
  w_clock w' = w_clock w /\
  (is_Some (blockState (w_cardInit w)) -> is_Some (blockState (w_cardInit w'))) /\
  (blockState (w_cardInit w') <> blockState (w_cardInit w) ->
   active (w_gameState w) = true /\ beginPhaseActive (w_gameState w) = true).
Proof.
  rewrite card_init_eq. cbn [fst snd w_gameState w_clock w_cardInit].
  destruct (exec _ line) as [groups|]; [|by repeat split].
  cbn [blockState]. unfold card_init_initializeBlockState.
  destruct (active (w_gameState w)), (beginPhaseActive (w_gameState w));
    cbn [negb orb]; repeat split; try done; eauto.
Qed.

(** X22.  Nothing in the parser list closes the block of card-init: if
    it is open before [parseLines], it is open afterwards, whatever the
    lines are (a new game included). *)
Theorem card_init_block_is_never_closed (data : StaticData) (lines : list string)
    (lw : LogWatcher) :
  is_Some (blockState (w_cardInit (world lw))) ->
  is_Some (blockState (w_cardInit (world (parseLines (lineParsers data) lines lw)))).
Proof.
  rewrite parseLines_eq. cbn [world]. generalize (world lw). clear lw.
  induction lines as [|line lines IH]; intros w H; [exact H|].
  cbn [foldl]. apply IH. unfold lineParsers.
  rewrite !run_parsers_cons. cbn [run_parsers].
  rewrite card_init_eq. cbn [snd w_cardInit].
  rewrite !w_cardInit_line_parser.
  destruct (exec _ line) as [groups|]; [|exact H].
  cbn [blockState]. destruct (card_init_initializeBlockState _ _); [eauto|exact H].
Qed.

Lemma card_init_block_is_never_closed_witness :
  is_Some (blockState (w_cardInit (world
    (parseLines (lineParsers example_data) [create_game_line_slashed; block_inner_line]
       open_block_watcher)))).
Proof.
  apply (card_init_block_is_never_closed example_data
           [create_game_line_slashed; block_inner_line] open_block_watcher).
  cbn. eauto.
Defined.

(** ** The output log *)

Lemma append_nil_r (s : string) : (s ++ "")%string = s.
Proof. induction s as [|c s IH]; [reflexivity|]. by rewrite append_cons_l, IH. Qed.

Lemma append_assoc (a b c : string) : ((a ++ b) ++ c)%string = (a ++ (b ++ c))%string.
Proof.
  induction a as [|x a IH]; [reflexivity|]. by rewrite !append_cons_l, IH.
Qed.

Lemma join_empty_app (a b : list string) :
  join_empty (a ++ b) = (join_empty a ++ join_empty b)%string.
Proof.
  induction a as [|x a IH]; [reflexivity|].
  cbn [app join_empty]. by rewrite IH, append_assoc.
Qed.

Lemma join_empty_singleton (s : string) : join_empty [s] = s.
Proof. cbn [join_empty]. apply append_nil_r. Qed.

Lemma active_not_complete (gs : GameState) : active gs = true -> complete gs = false.
Proof. unfold active. destruct (complete gs); [|done]. by rewrite andb_false_r. Qed.

Ltac string_normalise :=
  unfold all_text, with_newline;
  cbn [logStream linesQueued ended from_option ls_chunks];
  rewrite ?fmap_app, ?join_app; cbn [fmap list_fmap mjoin list_join ls_chunks];
  rewrite ?app_nil_r, ?join_empty_app; cbn [app join_empty];
  repeat (progress rewrite ?append_nil_r, ?append_nil_l, ?append_assoc);
  try reflexivity.

(** X23.  As long as the queue is empty whenever a stream is open (as
    it is at the start), [outputNewLines] keeps it so, and the text
    handed to the output log (what was written to the streams ended,
    then to the open one, then the queue) grows by exactly the line and
    a line feed when the line is logged, and is unchanged otherwise:
    no line is lost, doubled or reordered by the queueing, the opening
    or the closing of a stream.  A line is logged when a log directory
    is set and the game is active, or complete with a stream open. *)
Theorem outputNewLines_appends_the_line (opts : Options) (line : string)
    (gs : GameState) (out : OutputLog) :
  (is_Some (logStream out) -> linesQueued out = []) ->
  let out' := outputNewLines opts line gs out in
  (is_Some (logStream out') -> linesQueued out' = []) /\
  all_text out' =
    (if line_is_logged opts gs out
     then (all_text out ++ with_newline line)%string else all_text out).
Proof.
  intros Hinv out'. subst out'. unfold outputNewLines, line_is_logged.
  destruct (truthy_ostring (logDirectory opts)); cbn [negb orb andb]; [|done].
  destruct (active gs) eqn:Ha.
  - rewrite (active_not_complete gs Ha). cbn [negb orb andb].
    destruct out as [[st|] q e]; cbn [logStream linesQueued ended] in *.
    + rewrite (Hinv (mk_is_Some _ _ eq_refl)). split; [done|]. string_normalise.
    + destruct (Nat.eqb (numPlayers gs) 2); cbn [logStream linesQueued ended].
      * split; [done|]. string_normalise.
      * split; [by intros [? ?]|]. string_normalise.
  - cbn [negb orb andb]. destruct (complete gs) eqn:Hc; cbn [negb orb andb]; [|done].
    destruct out as [[st|] q e]; cbn [logStream linesQueued ended] in *.
    + rewrite (bool_decide_eq_true_2 _ (mk_is_Some _ _ eq_refl)).
      cbn [logStream linesQueued ended].
      rewrite (Hinv (mk_is_Some _ _ eq_refl)). split; [by intros [? ?]|].
      string_normalise.
    + rewrite bool_decide_eq_false_2 by (by intros [? ?]).
      cbn [logStream]. done.
Qed.

Lemma outputNewLines_appends_the_line_witness :
  let out' := outputNewLines logging_options "CREATE_GAME" one_player output0 in
  (is_Some (logStream out') -> linesQueued out' = []) /\
  all_text out' =
    (if line_is_logged logging_options one_player output0
     then (all_text output0 ++ with_newline "CREATE_GAME")%string else all_text output0).
Proof.
  apply (outputNewLines_appends_the_line logging_options "CREATE_GAME" one_player output0).
  reflexivity.
Defined.

Lemma run_output_queues (opts : Options) (queued : list (string * GameState)) :
  truthy_ostring (logDirectory opts) = true ->
  Forall (fun step => active step.2 = true /\ numPlayers step.2 <> 2%nat) queued ->
  forall q e,
    run_output opts queued (mkOutputLog None q e)
    = mkOutputLog None (q ++ ((fun step => with_newline step.1) <$> queued)) e.
Proof.
  intros Hdir. induction 1 as [|[line gs] queued [Ha Hn] _ IH]; intros q e.
  - cbn [fmap list_fmap]. by rewrite app_nil_r.
  - unfold run_output in *. cbn [foldl fst snd] in *.
    unfold outputNewLines at 2. rewrite Hdir, Ha, (active_not_complete gs Ha).
    cbn [negb orb andb logStream linesQueued ended].
    apply Nat.eqb_neq in Hn. rewrite Hn. cbn [logStream linesQueued ended].
    rewrite IH. cbn [fmap list_fmap fst]. by rewrite <- app_assoc.
Qed.

(** X24.  No stream is opened before two players are known: the lines
    of an active game are queued until then.  The first line read with
    two players opens the stream, named after the start time and the
    players of the game state at that moment; everything queued, by
    whatever game, is written to it in one chunk before the line, and
    the queue is emptied. *)
Theorem queued_lines_are_written_first (opts : Options)
    (queued : list (string * GameState)) (line : string) (gs : GameState) :
  truthy_ostring (logDirectory opts) = true ->
  Forall (fun step => active step.2 = true /\ numPlayers step.2 <> 2%nat) queued ->
  active gs = true ->
  numPlayers gs = 2%nat ->
  logStream (run_output opts queued output0) = None /\
  run_output opts (queued ++ [(line, gs)]) output0
  = mkOutputLog
      (Some (mkLogStream (startTime gs)
               (player_name_or_unknown (players gs !! 0%nat))
               (player_name_or_unknown (players gs !! 1%nat))
               [join_empty ((fun step => with_newline step.1) <$> queued);
                with_newline line]))
      [] [].
Proof.
  intros Hdir Hq Ha Hn. unfold output0.
  split; [by rewrite (run_output_queues opts queued Hdir Hq)|].
  unfold run_output. rewrite foldl_app. fold (run_output opts queued (mkOutputLog None [] [])).
  rewrite (run_output_queues opts queued Hdir Hq). cbn [foldl fst snd app].
  unfold outputNewLines. rewrite Hdir, Ha, (active_not_complete gs Ha), Hn.
  reflexivity.
Qed.

Lemma queued_lines_are_written_first_witness :
  logStream (run_output logging_options [("CREATE_GAME", one_player)] output0) = None /\
  run_output logging_options ([("CREATE_GAME", one_player)] ++ [("PlayerID=2", two_players)])
    output0
  = mkOutputLog
      (Some (mkLogStream (startTime two_players)
               (player_name_or_unknown (players two_players !! 0%nat))
               (player_name_or_unknown (players two_players !! 1%nat))
               [join_empty ((fun step => with_newline step.1)
                              <$> [("CREATE_GAME", one_player)]);
                with_newline "PlayerID=2"]))
      [] [].
Proof.
  apply (queued_lines_are_written_first logging_options [("CREATE_GAME", one_player)]
           "PlayerID=2" two_players).
  - reflexivity.
  - repeat constructor. cbn. lia.
  - reflexivity.
  - reflexivity.
Defined.

(** ** Putting a card twice *)

Lemma update_card_idem (cardId : option Z) (cardName : option string)
    (state : option CardState) (card : Card) :
  update_card cardId cardName state (update_card cardId cardName state card)
  = update_card cardId cardName state card.
Proof.
  unfold update_card.
  destruct (truthy_oint cardId), (truthy_ostring cardName), state; reflexivity.
Qed.

Lemma update_card_fresh (entityId : number) (cardId : option Z) (cardName : option string)
    (st : CardState) (spawned : bool) :
  update_card cardId cardName (Some st) (mkCard entityId cardId cardName st spawned [])
  = mkCard entityId cardId cardName st spawned [].
Proof.
  unfold update_card.
  destruct (truthy_oint cardId), (truthy_ostring cardName); reflexivity.
Qed.

(** X25.  Putting the same card a second time changes nothing when the
    entity id is a number: the card found or pushed by the first call
    is found by the second, which assigns the same values.  An entity
    id that is NaN is equal to no id, its own included: such a card is
    never found, and every put with a state and an [isSpawnedCard] flag
    pushes one more card. *)
Theorem putCards_twice (cardList : list Card) (e : Z) (cardId : option Z)
    (cardName : option string) (isSpawnedCard : option bool) (state : option CardState)
    (st : CardState) (spawned : bool) :
  putCards (putCards cardList (Int e) cardId cardName isSpawnedCard state)
    (Int e) cardId cardName isSpawnedCard state
  = putCards cardList (Int e) cardId cardName isSpawnedCard state /\
  putCards cardList NaN cardId cardName (Some spawned) (Some st)
  = (cardList ++ [mkCard NaN cardId cardName st spawned []])%list.
Proof.
  split.
  - unfold putCards at 2.
    destruct (find_idx _ cardList) as [i|] eqn:Hf.
    + unfold putCards. rewrite find_idx_alter, Hf by (intros x; by rewrite upd_entityId).
      rewrite list_alter_alter_eq. apply list_alter_ext; [|done].
      intros x _. apply update_card_idem.
    + destruct state as [st'|]; [destruct isSpawnedCard as [spawned'|]|];
        unfold putCards; try by rewrite Hf.
      rewrite (find_idx_app_None _ _ _ Hf) by (cbn; apply Z.eqb_refl).
      rewrite <- (Nat.add_0_r (length cardList)), alter_app_r.
      cbn [alter list_alter]. by rewrite update_card_fresh, Hf.
  - unfold putCards. rewrite find_idx_None_intro; [reflexivity|].
    intros c _. by destruct (c_entityId c).
Qed.

(** ** Resolving two entities *)

Lemma refresh_card_entityId (ents : gmap number CardEntity) (id : number) (card : Card) :
  c_entityId (refresh_card ents id card) = c_entityId card.
Proof.
  unfold refresh_card. destruct (strict_eq _ _); [|done].
  by destruct (identifySpecialTags _).
Qed.

Lemma strict_eq_other (a b c : number) :
  b <> c -> strict_eq a b = true -> strict_eq a c = false.
Proof.
  intros Hne Hb. apply strict_eq_true in Hb as ->.
  destruct b as [|x], c as [|y]; cbn; try done.
  apply Z.eqb_neq. congruence.
Qed.

Lemma refresh_card_commutes (m1 m2 : CardEntity) (ents : gmap number CardEntity)
    (id1 id2 : number) (card : Card) :
  id1 <> id2 ->
  refresh_card (<[id1 := m1]> (<[id2 := m2]> ents)) id1
    (refresh_card (<[id2 := m2]> ents) id2 card)
  = refresh_card (<[id2 := m2]> (<[id1 := m1]> ents)) id2
      (refresh_card (<[id1 := m1]> ents) id1 card).
Proof.
  intros Hne. unfold refresh_card at 2 4.
  destruct (strict_eq (c_entityId card) id1) eqn:H1.
  - rewrite (strict_eq_other _ id1 id2 Hne H1).
    assert (E : c_entityId card = id1) by (by apply strict_eq_true).
    unfold refresh_card. rewrite H1, E, !lookup_insert_eq.
    destruct (identifySpecialTags (Some m1)); cbn [c_entityId set_c_tags];
      by rewrite (strict_eq_other _ id1 id2 Hne H1).
  - destruct (strict_eq (c_entityId card) id2) eqn:H2.
    + assert (E : c_entityId card = id2) by (by apply strict_eq_true).
      unfold refresh_card. rewrite H2, E, !lookup_insert_eq.
      destruct (identifySpecialTags (Some m2)); cbn [c_entityId set_c_tags];
        by rewrite ?H1.
    + unfold refresh_card. by rewrite H1, H2.
Qed.

Lemma strict_eq_ne (a b : number) : a <> b -> strict_eq a b = false.
Proof.
  intros H. destruct a as [|x], b as [|y]; cbn; try done.
  apply Z.eqb_neq. congruence.
Qed.

Lemma patch_props_hit (m : CardEntity) (props : EntityProps) :
  isEmpty (Some (ep_cardName props)) = true ->
  strict_eq (ep_entityId props) (ce_entityId m) = true ->
  patch_props m props = spread_newProps props m.
Proof. intros He Hs. unfold patch_props. by rewrite He, Hs. Qed.

Lemma patch_props_miss (m : CardEntity) (props : EntityProps) :
  strict_eq (ep_entityId props) (ce_entityId m) = false ->
  patch_props m props = props.
Proof. intros Hs. unfold patch_props. by rewrite Hs, andb_false_r. Qed.

Lemma patch_props_commutes (m1 m2 : CardEntity) (props : EntityProps) :
  ce_entityId m1 <> ce_entityId m2 ->
  patch_props m1 (patch_props m2 props) = patch_props m2 (patch_props m1 props).
Proof.
  intros Hne.
  destruct (isEmpty (Some (ep_cardName props))) eqn:He;
    [|unfold patch_props; rewrite He; cbn [andb]; by rewrite He].
  destruct (strict_eq (ep_entityId props) (ce_entityId m1)) eqn:H1,
           (strict_eq (ep_entityId props) (ce_entityId m2)) eqn:H2.
  - apply strict_eq_true in H1, H2. congruence.
  - rewrite (patch_props_miss m2 props H2), (patch_props_hit m1 props He H1).
    rewrite patch_props_miss; [reflexivity|]. by apply strict_eq_ne.
  - rewrite (patch_props_miss m1 props H1), (patch_props_hit m2 props He H2).
    rewrite patch_props_miss; [reflexivity|]. apply strict_eq_ne.
    intros E. apply Hne. symmetry. exact E.
  - by rewrite (patch_props_miss m2 props H2), (patch_props_miss m1 props H1),
      (patch_props_miss m2 props H2).
Qed.

Lemma patch_entry_commutes (m1 m2 : CardEntity) (entry : MatchLogEntry) :
  ce_entityId m1 <> ce_entityId m2 ->
  patch_entry m1 (patch_entry m2 entry) = patch_entry m2 (patch_entry m1 entry).
Proof.
  intros Hne. unfold patch_entry. cbn [ml_type ml_manaSpent ml_source ml_targets].
  f_equal; [by apply patch_props_commutes|].
  rewrite <- !list_fmap_compose. apply list_fmap_ext.
  intros i x _. by apply patch_props_commutes.
Qed.

(** X26.  Facts about two different entities can be resolved in either
    order: the entities stored, the tags of the players' cards and the
    match log end up the same. *)
Theorem resolveEntity_commutes (entity1 entity2 : PartialCardEntity) (s : GameState) :
  pe_entityId entity1 <> pe_entityId entity2 ->
  resolveEntity entity1 (resolveEntity entity2 s)
  = resolveEntity entity2 (resolveEntity entity1 s).
Proof.
  intros Hne.
  rewrite (resolveEntity_unfold entity1 (resolveEntity entity2 s)).
  rewrite (resolveEntity_unfold entity2 (resolveEntity entity1 s)).
  rewrite (resolveEntity_unfold entity1 s), (resolveEntity_unfold entity2 s).
  cbv zeta.
  cbn [startTime matchDuration playerCount gameOverCount players beginPhaseActive
       mulliganActive turnStartTime matchLog entities missingEntityIds].
  rewrite (lookup_insert_ne (entities s) (pe_entityId entity2)) by congruence.
  rewrite (lookup_insert_ne (entities s) (pe_entityId entity1)) by congruence.
  set (m1 := merge (entities s !! pe_entityId entity1) entity1).
  set (m2 := merge (entities s !! pe_entityId entity2) entity2).
  assert (Hm : ce_entityId m1 <> ce_entityId m2) by exact Hne.
  f_equal.
  - rewrite <- !list_fmap_compose. apply list_fmap_ext. intros i p _.
    unfold compose. destruct p. unfold set_p_cards. cbn. f_equal.
    rewrite <- !list_fmap_compose. apply list_fmap_ext. intros j c _.
    unfold compose. by apply refresh_card_commutes.
  - destruct (isEmpty (Some (ce_cardName m1)) || _), (isEmpty (Some (ce_cardName m2)) || _);
      try reflexivity.
    rewrite <- !list_fmap_compose. apply list_fmap_ext. intros i x _.
    unfold compose. by apply patch_entry_commutes.
  - apply insert_insert_ne. congruence.
Qed.

Lemma resolveEntity_commutes_witness :
  resolveEntity corruptible_named (resolveEntity fireball_8 corruptible_logged)
  = resolveEntity fireball_8 (resolveEntity corruptible_named corruptible_logged).
Proof.
  apply (resolveEntity_commutes corruptible_named fireball_8 corruptible_logged).
  discriminate.
Defined.
